(** * word-chain: the generation endpoint and the puzzle page

    A shallow embedding of the two revisions of the generation endpoint
    ([src/app/api/wordchain/route.ts] and [unnamed/part_001]) and of the two
    revisions of the puzzle page ([unnamed/part_002] and [src/app/page.tsx]),
    followed by the properties of the specification proved (or refuted)
    on them.

    Conventions of the embedding.
    - JavaScript integers (counters, millisecond time stamps, indices) are
      [Z]; a number that may be [NaN] is an [option Z] with [None] for [NaN].
    - JavaScript strings are [string]s of ASCII characters; [undefined]
      read out of a string or an array cell is the empty string, which is
      how [join] and the renderer of the page treat it.
    - The clock ([Date.now()]), the text the model returns and
      [JSON.parse] are inputs of the functions that use them. *)

From Stdlib Require Import ZArith Ascii String DecimalString.
From stdpp Require Import gmap strings list fin_maps.

Local Open Scope Z_scope.

(** ** JavaScript strings *)

Module Js.

Definition code (c : ascii) : N := N_of_ascii c.

(** White space and line terminators, as [trim] and [parseInt] skip them. *)
Definition isWhiteSpace (c : ascii) : bool :=
  let n := code c in
  ((9 <=? n) && (n <=? 13) || (n =? 32))%N.

Definition isLower (c : ascii) : bool := ((97 <=? code c) && (code c <=? 122))%N.
Definition isUpper (c : ascii) : bool := ((65 <=? code c) && (code c <=? 90))%N.
Definition isDigit (c : ascii) : bool := ((48 <=? code c) && (code c <=? 57))%N.

(** The class [[a-zA-Z]] and the class [\w]. *)
Definition isLetter (c : ascii) : bool := isLower c || isUpper c.
Definition isWordChar (c : ascii) : bool :=
  isLetter c || isDigit c || (code c =? 95)%N.

(** [.] of a regular expression without the [s] flag. *)
Definition isLineTerminator (c : ascii) : bool :=
  ((code c =? 10) || (code c =? 13))%N.

Definition upperChar (c : ascii) : ascii :=
  if isLower c then ascii_of_N (code c - 32) else c.

Definition chars (s : string) : list ascii := list_ascii_of_string s.
Definition str (l : list ascii) : string := string_of_list_ascii l.

(** [s.toUpperCase()] *)
Definition toUpperCase (s : string) : string := str (upperChar <$> chars s).

Fixpoint trimStartL (l : list ascii) : list ascii :=
  match l with
  | c :: r => if isWhiteSpace c then trimStartL r else l
  | [] => []
  end.

Definition trimEndL (l : list ascii) : list ascii := rev (trimStartL (rev l)).

(** [s.trim()] *)
Definition trim (s : string) : string := str (trimEndL (trimStartL (chars s))).

(** [s[j]]: a string of one character, or [undefined]. *)
Definition charAt (s : string) (j : nat) : string :=
  match chars s !! j with
  | Some c => str [c]
  | None => ""
  end.

(** [a.join('')] *)
Definition join (a : list string) : string := foldr String.append "" a.

(** [a[i] = v] on an array: past the end the array grows, and the cells
    in between are holes. *)
Definition arraySet (a : list string) (i : nat) (v : string) : list string :=
  if decide (i < length a)%nat then <[i := v]> a
  else a ++ replicate (i - length a) ""%string ++ [v].

(** The list is empty or begins with a character that is not white
    space. *)
Definition cleanStart (l : list ascii) : Prop :=
  match l with
  | c :: _ => isWhiteSpace c = false
  | [] => True
  end.

(** [s.split(',')[0]] *)
Fixpoint beforeComma (l : list ascii) : list ascii :=
  match l with
  | c :: r => if (code c =? 44)%N then [] else c :: beforeComma r
  | [] => []
  end.

End Js.

(** ** The rate limiter of [route.ts] *)

Record rateLimitRecord := { count : Z; resetTime : Z }.

Record rateLimitResult :=
  { allowed : bool; remaining : Z; windowResetTime : Z }.

(** [RATE_LIMIT] *)
Definition maxRequests : Z := 10.
Definition windowMs : Z := 15 * 60 * 1000.
Definition blockDurationMs : Z := 5 * 60 * 1000.

(** [checkRateLimit(key)], with the clock read [now] and the module-level
    [rateLimitStore] made explicit. *)
Definition checkRateLimit (now : Z) (key : string)
    (rateLimitStore : gmap string rateLimitRecord)
    : rateLimitResult * gmap string rateLimitRecord :=
  match rateLimitStore !! key with
  | Some record =>
      if now >=? resetTime record then
        let newRecord := {| count := 1; resetTime := now + windowMs |} in
        ({| allowed := true; remaining := maxRequests - 1;
            windowResetTime := resetTime newRecord |},
         <[key := newRecord]> rateLimitStore)
      else if count record >=? maxRequests then
        ({| allowed := false; remaining := 0;
            windowResetTime := resetTime record |},
         rateLimitStore)
      else
        let record' := {| count := count record + 1; resetTime := resetTime record |} in
        ({| allowed := true; remaining := maxRequests - count record';
            windowResetTime := resetTime record' |},
         <[key := record']> rateLimitStore)
  | None =>
      let newRecord := {| count := 1; resetTime := now + windowMs |} in
      ({| allowed := true; remaining := maxRequests - 1;
          windowResetTime := resetTime newRecord |},
       <[key := newRecord]> rateLimitStore)
  end.

(** The periodic sweep installed with [setInterval]. *)
Definition cleanup (now : Z) (rateLimitStore : gmap string rateLimitRecord)
    : gmap string rateLimitRecord :=
  filter (fun kr => negb (now >=? resetTime kr.2 + blockDurationMs) = true)
         rateLimitStore.

(** ** Numbers and parsed JSON *)

Module Json.
Import Js.

(** [n.toString()] of an integer. *)
Definition numberToString (n : Z) : string :=
  DecimalString.NilZero.string_of_int (Z.to_int n).

Definition digitValue (c : ascii) : option Z :=
  if isDigit c then Some (Z.of_N (code c) - 48)
  else if isLower c then Some (Z.of_N (code c) - 97 + 10)
  else if isUpper c then Some (Z.of_N (code c) - 65 + 10)
  else None.

(** The value of the longest prefix of [l] made of digits of radix [R];
    [acc] is the value read so far, [None] while no digit was read. *)
Fixpoint digits (R : Z) (acc : option Z) (l : list ascii) : option Z :=
  match l with
  | c :: r =>
      match digitValue c with
      | Some d =>
          if d <? R then digits R (Some (default 0 acc * R + d)) r else acc
      | None => acc
      end
  | [] => acc
  end.

Definition stripHexPrefix (l : list ascii) : option (list ascii) :=
  match l with
  | z :: x :: r =>
      if ((code z =? 48) && ((code x =? 120) || (code x =? 88)))%N
      then Some r else None
  | _ => None
  end.

(** [parseInt(s, radix)]; [radix = None] is the call with one argument,
    the result [None] is [NaN]. *)
Definition parseInt (s : string) (radix : option Z) : option Z :=
  let input := trimStartL (chars s) in
  let '(sign, input) :=
    match input with
    | c :: r =>
        if (code c =? 45)%N then (-1, r)
        else if (code c =? 43)%N then (1, r) else (1, input)
    | [] => (1, input)
    end in
  let R := default 0 radix in
  if (R =? 0) || (R =? 16) then
    match stripHexPrefix input with
    | Some input' => Z.mul sign <$> digits 16 None input'
    | None => Z.mul sign <$> digits (if R =? 0 then 10 else R) None input
    end
  else if (R <? 2) || (R >? 36) then None
  else Z.mul sign <$> digits R None input.

(** A value returned by [JSON.parse]; a number is kept as the text
    [String] gives for it. *)
#[local] Set Warnings "-register-all".
Inductive json :=
| JNull
| JBool (b : bool)
| JNum (text : string)
| JStr (s : string)
| JArr (items : list json)
| JObj (fields : list (string * json)).

Fixpoint joinWith (sep : string) (a : list string) : string :=
  match a with
  | [] => ""
  | x :: r =>
      match r with
      | [] => x
      | _ => x +:+ sep +:+ joinWith sep r
      end
  end.

(** [String(v)]; [None] when the conversion throws a [TypeError], which
    it does on an object whose own [toString] property hides the
    inherited method. *)
Fixpoint toString (v : json) : option string :=
  match v with
  | JNull => Some "null"
  | JBool b => Some (if b then "true" else "false")
  | JNum text => Some text
  | JStr s => Some s
  | JArr items =>
      joinWith "," <$>
        (fix elements (l : list json) : option (list string) :=
           match l with
           | [] => Some []
           | x :: r =>
               match (match x with JNull => Some ""%string | _ => toString x end),
                     elements r with
               | Some a, Some b => Some (a :: b)
               | _, _ => None
               end
           end) items
  | JObj fields =>
      if bool_decide ("toString"%string ∈ fields.*1) then None
      else Some "[object Object]"
  end.

(** [text.match(/\b[a-zA-Z]+\b/g)] reads the text once. [prevWord] tells
    whether the character just read is a [\w]; [run] holds, in reverse,
    the letters read since the last word boundary while only letters
    were read since then. A run is a match when a character outside [\w]
    or the end of the text follows it. *)
Fixpoint scanWords (prevWord : bool) (run : option (list ascii))
    (l : list ascii) : list string :=
  match l with
  | [] =>
      match run with
      | Some r => [str (rev r)]
      | None => []
      end
  | c :: rest =>
      if isLetter c then
        scanWords true
          (match run with
           | Some r => Some (c :: r)
           | None => if prevWord then None else Some [c]
           end) rest
      else if isWordChar c then scanWords true None rest
      else
        match run with
        | Some r => str (rev r) :: scanWords false None rest
        | None => scanWords false None rest
        end
  end.

(** The array of matches, or [null]. *)
Definition matchWords (text : string) : option (list string) :=
  match scanWords false None (chars text) with
  | [] => None
  | ws => Some ws
  end.

(** The characters of [l] up to its last [']'], when it has one. *)
Fixpoint uptoLastBracket (l : list ascii) : option (list ascii) :=
  match l with
  | [] => None
  | c :: r =>
      match uptoLastBracket r with
      | Some m => Some (c :: m)
      | None => if (code c =? 93)%N then Some [c] else None
      end
  end.

Fixpoint restOfLine (l : list ascii) : list ascii :=
  match l with
  | c :: r => if isLineTerminator c then [] else c :: restOfLine r
  | [] => []
  end.

Fixpoint matchBracketL (l : list ascii) : option (list ascii) :=
  match l with
  | [] => None
  | c :: r =>
      if (code c =? 91)%N then
        match uptoLastBracket (restOfLine r) with
        | Some m => Some (c :: m)
        | None => matchBracketL r
        end
      else matchBracketL r
  end.

(** [text.match(/\[.*\]/)]: the match [jsonMatch[0]], or [null]. *)
Definition matchBracket (text : string) : option string :=
  str <$> matchBracketL (chars text).

(** A reader for the texts that are one array of string literals without
    escapes, such as [["good","time","out"]]; on these texts it returns
    what [JSON.parse] returns, and, like [JSON.parse], it rejects a
    text that does not begin with a JSON value. It stands for
    [JSON.parse] in the worked examples only. *)
Definition isJsonSpace (c : ascii) : bool :=
  ((code c =? 32) || (code c =? 9) || (code c =? 10) || (code c =? 13))%N.

Fixpoint skipSpace (l : list ascii) : list ascii :=
  match l with
  | c :: r => if isJsonSpace c then skipSpace r else l
  | [] => []
  end.

Fixpoint literal (l : list ascii) : option (list ascii * list ascii) :=
  match l with
  | [] => None
  | c :: r =>
      if (code c =? 34)%N then Some ([], r)
      else if ((code c =? 92) || (code c <? 32))%N then None
      else '(s, r') ← literal r; Some (c :: s, r')
  end.

Fixpoint literals (fuel : nat) (l : list ascii) : option (list json) :=
  match fuel with
  | O => None
  | S fuel =>
      match skipSpace l with
      | q :: r =>
          if (code q =? 34)%N then
            '(s, r') ← literal r;
            match skipSpace r' with
            | d :: r'' =>
                if (code d =? 44)%N then
                  items ← literals fuel r''; Some (JStr (str s) :: items)
                else if (code d =? 93)%N then
                  match skipSpace r'' with
                  | [] => Some [JStr (str s)]
                  | _ => None
                  end
                else None
            | [] => None
            end
          else None
      | [] => None
      end
  end.

(** The text of an array of string literals. *)
Definition quoted (s : string) : string :=
  String (ascii_of_N 34) (s +:+ String (ascii_of_N 34) EmptyString).

Definition arrayText (items : list string) : string :=
  "[" +:+ joinWith "," (quoted <$> items) +:+ "]".

Definition parseStringArray (text : string) : option json :=
  match skipSpace (chars text) with
  | b :: r =>
      if (code b =? 91)%N then
        match skipSpace r with
        | e :: r' =>
            if (code e =? 93)%N then
              match skipSpace r' with
              | [] => Some (JArr [])
              | _ => None
              end
            else JArr <$> literals (S (length r)) r
        | [] => None
        end
      else None
  | [] => None
  end.

End Json.

(** ** Requests, responses and the model call *)

(** What the handlers read of a [NextRequest]: two headers and
    [searchParams.get('length')]; [None] is [null]. *)
Record NextRequest :=
  { x_forwarded_for : option string;
    x_real_ip : option string;
    lengthParam : option string }.

Inductive headerValue :=
| Text (s : string)
| IsoDate (ms : Z).      (* [new Date(ms).toISOString()] *)

Inductive jsonBody :=
| Words (words : list string)
| Failure (error : string) (message : option string) (retryAfter : option Z).

Record NextResponse :=
  { status : Z;
    headers : list (string * headerValue);
    body : jsonBody }.

(** The outcome of [openai.chat.completions.create]: the promise is
    rejected, or [completion.choices[0]?.message?.content] is read. *)
Inductive completion :=
| Rejected
| Content (content : option string).

(** A handler either answers at once, or awaits the model, called for
    [length] words, and answers from what it returns. *)
Inductive handler :=
| Respond (response : NextResponse)
| Create (length : option Z) (next : completion -> NextResponse).

Definition answer (h : handler) (c : completion) : NextResponse :=
  match h with
  | Respond response => response
  | Create _ next => next c
  end.

Definition invokesGenerator (h : handler) : bool :=
  match h with
  | Respond _ => false
  | Create _ _ => true
  end.

Definition truthy (s : option string) : option string :=
  match s with
  | Some "" | None => None
  | Some s => Some s
  end.

Definition hasField (name : string) (b : jsonBody) : bool :=
  match b with
  | Words _ => bool_decide (name = "words")
  | Failure _ message retryAfter =>
      bool_decide (name = "error")
      || bool_decide (name = "message") && bool_decide (is_Some message)
      || bool_decide (name = "retryAfter") && bool_decide (is_Some retryAfter)
  end.

(** ** [src/app/api/wordchain/route.ts] *)

Module Route.
Import Js Json.

Definition getRateLimitKey (request : NextRequest) : string :=
  let ip :=
    match truthy (x_forwarded_for request) with
    | Some forwarded => str (beforeComma (chars forwarded))
    | None => default "unknown"%string (truthy (x_real_ip request))
    end in
  "wordchain:" +:+ ip.

(** The names of the headers of the rate limiter. *)
Definition rateLimitHeaders : list string :=
  ["X-RateLimit-Limit"; "X-RateLimit-Remaining"; "X-RateLimit-Reset"]%string.

(** [parseInt(searchParams.get('length') || '5')] *)
Definition requestedLength (request : NextRequest) : option Z :=
  parseInt (default "5"%string (truthy (lengthParam request))) None.

(** [Math.ceil(ms / 60000)] *)
Definition ceilMinutes (ms : Z) : Z := - ((- ms) / 60000).

Definition generationFailure : NextResponse :=
  {| status := 500; headers := [];
     body := Failure "Failed to generate word chain"
               (Some "Please try again in a moment."%string) None |}.

Section WithParser.
(** [JSON.parse]: [None] when it throws. *)
Variable JSON_parse : string -> option json.

(** The [try]/[catch] around [JSON.parse(content)]: the parsed value,
    or [None] when the handler throws. *)
Definition parseWords (length : option Z) (content : string) : option json :=
  match JSON_parse content with
  | Some words => Some words
  | None =>
      match matchWords content, length with
      | Some wordMatches, Some n =>
          if Z.of_nat (List.length wordMatches) >=? n
          then Some (JArr (JStr <$> take (Z.to_nat n) wordMatches))
          else None
      | _, _ => None
      end
  end.

Definition cleanWord (word : json) : option string :=
  match word with
  | JStr s => Some (toUpperCase (trim s))
  | _ => (fun s => toUpperCase (trim s)) <$> toString word
  end.

(** The handler from the model's answer on; every exception ends in the
    [catch] of [GET]. *)
Definition respondWith (length : option Z)
    (headers : list (string * headerValue)) (c : completion) : NextResponse :=
  match c with
  | Rejected => generationFailure
  | Content content =>
      match truthy content with
      | None => generationFailure
      | Some content =>
          match parseWords length content with
          | Some (JArr words) =>
              if bool_decide (Some (Z.of_nat (List.length words)) = length) then
                match mapM cleanWord words with
                | Some cleanWords =>
                    {| status := 200; headers := headers; body := Words cleanWords |}
                | None => generationFailure
                end
              else generationFailure
          | _ => generationFailure
          end
      end
  end.

(** [GET(request)]; [now] and [now'] are the two reads of the clock,
    in [checkRateLimit] and in the answer to a rejected caller. *)
Definition GET (request : NextRequest) (now now' : Z)
    (rateLimitStore : gmap string rateLimitRecord)
    : handler * gmap string rateLimitRecord :=
  let rateLimitKey := getRateLimitKey request in
  let '(rateLimitResult, rateLimitStore) :=
    checkRateLimit now rateLimitKey rateLimitStore in
  let headers :=
    [("X-RateLimit-Limit"%string, Text (numberToString maxRequests));
     ("X-RateLimit-Remaining"%string, Text (numberToString (remaining rateLimitResult)));
     ("X-RateLimit-Reset"%string, IsoDate (windowResetTime rateLimitResult))] in
  if negb (allowed rateLimitResult) then
    let resetInMinutes := ceilMinutes (windowResetTime rateLimitResult - now') in
    (Respond
       {| status := 429; headers := headers;
          body := Failure "Rate limit exceeded"
                    (Some ("Too many requests. Please try again in "
                           +:+ numberToString resetInMinutes +:+ " minutes."))
                    (Some resetInMinutes) |},
     rateLimitStore)
  else
    let length := requestedLength request in
    if match length with
       | Some n => (n <? 3) || (n >? 8)
       | None => false
       end
    then
      (Respond
         {| status := 400; headers := headers;
            body := Failure "Invalid length. Must be between 3 and 8." None None |},
       rateLimitStore)
    else (Create length (respondWith length headers), rateLimitStore).

End WithParser.
End Route.

(** ** [unnamed/part_001]: the endpoint without rate limiting *)

Module Part001.
Import Js Json.

Definition generationFailure : NextResponse :=
  {| status := 500; headers := [];
     body := Failure "Word chain generation failed" None None |}.

(** [lengthParam ? parseInt(lengthParam, 10) : 5] *)
Definition requestedLength (request : NextRequest) : option Z :=
  match truthy (lengthParam request) with
  | Some lengthParam => parseInt lengthParam (Some 10)
  | None => Some 5
  end.

Section WithParser.
Variable JSON_parse : string -> option json.

Definition isWord (word : json) : bool :=
  match word with
  | JStr s => negb (String.eqb (trim s) "")
  | _ => false
  end.

Definition stringOf (word : json) : string :=
  match word with
  | JStr s => s
  | _ => ""
  end.

Definition respondWith (length : Z) (c : completion) : NextResponse :=
  match c with
  | Rejected => generationFailure
  | Content responseContent =>
      match truthy responseContent with
      | None => generationFailure
      | Some responseContent =>
          match matchBracket responseContent with
          | None => generationFailure
          | Some jsonMatch =>
              match JSON_parse jsonMatch with
              | Some (JArr words) =>
                  if negb (Z.of_nat (List.length words) =? length) then generationFailure
                  else if negb (forallb isWord words) then generationFailure
                  else {| status := 200; headers := [];
                          body := Words (stringOf <$> words) |}
              | _ => generationFailure
              end
          end
      end
  end.

(** [GET(request)]; [OPENAI_API_KEY] is [process.env.OPENAI_API_KEY]. *)
Definition GET (request : NextRequest) (OPENAI_API_KEY : option string) : handler :=
  match requestedLength request with
  | None =>
      Respond {| status := 400; headers := [];
                 body := Failure "Length must be a number between 2 and 20" None None |}
  | Some length =>
      if (length <? 2) || (length >? 20) then
        Respond {| status := 400; headers := [];
                   body := Failure "Length must be a number between 2 and 20" None None |}
      else
        match truthy OPENAI_API_KEY with
        | None =>
            Respond {| status := 500; headers := [];
                       body := Failure "OpenAI API key not configured" None None |}
        | Some _ => Create (Some length) (respondWith length)
        end
  end.

End WithParser.
End Part001.

(** ** Traffic on the rate limiter

    The module-level store lives as long as the server: requests of every
    caller and the sweep act on it one after the other. *)

Inductive traffic :=
| Request (key : string) (now : Z)
| Sweep (now : Z).

Definition timeOf (e : traffic) : Z :=
  match e with
  | Request _ now => now
  | Sweep now => now
  end.

(** The verdicts of [checkRateLimit], in order, each with its caller. *)
Fixpoint serve (events : list traffic) (rateLimitStore : gmap string rateLimitRecord)
    : list (string * bool) * gmap string rateLimitRecord :=
  match events with
  | [] => ([], rateLimitStore)
  | Request key now :: events =>
      let '(result, rateLimitStore) := checkRateLimit now key rateLimitStore in
      let '(log, rateLimitStore) := serve events rateLimitStore in
      ((key, allowed result) :: log, rateLimitStore)
  | Sweep now :: events => serve events (cleanup now rateLimitStore)
  end.

Definition verdictsOf (key : string) (log : list (string * bool)) : list bool :=
  (filter (fun kb => kb.1 = key) log).*2.

(** No window is open for [key] at time [now]. *)
Definition fresh (key : string) (now : Z)
    (rateLimitStore : gmap string rateLimitRecord) : Prop :=
  match rateLimitStore !! key with
  | Some record => resetTime record <= now
  | None => True
  end.

(** ** The parse policy in the words of the specification

    Three stages in order: the whole text as JSON; an array-like substring
    found by pattern and read as JSON; the first [length] bare words. It
    is compared with [Route.parseWords] and [Part001.respondWith] below. *)
Definition specParsePolicy (JSON_parse : string -> option Json.json)
    (length : Z) (text : string) : option Json.json :=
  match JSON_parse text with
  | Some v => Some v
  | None =>
      match Json.matchBracket text ≫= JSON_parse with
      | Some v => Some v
      | None =>
          match Json.matchWords text with
          | Some tokens =>
              if Z.of_nat (List.length tokens) >=? length
              then Some (Json.JArr (Json.JStr <$> take (Z.to_nat length) tokens))
              else None
          | None => None
          end
      end
  end.

(** ** The puzzle page *)

Inductive WordStatus := unsolved | solving | solved | failed.

Global Instance WordStatus_eq_dec : EqDecision WordStatus.
Proof. solve_decision. Defined.

(** What the player can do, and what the page does by itself: the timer
    ticks, and one second after a wrong guess on the word at [index] the
    callback of [setTimeout] runs. *)
Inductive event :=
| KeyPress (key : string)
| Backspace
| SubmitWord (index : nat)
| SelectWord (index : nat)
| Tick
| FailureTimeout (index : nat).

(** The keys of the keyboard drawn by the page. *)
Definition keyboard : list string :=
  ["Q"; "W"; "E"; "R"; "T"; "Y"; "U"; "I"; "O"; "P";
   "A"; "S"; "D"; "F"; "G"; "H"; "J"; "K"; "L";
   "Z"; "X"; "C"; "V"; "B"; "N"; "M"]%string.

(** [findIndex]: the index found, or [None] for [-1]. *)
Fixpoint findIndex {A} (p : A -> bool) (l : list A) : option nat :=
  match l with
  | [] => None
  | x :: r => if p x then Some 0%nat else S <$> findIndex p r
  end.

(** *** [unnamed/part_002]: the page with growing hints *)

Module Part002.
Import Js.

Record WordWithStatus :=
  { word : string;
    status : WordStatus;
    userInput : list string;
    currentIndex : nat;
    hintsRevealed : nat }.

(** The state of [Home] that the handlers read and write. *)
Record Home :=
  { words : list WordWithStatus;
    timer : nat;
    lives : Z;
    isTimerRunning : bool;
    selectedWordIndex : nat;
    droppingHeart : option Z;
    screenShake : bool;
    totalGuesses : nat }.

(** The state setters, applied to an updater. *)
Definition setWords (f : list WordWithStatus -> list WordWithStatus) (s : Home) : Home :=
  {| words := f (words s); timer := timer s; lives := lives s;
     isTimerRunning := isTimerRunning s; selectedWordIndex := selectedWordIndex s;
     droppingHeart := droppingHeart s; screenShake := screenShake s;
     totalGuesses := totalGuesses s |}.

Definition setTimer (f : nat -> nat) (s : Home) : Home :=
  {| words := words s; timer := f (timer s); lives := lives s;
     isTimerRunning := isTimerRunning s; selectedWordIndex := selectedWordIndex s;
     droppingHeart := droppingHeart s; screenShake := screenShake s;
     totalGuesses := totalGuesses s |}.

Definition setLives (f : Z -> Z) (s : Home) : Home :=
  {| words := words s; timer := timer s; lives := f (lives s);
     isTimerRunning := isTimerRunning s; selectedWordIndex := selectedWordIndex s;
     droppingHeart := droppingHeart s; screenShake := screenShake s;
     totalGuesses := totalGuesses s |}.

Definition setIsTimerRunning (b : bool) (s : Home) : Home :=
  {| words := words s; timer := timer s; lives := lives s;
     isTimerRunning := b; selectedWordIndex := selectedWordIndex s;
     droppingHeart := droppingHeart s; screenShake := screenShake s;
     totalGuesses := totalGuesses s |}.

Definition setSelectedWordIndex (i : nat) (s : Home) : Home :=
  {| words := words s; timer := timer s; lives := lives s;
     isTimerRunning := isTimerRunning s; selectedWordIndex := i;
     droppingHeart := droppingHeart s; screenShake := screenShake s;
     totalGuesses := totalGuesses s |}.

Definition setDroppingHeart (h : option Z) (s : Home) : Home :=
  {| words := words s; timer := timer s; lives := lives s;
     isTimerRunning := isTimerRunning s; selectedWordIndex := selectedWordIndex s;
     droppingHeart := h; screenShake := screenShake s;
     totalGuesses := totalGuesses s |}.

Definition setScreenShake (b : bool) (s : Home) : Home :=
  {| words := words s; timer := timer s; lives := lives s;
     isTimerRunning := isTimerRunning s; selectedWordIndex := selectedWordIndex s;
     droppingHeart := droppingHeart s; screenShake := b;
     totalGuesses := totalGuesses s |}.

Definition setTotalGuesses (f : nat -> nat) (s : Home) : Home :=
  {| words := words s; timer := timer s; lives := lives s;
     isTimerRunning := isTimerRunning s; selectedWordIndex := selectedWordIndex s;
     droppingHeart := droppingHeart s; screenShake := screenShake s;
     totalGuesses := f (totalGuesses s) |}.

(** [index > 0 && index < length - 1] *)
Definition isMiddleWord (index length : nat) : bool :=
  (0 <? Z.of_nat index) && (Z.of_nat index <? Z.of_nat length - 1).

(** The state after the word chain [data_words] was fetched. *)
Definition wordsWithStatus (data_words : list string) : list WordWithStatus :=
  imap (fun index word =>
          let middle := isMiddleWord index (length data_words) in
          let userInput := replicate 9 ""%string in
          {| word := toUpperCase word;
             status :=
               if bool_decide (index = 0%nat)
                  || (Z.of_nat index =? Z.of_nat (length data_words) - 1)
               then solved else unsolved;
             userInput := if middle then arraySet userInput 0 (charAt word 0) else userInput;
             currentIndex := if middle then 1 else 0;
             hintsRevealed := if middle then 1 else 0 |})
       data_words.

Definition initialize (data_words : list string) : Home :=
  let ws := wordsWithStatus data_words in
  {| words := ws; timer := 0; lives := 5; isTimerRunning := true;
     selectedWordIndex :=
       default 1%nat (findIndex (fun w => bool_decide (status w = unsolved)) ws);
     droppingHeart := None; screenShake := false; totalGuesses := 0 |}.

(** The guard [index < 1 || index >= words.length - 1] of the handlers. *)
Definition outside (index : nat) (s : Home) : bool :=
  (Z.of_nat index <? 1) || (Z.of_nat index >=? Z.of_nat (length (words s)) - 1).

Definition handleKeyPress (key : string) (s : Home) : Home :=
  if outside (selectedWordIndex s) s then s else
  match words s !! selectedWordIndex s with
  | None => s
  | Some currentWord =>
      if bool_decide (status currentWord = solved) || (9 <=? currentIndex currentWord)%nat
      then s
      else
        setWords (imap (fun index w =>
          if bool_decide (index = selectedWordIndex s) then
            {| word := word w;
               status := solving;
               userInput := arraySet (userInput w) (currentIndex w) (toUpperCase key);
               currentIndex := currentIndex w + 1;
               hintsRevealed := hintsRevealed w |}
          else w)) s
  end.

Definition handleBackspace (s : Home) : Home :=
  if outside (selectedWordIndex s) s then s else
  match words s !! selectedWordIndex s with
  | None => s
  | Some currentWord =>
      let minIndex := Nat.max 1 (hintsRevealed currentWord) in
      if bool_decide (status currentWord = solved) || (currentIndex currentWord <=? minIndex)%nat
      then s
      else
        setWords (imap (fun index w =>
          if bool_decide (index = selectedWordIndex s) then
            {| word := word w;
               status := status w;
               userInput := arraySet (userInput w) (currentIndex w - 1) "";
               currentIndex := currentIndex w - 1;
               hintsRevealed := hintsRevealed w |}
          else w)) s
  end.

(** The array a wrong guess leaves: the hints, then empty cells. *)
Definition hintInput (solution : string) (newHintsRevealed : nat) : list string :=
  foldl (fun newInput j => arraySet newInput j (charAt solution j))
        (replicate 9 ""%string) (seq 0 newHintsRevealed).

Definition handleSubmitWord (index : nat) (s : Home) : Home :=
  if outside index s then s else
  match words s !! index with
  | None => s
  | Some currentWord =>
      let userWord := trim (join (userInput currentWord)) in
      let isCorrect := String.eqb userWord (word currentWord) in
      let s := setTotalGuesses (fun prev => prev + 1)%nat s in
      if isCorrect then
        let s' :=
          setWords (imap (fun i w =>
            if bool_decide (i = index) then
              {| word := word w; status := solved; userInput := userInput w;
                 currentIndex := currentIndex w; hintsRevealed := hintsRevealed w |}
            else w)) s in
        if Z.of_nat index <? Z.of_nat (length (words s)) - 2
        then setSelectedWordIndex (index + 1) s' else s'
      else
        setLives (fun prev => prev - 1)
          (setWords (imap (fun i w =>
             if bool_decide (i = index) then
               let newHintsRevealed :=
                 Nat.min (hintsRevealed w + 1) (String.length (word w)) in
               {| word := word w; status := failed;
                  userInput := hintInput (word w) newHintsRevealed;
                  currentIndex := newHintsRevealed;
                  hintsRevealed := newHintsRevealed |}
             else w))
             (setScreenShake true (setDroppingHeart (Some (lives s - 1)) s)))
  end.

(** The callback of the [setTimeout] started by a wrong guess at [index]. *)
Definition failureTimeout (index : nat) (s : Home) : Home :=
  setWords (imap (fun i w =>
    if bool_decide (i = index) && bool_decide (status w = failed) then
      {| word := word w; status := unsolved; userInput := userInput w;
         currentIndex := currentIndex w; hintsRevealed := hintsRevealed w |}
    else w))
    (setScreenShake false (setDroppingHeart None s)).

Definition isGameComplete (s : Home) : bool :=
  forallb (fun w => bool_decide (status w = solved)) (words s).

Definition isGameOver (s : Home) : bool := lives s <=? 0.

Definition getStarRating (s : Home) : Z :=
  if (timer s <=? 60)%nat && (lives s >=? 4) then 3
  else if (timer s <=? 120)%nat && (lives s >=? 2) then 2
  else 1.

(** The two effects that stop the timer, run after a render. *)
Definition effects (s : Home) : Home :=
  let s :=
    if isGameComplete s && (0 <? length (words s))%nat
    then setIsTimerRunning false s else s in
  if isGameOver s then setIsTimerRunning false s else s.

(** What [Home] renders. *)
Inductive screen := CompleteScreen | GameOverScreen | Board.

Definition render (s : Home) : screen :=
  if isGameComplete s && (0 <? length (words s))%nat then CompleteScreen
  else if isGameOver s then GameOverScreen
  else Board.

Definition boardShown (s : Home) : bool :=
  match render s with
  | Board => true
  | _ => false
  end.

(** The GO button of the word at [index]: drawn for a middle word,
    disabled when the word is solved or its cursor is 0. *)
Definition canSubmit (index : nat) (s : Home) : bool :=
  isMiddleWord index (length (words s)) &&
  match words s !! index with
  | Some wordData =>
      negb (bool_decide (status wordData = solved) || bool_decide (currentIndex wordData = 0%nat))
  | None => false
  end.

(** One event on the page: [None] when the page cannot receive it. The
    controls exist on the board only; the two timers are allowed to fire
    at any time they are set. *)
Definition dispatch (e : event) (s : Home) : option Home :=
  match e with
  | KeyPress key =>
      if boardShown s && bool_decide (key ∈ keyboard)
      then Some (effects (handleKeyPress key s)) else None
  | Backspace =>
      if boardShown s then Some (effects (handleBackspace s)) else None
  | SubmitWord index =>
      if boardShown s && canSubmit index s
      then Some (effects (handleSubmitWord index s)) else None
  | SelectWord index =>
      if boardShown s && (index <? length (words s))%nat
      then Some (effects (setSelectedWordIndex index s)) else None
  | Tick =>
      if isTimerRunning s then Some (effects (setTimer S s)) else None
  | FailureTimeout index => Some (effects (failureTimeout index s))
  end.

(** A session: the events received one after the other. *)
Fixpoint run (events : list event) (s : Home) : option Home :=
  match events with
  | [] => Some s
  | e :: events => s' ← dispatch e s; run events s'
  end.

Definition reachable (data_words : list string) (s : Home) : Prop :=
  exists events, run events (initialize data_words) = Some s.

(** The state of the session outside the words. *)
Definition sessionFields (s : Home) :=
  (timer s, lives s, isTimerRunning s, selectedWordIndex s,
   droppingHeart s, screenShake s, totalGuesses s).

(** Every word but the one at [index] is in [s'] as it is in [s]. *)
Definition otherWordsKept (index : nat) (s s' : Home) : Prop :=
  forall j, j <> index -> words s' !! j = words s !! j.

(** What holds of the word at [index] in a chain of [length] words all
    along a session: the cursor is not before the end of the hints; the
    input of a solved middle word reads as its solution; and a middle word
    whose solution is not empty has a hint. *)
Definition wordInvariant (length index : nat) (w : WordWithStatus) : Prop :=
  (hintsRevealed w <= currentIndex w)%nat /\
  (status w = solved -> isMiddleWord index length = true ->
   trim (join (userInput w)) = word w) /\
  (isMiddleWord index length = true -> (1 <= String.length (word w))%nat ->
   (1 <= hintsRevealed w)%nat).

Definition invariant (s : Home) : Prop :=
  0 <= lives s /\
  forall index w, words s !! index = Some w -> wordInvariant (length (words s)) index w.

End Part002.

(** *** [src/app/page.tsx]: the page with the first letter as only hint *)

Module Page.
Import Js.

Record WordWithStatus :=
  { word : string;
    status : WordStatus;
    userInput : list string;
    currentIndex : nat }.

(** The state of [Home] that the handlers read and write. *)
Record Home :=
  { words : list WordWithStatus;
    timer : nat;
    lives : Z;
    isTimerRunning : bool;
    selectedWordIndex : nat;
    droppingHeart : option Z;
    screenShake : bool;
    totalGuesses : nat }.

(** The state setters, applied to an updater. *)
Definition setWords (f : list WordWithStatus -> list WordWithStatus) (s : Home) : Home :=
  {| words := f (words s); timer := timer s; lives := lives s;
     isTimerRunning := isTimerRunning s; selectedWordIndex := selectedWordIndex s;
     droppingHeart := droppingHeart s; screenShake := screenShake s;
     totalGuesses := totalGuesses s |}.

Definition setTimer (f : nat -> nat) (s : Home) : Home :=
  {| words := words s; timer := f (timer s); lives := lives s;
     isTimerRunning := isTimerRunning s; selectedWordIndex := selectedWordIndex s;
     droppingHeart := droppingHeart s; screenShake := screenShake s;
     totalGuesses := totalGuesses s |}.

Definition setLives (f : Z -> Z) (s : Home) : Home :=
  {| words := words s; timer := timer s; lives := f (lives s);
     isTimerRunning := isTimerRunning s; selectedWordIndex := selectedWordIndex s;
     droppingHeart := droppingHeart s; screenShake := screenShake s;
     totalGuesses := totalGuesses s |}.

Definition setIsTimerRunning (b : bool) (s : Home) : Home :=
  {| words := words s; timer := timer s; lives := lives s;
     isTimerRunning := b; selectedWordIndex := selectedWordIndex s;
     droppingHeart := droppingHeart s; screenShake := screenShake s;
     totalGuesses := totalGuesses s |}.

Definition setSelectedWordIndex (i : nat) (s : Home) : Home :=
  {| words := words s; timer := timer s; lives := lives s;
     isTimerRunning := isTimerRunning s; selectedWordIndex := i;
     droppingHeart := droppingHeart s; screenShake := screenShake s;
     totalGuesses := totalGuesses s |}.

Definition setDroppingHeart (h : option Z) (s : Home) : Home :=
  {| words := words s; timer := timer s; lives := lives s;
     isTimerRunning := isTimerRunning s; selectedWordIndex := selectedWordIndex s;
     droppingHeart := h; screenShake := screenShake s;
     totalGuesses := totalGuesses s |}.

Definition setScreenShake (b : bool) (s : Home) : Home :=
  {| words := words s; timer := timer s; lives := lives s;
     isTimerRunning := isTimerRunning s; selectedWordIndex := selectedWordIndex s;
     droppingHeart := droppingHeart s; screenShake := b;
     totalGuesses := totalGuesses s |}.

Definition setTotalGuesses (f : nat -> nat) (s : Home) : Home :=
  {| words := words s; timer := timer s; lives := lives s;
     isTimerRunning := isTimerRunning s; selectedWordIndex := selectedWordIndex s;
     droppingHeart := droppingHeart s; screenShake := screenShake s;
     totalGuesses := f (totalGuesses s) |}.

(** [index > 0 && index < length - 1] *)
Definition isMiddleWord (index length : nat) : bool :=
  (0 <? Z.of_nat index) && (Z.of_nat index <? Z.of_nat length - 1).

(** The state after the word chain [data_words] was fetched. *)
Definition wordsWithStatus (data_words : list string) : list WordWithStatus :=
  imap (fun index word =>
          let middle := isMiddleWord index (length data_words) in
          let userInput := replicate 12 ""%string in
          {| word := toUpperCase word;
             status :=
               if bool_decide (index = 0%nat)
                  || (Z.of_nat index =? Z.of_nat (length data_words) - 1)
               then solved else unsolved;
             userInput :=
               if middle then arraySet userInput 0 (charAt (toUpperCase word) 0)
               else userInput;
             currentIndex := if middle then 1 else 0 |})
       data_words.

Definition initialize (data_words : list string) : Home :=
  let ws := wordsWithStatus data_words in
  {| words := ws; timer := 0; lives := 5; isTimerRunning := true;
     selectedWordIndex := 1;
     droppingHeart := None; screenShake := false; totalGuesses := 0 |}.

(** The guard [index < 1 || index >= words.length - 1] of the handlers. *)
Definition outside (index : nat) (s : Home) : bool :=
  (Z.of_nat index <? 1) || (Z.of_nat index >=? Z.of_nat (length (words s)) - 1).

Definition handleKeyPress (key : string) (s : Home) : Home :=
  if outside (selectedWordIndex s) s then s else
  match words s !! selectedWordIndex s with
  | None => s
  | Some currentWord =>
      if bool_decide (status currentWord = solved) || (12 <=? currentIndex currentWord)%nat
      then s
      else
        setWords (imap (fun index w =>
          if bool_decide (index = selectedWordIndex s) then
            {| word := word w;
               status := solving;
               userInput := arraySet (userInput w) (currentIndex w) (toUpperCase key);
               currentIndex := currentIndex w + 1 |}
          else w)) s
  end.

Definition handleBackspace (s : Home) : Home :=
  if outside (selectedWordIndex s) s then s else
  match words s !! selectedWordIndex s with
  | None => s
  | Some currentWord =>
      if bool_decide (status currentWord = solved) || (currentIndex currentWord <=? 1)%nat
      then s
      else
        setWords (imap (fun index w =>
          if bool_decide (index = selectedWordIndex s) then
            {| word := word w;
               status := status w;
               userInput := arraySet (userInput w) (currentIndex w - 1) "";
               currentIndex := currentIndex w - 1 |}
          else w)) s
  end.

Definition handleSubmitWord (index : nat) (s : Home) : Home :=
  if outside index s then s else
  match words s !! index with
  | None => s
  | Some currentWord =>
      let userWord := trim (join (userInput currentWord)) in
      let isCorrect := String.eqb userWord (word currentWord) in
      let s := setTotalGuesses (fun prev => prev + 1)%nat s in
      if isCorrect then
        let s' :=
          setWords (imap (fun i w =>
            if bool_decide (i = index) then
              {| word := word w; status := solved; userInput := userInput w;
                 currentIndex := currentIndex w |}
            else w)) s in
        if Z.of_nat index <? Z.of_nat (length (words s)) - 2
        then setSelectedWordIndex (index + 1) s' else s'
      else
        setLives (fun prev => prev - 1)
          (setWords (imap (fun i w =>
             if bool_decide (i = index) then
               {| word := word w; status := failed;
                  userInput := arraySet (replicate 12 ""%string) 0 (charAt (word w) 0);
                  currentIndex := 1 |}
             else w))
             (setScreenShake true (setDroppingHeart (Some (lives s - 1)) s)))
  end.

(** The callback of the [setTimeout] started by a wrong guess at [index]. *)
Definition failureTimeout (index : nat) (s : Home) : Home :=
  setWords (imap (fun i w =>
    if bool_decide (i = index) && bool_decide (status w = failed) then
      {| word := word w; status := unsolved; userInput := userInput w;
         currentIndex := currentIndex w |}
    else w))
    (setScreenShake false (setDroppingHeart None s)).

Definition isGameComplete (s : Home) : bool :=
  forallb (fun w => bool_decide (status w = solved)) (words s).

Definition isGameOver (s : Home) : bool := lives s <=? 0.

Definition getStarRating (s : Home) : Z :=
  if (timer s <=? 60)%nat && (lives s >=? 4) then 3
  else if (timer s <=? 120)%nat && (lives s >=? 2) then 2
  else 1.

(** The two effects that stop the timer, run after a render. *)
Definition effects (s : Home) : Home :=
  let s :=
    if isGameComplete s && (0 <? length (words s))%nat
    then setIsTimerRunning false s else s in
  if isGameOver s then setIsTimerRunning false s else s.

(** What [Home] renders. *)
Inductive screen := CompleteScreen | GameOverScreen | Board.

Definition render (s : Home) : screen :=
  if isGameComplete s && (0 <? length (words s))%nat then CompleteScreen
  else if isGameOver s then GameOverScreen
  else Board.

Definition boardShown (s : Home) : bool :=
  match render s with
  | Board => true
  | _ => false
  end.

(** The GO button of the word at [index]: drawn for a middle word,
    disabled when the word is solved or its cursor is 0. *)
Definition canSubmit (index : nat) (s : Home) : bool :=
  isMiddleWord index (length (words s)) &&
  match words s !! index with
  | Some wordData =>
      negb (bool_decide (status wordData = solved) || bool_decide (currentIndex wordData = 0%nat))
  | None => false
  end.

(** One event on the page: [None] when the page cannot receive it. The
    controls exist on the board only; the two timers are allowed to fire
    at any time they are set. *)
Definition dispatch (e : event) (s : Home) : option Home :=
  match e with
  | KeyPress key =>
      if boardShown s && bool_decide (key ∈ keyboard)
      then Some (effects (handleKeyPress key s)) else None
  | Backspace =>
      if boardShown s then Some (effects (handleBackspace s)) else None
  | SubmitWord index =>
      if boardShown s && canSubmit index s
      then Some (effects (handleSubmitWord index s)) else None
  | SelectWord index =>
      if boardShown s && (index <? length (words s))%nat
      then Some (effects (setSelectedWordIndex index s)) else None
  | Tick =>
      if isTimerRunning s then Some (effects (setTimer S s)) else None
  | FailureTimeout index => Some (effects (failureTimeout index s))
  end.

(** A session: the events received one after the other. *)
Fixpoint run (events : list event) (s : Home) : option Home :=
  match events with
  | [] => Some s
  | e :: events => s' ← dispatch e s; run events s'
  end.

Definition reachable (data_words : list string) (s : Home) : Prop :=
  exists events, run events (initialize data_words) = Some s.

(** The state of the session outside the words. *)
Definition sessionFields (s : Home) :=
  (timer s, lives s, isTimerRunning s, selectedWordIndex s,
   droppingHeart s, screenShake s, totalGuesses s).

(** Every word but the one at [index] is in [s'] as it is in [s]. *)
Definition otherWordsKept (index : nat) (s s' : Home) : Prop :=
  forall j, j <> index -> words s' !! j = words s !! j.

(** What holds of the word at [index] in a chain of [length] words all
    along a session: the cursor of a middle word is after the first cell,
    and the input of a solved middle word reads as its solution. *)
Definition wordInvariant (length index : nat) (w : WordWithStatus) : Prop :=
  (isMiddleWord index length = true -> (1 <= currentIndex w)%nat) /\
  (status w = solved -> isMiddleWord index length = true ->
   trim (join (userInput w)) = word w).

Definition invariant (s : Home) : Prop :=
  0 <= lives s /\
  forall index w, words s !! index = Some w -> wordInvariant (length (words s)) index w.

End Page.

(** ** Further parts of the server *)

(** The times of the traffic do not go back from [t]. *)
Fixpoint inOrder (t : Z) (events : list traffic) : Prop :=
  match events with
  | [] => True
  | e :: events => t <= timeOf e /\ inOrder (timeOf e) events
  end.

Definition isRequest (e : traffic) : bool :=
  match e with
  | Request _ _ => true
  | Sweep _ => false
  end.

(** The traffic with the sweeps taken out. *)
Definition withoutSweeps (events : list traffic) : list traffic :=
  List.filter isRequest events.

(** Every record counts between one request and [maxRequests]. *)
Definition countsInRange (rateLimitStore : gmap string rateLimitRecord) : Prop :=
  forall key record, rateLimitStore !! key = Some record ->
    1 <= count record <= maxRequests.

(** The time of the last of the events, or [t] when there is none. *)
Definition lastTime (t : Z) (events : list traffic) : Z :=
  foldl (fun _ e => timeOf e) t events.

(** [swept] is [whole] but for records that a sweep at time [t] removes:
    their window closed [blockDurationMs] before [t] or earlier. *)
Definition sweptOf (t : Z) (swept whole : gmap string rateLimitRecord) : Prop :=
  forall key,
    swept !! key = whole !! key \/
    swept !! key = None /\
    exists record, whole !! key = Some record /\ resetTime record + blockDurationMs <= t.

(** ** Further parts of the page *)

(** [s.padStart(targetLength, padString)] *)
Definition padStart (s : string) (targetLength : nat) (padString : string) : string :=
  let missing := (targetLength - String.length s)%nat in
  if bool_decide (padString = ""%string) then s
  else Js.str (take missing (mjoin (replicate missing (Js.chars padString)))) +:+ s.

(** [formatTime(seconds)], the same in both revisions of the page. *)
Definition formatTime (seconds : nat) : string :=
  let mins := Z.of_nat seconds / 60 in
  let secs := Z.of_nat seconds mod 60 in
  padStart (Json.numberToString mins) 2 "0" +:+ ":"
    +:+ padStart (Json.numberToString secs) 2 "0".

(** The two decimal digits of a number below 100. *)
Definition twoDigits (n : Z) : string :=
  Js.str [ascii_of_N (48 + Z.to_N (n / 10)); ascii_of_N (48 + Z.to_N (n mod 10))].

(** [s.includes(t)] *)
Fixpoint isPrefixOf (t s : list ascii) : bool :=
  match t, s with
  | [], _ => true
  | c :: t, d :: s => bool_decide (c = d) && isPrefixOf t s
  | _ :: _, [] => false
  end.

Fixpoint includesL (s t : list ascii) : bool :=
  isPrefixOf t s ||
  match s with
  | [] => false
  | _ :: s => includesL s t
  end.

Definition includes (s t : string) : bool := includesL (Js.chars s) (Js.chars t).

(** [response.ok] *)
Definition ok (response : NextResponse) : bool :=
  (200 <=? status response) && (status response <=? 299).

(** [fetchWordChain] of [unnamed/part_002], from the response of the
    endpoint on: the text given to [setError], or the state the page starts
    the session with. *)
Definition fetchWordChain (response : NextResponse) : string + Part002.Home :=
  if negb (ok response) then
    if status response =? 429 then
      inl (default "Too many requests. Please wait before trying again."%string
             (truthy match body response with
                     | Failure _ message _ => message
                     | Words _ => None
                     end))
    else inl ("HTTP error! status: " +:+ Json.numberToString (status response))
  else
    match body response with
    | Words words => inr (Part002.initialize words)
    | Failure _ _ _ => inl "Invalid response format"%string
    end.

(** [isRateLimit] of the error screen. *)
Definition isRateLimit (error : string) : bool :=
  includes error "Too many requests" || includes error "try again".

(** The number of solved words. *)
Definition solvedCount (words : list Part002.WordWithStatus) : nat :=
  length (List.filter (fun w => bool_decide (Part002.status w = solved)) words).

(** The keys that spell the solution from the cell [from] on. *)
Definition remainingKeys (solution : string) (from : nat) : list string :=
  Js.charAt solution <$> seq from (String.length solution - from).

(** Keys pressed one after the other. *)
Definition typeKeys (keys : list string) (s : Part002.Home) : Part002.Home :=
  foldl (fun s key => Part002.handleKeyPress key s) s keys.

(** What the cells of the words keep all along a session of
    [unnamed/part_002]: nine cells of at most one character each, empty
    from the cursor on, with the cursor within them; and a hint more for
    each life less. *)
Definition cellsInvariant (lives : Z) (w : Part002.WordWithStatus) : Prop :=
  length (Part002.userInput w) = 9%nat /\
  Forall (fun cell => (String.length cell <= 1)%nat) (Part002.userInput w) /\
  (Part002.currentIndex w <= 9)%nat /\
  (forall j, (Part002.currentIndex w <= j)%nat -> (j < 9)%nat ->
     Part002.userInput w !! j = Some ""%string) /\
  Z.of_nat (Part002.hintsRevealed w) + lives <= 6.

Definition sessionInvariant (initial : nat) (s : Part002.Home) : Prop :=
  0 <= Part002.lives s <= 5 /\
  Forall (cellsInvariant (Part002.lives s)) (Part002.words s) /\
  Z.of_nat (Part002.totalGuesses s) + Z.of_nat initial =
    (5 - Part002.lives s) + Z.of_nat (solvedCount (Part002.words s)).

(** The same of [src/app/page.tsx], with its twelve cells and no count
    of hints. *)
Definition pageSolvedCount (words : list Page.WordWithStatus) : nat :=
  length (List.filter (fun w => bool_decide (Page.status w = solved)) words).

Definition pageCellsInvariant (w : Page.WordWithStatus) : Prop :=
  length (Page.userInput w) = 12%nat /\
  Forall (fun cell => (String.length cell <= 1)%nat) (Page.userInput w) /\
  (Page.currentIndex w <= 12)%nat /\
  (forall j, (Page.currentIndex w <= j)%nat -> (j < 12)%nat ->
     Page.userInput w !! j = Some ""%string).

Definition pageSessionInvariant (initial : nat) (s : Page.Home) : Prop :=
  0 <= Page.lives s <= 5 /\
  Forall pageCellsInvariant (Page.words s) /\
  Z.of_nat (Page.totalGuesses s) + Z.of_nat initial =
    (5 - Page.lives s) + Z.of_nat (pageSolvedCount (Page.words s)).

(** * Properties *)

(** ** The embedding at work *)

Example parseInt_examples :
  Json.parseInt "5" None = Some 5 /\
  Json.parseInt " 7px" None = Some 7 /\
  Json.parseInt "3.9" None = Some 3 /\
  Json.parseInt "-2" None = Some (-2) /\
  Json.parseInt "0x10" None = Some 16 /\
  Json.parseInt "0x10" (Some 10) = Some 0 /\
  Json.parseInt "abc" None = None /\
  Json.parseInt "abc" (Some 10) = None.
Proof. by vm_compute. Qed.

Example matchWords_examples :
  Json.matchWords "good time, out!" = Some ["good"; "time"; "out"]%string /\
  Json.matchWords "a1 b_c 42" = None /\
  Json.matchBracket ("Here: " +:+ Json.arrayText ["a"; "b"] +:+ " done]") =
    Some (Json.arrayText ["a"; "b"] +:+ " done]") /\
  Json.parseStringArray (Json.arrayText ["a"; "b"]) =
    Some (Json.JArr [Json.JStr "a"; Json.JStr "b"]).
Proof. by vm_compute. Qed.

Example getRateLimitKey_examples :
  Route.getRateLimitKey {| x_forwarded_for := Some "10.0.0.7, 10.0.0.1"%string;
                           x_real_ip := Some "10.0.0.9"%string;
                           lengthParam := None |} = "wordchain:10.0.0.7"%string /\
  Route.getRateLimitKey {| x_forwarded_for := None; x_real_ip := Some "10.0.0.9"%string;
                           lengthParam := None |} = "wordchain:10.0.0.9"%string /\
  Route.getRateLimitKey {| x_forwarded_for := None; x_real_ip := None;
                           lengthParam := None |} = "wordchain:unknown"%string.
Proof. by vm_compute. Qed.

(** The session of the specification: the word TIME solved, then a wrong
    guess for OUT, then the second after it. *)
Example session_example :
  let s0 := Part002.initialize ["GOOD"; "TIME"; "OUT"; "SIDE"; "WALK"]%string in
  let typed := KeyPress <$> ["I"; "M"; "E"]%string in
  let wrong := KeyPress <$> ["W"; "R"; "O"; "N"; "G"]%string in
  Part002.hintsRevealed <$> Part002.words s0 = [0; 1; 1; 1; 0]%nat /\
  (exists s1, Part002.run (typed ++ [SubmitWord 1]) s0 = Some s1 /\
     Part002.status <$> Part002.words s1 = [solved; solved; unsolved; unsolved; solved] /\
     Part002.selectedWordIndex s1 = 2%nat /\ Part002.lives s1 = 5 /\
     exists s2, Part002.run (wrong ++ [SubmitWord 2]) s1 = Some s2 /\
       Part002.status <$> Part002.words s2 = [solved; solved; failed; unsolved; solved] /\
       Part002.hintsRevealed <$> Part002.words s2 = [0; 1; 2; 1; 0]%nat /\
       Part002.lives s2 = 4 /\ Part002.totalGuesses s2 = 2%nat /\
       exists s3, Part002.run [FailureTimeout 2] s2 = Some s3 /\
         Part002.status <$> Part002.words s3 =
           [solved; solved; unsolved; unsolved; solved]).
Proof.
  intros s0 typed wrong. split; [reflexivity|].
  eexists. split; [vm_compute; reflexivity|]. do 3 (split; [reflexivity|]).
  eexists. split; [vm_compute; reflexivity|]. do 4 (split; [reflexivity|]).
  eexists. split; [vm_compute; reflexivity|]. reflexivity.
Qed.

(** ** Strings *)

Section StringFacts.
Import Js.

Lemma chars_str l : chars (str l) = l.
Proof. apply list_ascii_of_string_of_list_ascii. Qed.

Lemma str_chars s : str (chars s) = s.
Proof. apply string_of_list_ascii_of_string. Qed.

Lemma upperChar_idemp c : upperChar (upperChar c) = upperChar c.
Proof. by destruct c as [[] [] [] [] [] [] [] []]. Qed.

Lemma isWhiteSpace_upperChar c : isWhiteSpace (upperChar c) = isWhiteSpace c.
Proof. by destruct c as [[] [] [] [] [] [] [] []]. Qed.

Lemma toUpperCase_idemp s : toUpperCase (toUpperCase s) = toUpperCase s.
Proof.
  unfold toUpperCase. rewrite chars_str, <- list_fmap_compose. f_equal.
  apply list_fmap_ext. intros _ c _. apply upperChar_idemp.
Qed.

Lemma trimStartL_idemp l : trimStartL (trimStartL l) = trimStartL l.
Proof.
  induction l as [|c l IH]; [done|]. simpl.
  destruct (isWhiteSpace c) eqn:E; [done|]. simpl. by rewrite E.
Qed.

Lemma trimStartL_upper l : trimStartL (upperChar <$> l) = upperChar <$> trimStartL l.
Proof.
  induction l as [|c l IH]; [done|]. simpl.
  rewrite isWhiteSpace_upperChar. by destruct (isWhiteSpace c).
Qed.

Lemma fmap_rev {A B} (f : A -> B) l : f <$> rev l = rev (f <$> l).
Proof.
  induction l as [|x l IH]; [done|]. simpl. by rewrite fmap_app, IH.
Qed.

Lemma trimEndL_upper l : trimEndL (upperChar <$> l) = upperChar <$> trimEndL l.
Proof. unfold trimEndL. by rewrite <- fmap_rev, trimStartL_upper, fmap_rev. Qed.

(** A list that ends with a character that is not white space keeps it
    when its head is trimmed. *)
Lemma trimStartL_snoc l c :
  isWhiteSpace c = false -> exists l', trimStartL (l ++ [c]) = l' ++ [c].
Proof.
  intros Hc. induction l as [|x l [l' IH]]; simpl.
  - rewrite Hc. by exists [].
  - destruct (isWhiteSpace x); [by exists l'|]. by exists (x :: l).
Qed.

Lemma trimStartL_cleanStart l : cleanStart (trimStartL l).
Proof.
  induction l as [|c l IH]; [done|]. simpl.
  by destruct (isWhiteSpace c) eqn:E.
Qed.

Lemma trimStartL_clean l : cleanStart l -> trimStartL l = l.
Proof. destruct l as [|c l]; [done|]. simpl. by intros ->. Qed.

Lemma trimEndL_cleanStart l : cleanStart l -> cleanStart (trimEndL l).
Proof.
  destruct l as [|c l]; [done|]. simpl. intros Hc. unfold trimEndL. simpl.
  destruct (trimStartL_snoc (rev l) c Hc) as [l' ->].
  by rewrite rev_app_distr.
Qed.

Lemma trimEndL_idemp l : trimEndL (trimEndL l) = trimEndL l.
Proof. unfold trimEndL. by rewrite rev_involutive, trimStartL_idemp. Qed.

Lemma trim_idemp s : trim (trim s) = trim s.
Proof.
  unfold trim. rewrite chars_str. f_equal.
  rewrite (trimStartL_clean (trimEndL _)).
  - apply trimEndL_idemp.
  - apply trimEndL_cleanStart, trimStartL_cleanStart.
Qed.

Lemma trim_toUpperCase s : trim (toUpperCase s) = toUpperCase (trim s).
Proof.
  unfold trim, toUpperCase. rewrite !chars_str. f_equal.
  by rewrite trimStartL_upper, trimEndL_upper.
Qed.

(** A word as [route.ts] cleans it is upper case and has no white space
    around it. *)
Lemma cleaned_fixed s :
  toUpperCase (toUpperCase (trim s)) = toUpperCase (trim s) /\
  trim (toUpperCase (trim s)) = toUpperCase (trim s).
Proof.
  split; [apply toUpperCase_idemp|]. by rewrite trim_toUpperCase, trim_idemp.
Qed.

End StringFacts.

(** ** The rate limiter *)

Section RateLimiter.
Implicit Types (store : gmap string rateLimitRecord) (key : string).

Lemma checkRateLimit_fresh now key store :
  fresh key now store ->
  checkRateLimit now key store =
    ({| allowed := true; remaining := 9; windowResetTime := now + windowMs |},
     <[key := {| count := 1; resetTime := now + windowMs |}]> store).
Proof.
  unfold fresh, checkRateLimit. destruct (store !! key) as [r|]; [|done].
  intros Hr. by rewrite (proj2 (Z.geb_le _ _) Hr).
Qed.

Lemma checkRateLimit_below now key store r :
  store !! key = Some r -> now < resetTime r -> count r < maxRequests ->
  checkRateLimit now key store =
    ({| allowed := true; remaining := maxRequests - (count r + 1);
        windowResetTime := resetTime r |},
     <[key := {| count := count r + 1; resetTime := resetTime r |}]> store).
Proof.
  intros Hk Hn Hc. unfold checkRateLimit. rewrite Hk.
  destruct (Z.geb_spec now (resetTime r)); [lia|].
  destruct (Z.geb_spec (count r) maxRequests); [lia|done].
Qed.

Lemma checkRateLimit_reached now key store r :
  store !! key = Some r -> now < resetTime r -> maxRequests <= count r ->
  checkRateLimit now key store =
    ({| allowed := false; remaining := 0; windowResetTime := resetTime r |}, store).
Proof.
  intros Hk Hn Hc. unfold checkRateLimit. rewrite Hk.
  destruct (Z.geb_spec now (resetTime r)); [lia|].
  destruct (Z.geb_spec (count r) maxRequests); [done|lia].
Qed.

(** A check leaves the records of the other callers alone. *)
Lemma checkRateLimit_other now key key' store :
  key <> key' -> (checkRateLimit now key store).2 !! key' = store !! key'.
Proof.
  intros Hne. unfold checkRateLimit.
  destruct (store !! key) as [r|]; simpl;
    repeat case_match; simpl; by rewrite ?lookup_insert_ne.
Qed.

(** The sweep keeps a record until [blockDurationMs] after its window. *)
Lemma cleanup_keeps now key store r :
  store !! key = Some r -> now < resetTime r + blockDurationMs ->
  cleanup now store !! key = Some r.
Proof.
  intros Hk Hn. unfold cleanup. apply map_lookup_filter_Some. split; [done|].
  simpl. destruct (Z.geb_spec now (resetTime r + blockDurationMs)); [lia|done].
Qed.

Lemma cleanup_fresh now now' key store :
  fresh key now' store -> fresh key now' (cleanup now store).
Proof.
  unfold fresh, cleanup. intros Hf.
  destruct (filter _ store !! key) as [r|] eqn:E; [|done].
  apply map_lookup_filter_Some in E as [E _]. by rewrite E in Hf.
Qed.

Lemma verdictsOf_cons key key' b log :
  verdictsOf key ((key', b) :: log) =
    if bool_decide (key' = key) then b :: verdictsOf key log else verdictsOf key log.
Proof.
  unfold verdictsOf. rewrite filter_cons. simpl.
  case_bool_decide; by rewrite decide_bool_decide; case_bool_decide.
Qed.

(** While the window that closes at [R] is open and [k] requests of
    [key] were counted in it, the [i]-th next request of [key] is allowed
    exactly when [k + i < 10]. *)
Lemma serve_open_window key R events : forall k store log store',
  store !! key = Some {| count := Z.of_nat (k `min` 10); resetTime := R |} ->
  Forall (fun e => timeOf e < R) events ->
  serve events store = (log, store') ->
  (forall i b, verdictsOf key log !! i = Some b -> b = bool_decide (k + i < 10)%nat) /\
  exists k', store' !! key = Some {| count := Z.of_nat (k' `min` 10); resetTime := R |}.
Proof.
  induction events as [|e events IH]; intros k store log store' Hk Hw Hs.
  - simpl in Hs. injection Hs as <- <-. split; [by intros i b [=]|by exists k].
  - apply Forall_cons in Hw as [He Hw]. destruct e as [key' now|now]; simpl in *.
    + destruct (checkRateLimit now key' store) as [result store1] eqn:Ec.
      destruct (serve events store1) as [log1 store2] eqn:Es.
      injection Hs as <- <-. rewrite verdictsOf_cons.
      case_bool_decide as Hkey.
      * subst key'. destruct (decide (k < 10)%nat) as [Hlt|Hge].
        -- rewrite (checkRateLimit_below _ _ _ _ Hk) in Ec by (simpl; unfold maxRequests; lia).
           injection Ec as <- <-. simpl in *.
           replace (Z.of_nat (k `min` 10) + 1) with (Z.of_nat ((k + 1) `min` 10)) in Es by lia.
           destruct (IH (k + 1)%nat _ _ _ (lookup_insert_eq _ _ _) Hw Es) as [Hv Hst].
           split; [|done]. intros [|i] b; simpl.
           ++ intros [= <-]. by rewrite bool_decide_eq_true_2 by lia.
           ++ intros Hi. rewrite (Hv _ _ Hi). apply bool_decide_ext. lia.
        -- rewrite (checkRateLimit_reached _ _ _ _ Hk) in Ec by (simpl; unfold maxRequests; lia).
           injection Ec as <- <-. simpl in *.
           replace (k `min` 10)%nat with ((k + 1) `min` 10)%nat in Hk by lia.
           destruct (IH (k + 1)%nat _ _ _ Hk Hw Es) as [Hv Hst].
           split; [|done]. intros [|i] b; simpl.
           ++ intros [= <-]. by rewrite bool_decide_eq_false_2 by lia.
           ++ intros Hi. rewrite (Hv _ _ Hi). apply bool_decide_ext. lia.
      * pose proof (checkRateLimit_other now key' key store Hkey) as Ho.
        rewrite Ec in Ho. simpl in Ho. rewrite Hk in Ho.
        exact (IH k _ _ _ Ho Hw Es).
    + apply (IH k (cleanup now store)); [|done..].
      apply cleanup_keeps; [done|]. simpl. unfold blockDurationMs. lia.
Qed.

(** Traffic in other windows of other callers never opens a window for
    [key]. *)
Lemma serve_others_fresh key now events : forall store log store',
  fresh key now store ->
  Forall (fun e => match e with Request key' _ => key' <> key | Sweep _ => True end) events ->
  serve events store = (log, store') ->
  fresh key now store' /\ verdictsOf key log = [].
Proof.
  induction events as [|e events IH]; intros store log store' Hf Ho Hs.
  - simpl in Hs. by injection Hs as <- <-.
  - apply Forall_cons in Ho as [He Ho]. destruct e as [key' t|t]; simpl in *.
    + destruct (checkRateLimit t key' store) as [result store1] eqn:Ec.
      destruct (serve events store1) as [log1 store2] eqn:Es.
      injection Hs as <- <-. rewrite verdictsOf_cons, bool_decide_eq_false_2 by done.
      apply (IH store1); [|done..]. unfold fresh.
      pose proof (checkRateLimit_other t key' key store He) as Hl.
      rewrite Ec in Hl. simpl in Hl. by rewrite Hl.
    + apply (IH (cleanup t store)); [|done..]. by apply cleanup_fresh.
Qed.

(** The quota of one window: from a store with no open window for
    [key], a request of [key] at [t0] opens the window that closes at
    [t0 + windowMs]; of the requests of [key] served in that window, among
    any other traffic, the [i]-th (from 0) is allowed exactly when
    [i < 10]; and no window is open for [key] once [t0 + windowMs] has come. *)
Lemma window_quota key t0 events store log store' :
  fresh key t0 store ->
  Forall (fun e => t0 <= timeOf e < t0 + windowMs) events ->
  serve (Request key t0 :: events) store = (log, store') ->
  (forall i b, verdictsOf key log !! i = Some b -> b = bool_decide (i < 10)%nat) /\
  (forall t1, t0 + windowMs <= t1 -> fresh key t1 store').
Proof.
  intros Hf Hw Hs. simpl in Hs. rewrite (checkRateLimit_fresh _ _ _ Hf) in Hs.
  destruct (serve events _) as [log1 store1] eqn:Es. injection Hs as <- <-.
  destruct (serve_open_window key (t0 + windowMs) events 1%nat _ _ _
              ltac:(by rewrite lookup_insert_eq)
              ltac:(eapply Forall_impl; [exact Hw|]; simpl; lia) Es) as [Hv [k' Hst]].
  split.
  - rewrite verdictsOf_cons, bool_decide_eq_true_2 by done. intros [|i] b; simpl.
    + by intros [= <-].
    + intros Hi. rewrite (Hv _ _ Hi). apply bool_decide_ext. lia.
  - intros t1 Ht1. unfold fresh. by rewrite Hst.
Qed.

End RateLimiter.

(** C1. Every check of the rate limiter does one of three things: with no
    record for the caller, or with the caller's window over, it opens a window
    with count 1 and allows the request; with a count below [maxRequests]
    (10) it counts the request and allows it; with the count at
    [maxRequests] it rejects the request and leaves the store as it is.
    Hence, of the requests of one caller in one window, mixed with any
    traffic of other callers and any sweeps, exactly the first ten are
    allowed and the eleventh and later ones are rejected; and once the
    window's [resetTime] has come, the next request opens a window in which
    ten more are allowed. *)
Theorem C1_rate_limit_window key t0 events store log store' :
  fresh key t0 store ->
  Forall (fun e => t0 <= timeOf e < t0 + windowMs) events ->
  serve (Request key t0 :: events) store = (log, store') ->
  (forall now st, fresh key now st ->
     checkRateLimit now key st =
       ({| allowed := true; remaining := maxRequests - 1;
           windowResetTime := now + windowMs |},
        <[key := {| count := 1; resetTime := now + windowMs |}]> st)) /\
  (forall now st r,
     st !! key = Some r -> now < resetTime r -> count r < maxRequests ->
     checkRateLimit now key st =
       ({| allowed := true; remaining := maxRequests - (count r + 1);
           windowResetTime := resetTime r |},
        <[key := {| count := count r + 1; resetTime := resetTime r |}]> st)) /\
  (forall now st r,
     st !! key = Some r -> now < resetTime r -> maxRequests <= count r ->
     checkRateLimit now key st =
       ({| allowed := false; remaining := 0; windowResetTime := resetTime r |}, st)) /\
  (forall i b, verdictsOf key log !! i = Some b -> b = bool_decide (i < 10)%nat) /\
  (forall t1 events1 log1 store1,
     t0 + windowMs <= t1 ->
     Forall (fun e => t1 <= timeOf e < t1 + windowMs) events1 ->
     serve (Request key t1 :: events1) store' = (log1, store1) ->
     forall i b, verdictsOf key log1 !! i = Some b -> b = bool_decide (i < 10)%nat).
Proof.
  intros Hf Hw Hs.
  destruct (window_quota _ _ _ _ _ _ Hf Hw Hs) as [Hv Hfresh].
  split; [exact (fun now st => checkRateLimit_fresh now key st)|].
  split; [exact (fun now st r => checkRateLimit_below now key st r)|].
  split; [exact (fun now st r => checkRateLimit_reached now key st r)|].
  split; [exact Hv|].
  intros t1 events1 log1 store1 Ht1 Hw1 Hs1.
  exact (proj1 (window_quota _ _ _ _ _ _ (Hfresh t1 Ht1) Hw1 Hs1)).
Qed.

(** Twelve requests of one caller in the quarter of an hour that starts at
    0, with a sweep and a request of another caller in between: the
    twelfth is rejected. *)
Lemma C1_rate_limit_window_witness :
  let key := "wordchain:10.0.0.7"%string in
  let events :=
    replicate 5 (Request key 1000) ++ [Sweep 60000; Request "wordchain:unknown" 61000]
    ++ replicate 6 (Request key 899999) in
  fresh key 0 ∅ /\
  Forall (fun e => 0 <= timeOf e < 0 + windowMs) events /\
  verdictsOf key (serve (Request key 0 :: events) ∅).1 !! 11%nat = Some false /\
  false = bool_decide (11 < 10)%nat.
Proof.
  intros key events.
  assert (Hf : fresh key 0 ∅) by exact I.
  assert (Hw : Forall (fun e => 0 <= timeOf e < 0 + windowMs) events)
    by (repeat (constructor; [vm_compute; split; congruence|]); constructor).
  assert (Hv : verdictsOf key (serve (Request key 0 :: events) ∅).1 !! 11%nat = Some false)
    by (vm_compute; reflexivity).
  split; [exact Hf|]. split; [exact Hw|]. split; [exact Hv|].
  exact (proj1 (proj2 (proj2 (proj2
           (C1_rate_limit_window key 0 events ∅ _ _ Hf Hw (surjective_pairing _)))))
           11%nat false Hv).
Defined.

(** ** The endpoint of [route.ts] *)

Section RouteFacts.
Import Js Json.
Variable JSON_parse : string -> option json.
Implicit Types (store : gmap string rateLimitRecord) (request : NextRequest).

Lemma checkRateLimit_rejected now key store :
  allowed (checkRateLimit now key store).1 = false ->
  exists r, store !! key = Some r /\ now < resetTime r /\ maxRequests <= count r /\
            checkRateLimit now key store =
              ({| allowed := false; remaining := 0; windowResetTime := resetTime r |}, store).
Proof.
  unfold checkRateLimit. destruct (store !! key) as [r|]; [|done].
  destruct (Z.geb_spec now (resetTime r)); [done|].
  destruct (Z.geb_spec (count r) maxRequests); [|done].
  intros _. exists r. repeat split; [lia..].
Qed.

Lemma ceilMinutes_spec ms :
  60000 * (Route.ceilMinutes ms - 1) < ms <= 60000 * Route.ceilMinutes ms.
Proof.
  unfold Route.ceilMinutes.
  pose proof (Z.div_mod (- ms) 60000 ltac:(lia)).
  pose proof (Z.mod_pos_bound (- ms) 60000 ltac:(lia)). lia.
Qed.

(** The answers of [route.ts] after the model was called: 200 with the
    headers, or the failure 500. *)
Lemma respondWith_cases length headers c :
  Route.respondWith JSON_parse length headers c = Route.generationFailure \/
  exists n content words cleanWords,
    length = Some n /\ c = Content (Some content) /\
    Route.parseWords JSON_parse length content = Some (JArr words) /\
    Z.of_nat (List.length words) = n /\
    mapM Route.cleanWord words = Some cleanWords /\
    Route.respondWith JSON_parse length headers c =
      {| status := 200; headers := headers; body := Words cleanWords |}.
Proof.
  unfold Route.respondWith. destruct c as [|content]; [by left|].
  destruct content as [content|]; [|by left].
  destruct (truthy (Some content)) as [content'|] eqn:Et; [|by left].
  assert (content' = content) as -> by (by destruct content; simplify_eq/=).
  destruct (Route.parseWords JSON_parse length content) as [[| | | |words|]|] eqn:Ep;
    try by left.
  case_bool_decide as Hlen; [|by left].
  destruct (mapM Route.cleanWord words) as [cleanWords|] eqn:Em; [|by left].
  right. destruct length as [n|]; [|done]. exists n, content, words, cleanWords.
  repeat split; try done. by injection Hlen.
Qed.

Lemma GET_cases request now now' store :
  let key := Route.getRateLimitKey request in
  let '(result, store') := checkRateLimit now key store in
  let hs :=
    [("X-RateLimit-Limit"%string, Text (numberToString maxRequests));
     ("X-RateLimit-Remaining"%string, Text (numberToString (remaining result)));
     ("X-RateLimit-Reset"%string, IsoDate (windowResetTime result))] in
  let length := Route.requestedLength request in
  Route.GET JSON_parse request now now' store =
    (if negb (allowed result) then
       Respond
         {| status := 429; headers := hs;
            body := Failure "Rate limit exceeded"
                      (Some ("Too many requests. Please try again in "
                             +:+ numberToString (Route.ceilMinutes (windowResetTime result - now'))
                             +:+ " minutes."))
                      (Some (Route.ceilMinutes (windowResetTime result - now'))) |}
     else if match length with Some n => (n <? 3) || (n >? 8) | None => false end then
       Respond
         {| status := 400; headers := hs;
            body := Failure "Invalid length. Must be between 3 and 8." None None |}
     else Create length (Route.respondWith JSON_parse length hs),
     store').
Proof.
  unfold Route.GET. simpl. destruct (checkRateLimit _ _ _) as [result store'].
  by repeat case_match.
Qed.

End RouteFacts.

(** C9. A request that the rate limiter rejects is answered with status
    429 and a body with the fields [error], [message] and [retryAfter];
    [retryAfter] is the time left until the [resetTime] of the caller's window,
    in minutes rounded up; and the three [X-RateLimit-] headers are on that
    answer as they are on every answer with status 200. *)
Theorem C9_rate_limited_response JSON_parse request now now' store :
  allowed (checkRateLimit now (Route.getRateLimitKey request) store).1 = false ->
  exists r message retryAfter,
    store !! Route.getRateLimitKey request = Some r /\
    Route.GET JSON_parse request now now' store =
      (Respond
         {| status := 429;
            headers := [("X-RateLimit-Limit"%string, Text "10");
                        ("X-RateLimit-Remaining"%string, Text "0");
                        ("X-RateLimit-Reset"%string, IsoDate (resetTime r))];
            body := Failure "Rate limit exceeded" (Some message) (Some retryAfter) |},
       store) /\
    60000 * (retryAfter - 1) < resetTime r - now' <= 60000 * retryAfter /\
    forall request1 now1 now1' store1 c,
      let response := answer (Route.GET JSON_parse request1 now1 now1' store1).1 c in
      status response = 200 \/ status response = 429 ->
      (headers response).*1 = Route.rateLimitHeaders.
Proof.
  intros Hrej. destruct (checkRateLimit_rejected _ _ _ Hrej) as (r & Hr & _ & _ & Ec).
  exists r. eexists _, _. split; [exact Hr|]. split; [|split].
  - pose proof (GET_cases JSON_parse request now now' store) as Hg.
    simpl in Hg. rewrite Ec in Hg. exact Hg.
  - apply ceilMinutes_spec.
  - clear. intros request now now' store c.
    pose proof (GET_cases JSON_parse request now now' store) as Hg. cbv zeta in Hg.
    destruct (checkRateLimit _ _ _) as [result store']. rewrite Hg. cbn [fst].
    destruct (allowed result); cbn [negb answer]; [|done].
    clear Hg.
    destruct (Route.requestedLength request) as [n|];
      [destruct ((n <? 3) || (n >? 8)); [intros [|]; done|]|];
      cbn [answer];
      match goal with |- context [Route.respondWith _ ?l ?hs c] =>
        destruct (respondWith_cases JSON_parse l hs c)
          as [->|(? & ? & ? & ? & _ & _ & _ & _ & _ & ->)] end;
      solve [intros [|]; done | done].
Qed.

(** The eleventh request of a caller, 40.5 seconds into a window of a
    quarter of an hour. *)
Lemma C9_rate_limited_response_witness :
  let request := {| x_forwarded_for := Some "10.0.0.7, 10.0.0.1"%string;
                    x_real_ip := None; lengthParam := Some "5"%string |} in
  let store : gmap string rateLimitRecord :=
    {[ "wordchain:10.0.0.7"%string := {| count := 10; resetTime := 900000 |} ]} in
  allowed (checkRateLimit 40000 (Route.getRateLimitKey request) store).1 = false /\
  exists message,
    (Route.GET Json.parseStringArray request 40000 40500 store).1 =
      Respond
        {| status := 429;
           headers := [("X-RateLimit-Limit"%string, Text "10");
                       ("X-RateLimit-Remaining"%string, Text "0");
                       ("X-RateLimit-Reset"%string, IsoDate 900000)];
           body := Failure "Rate limit exceeded" (Some message) (Some 15) |}.
Proof.
  intros request store.
  assert (Hrej : allowed (checkRateLimit 40000 (Route.getRateLimitKey request) store).1 = false)
    by (vm_compute; reflexivity).
  split; [exact Hrej|].
  destruct (C9_rate_limited_response Json.parseStringArray request 40000 40500 store Hrej)
    as (r & message & retryAfter & Hr & Hg & Hm & _).
  exists message. rewrite Hg. simpl.
  assert (r = {| count := 10; resetTime := 900000 |}) as ->
    by (vm_compute in Hr; congruence).
  simpl in Hm. by replace retryAfter with 15 by lia.
Defined.

(** ** The endpoint of [unnamed/part_001] *)

Section Part001Facts.
Import Js Json.
Variable JSON_parse : string -> option json.

Lemma part001_respondWith_cases length c :
  Part001.respondWith JSON_parse length c = Part001.generationFailure \/
  exists content jsonMatch words,
    c = Content (Some content) /\
    matchBracket content = Some jsonMatch /\
    JSON_parse jsonMatch = Some (JArr words) /\
    Z.of_nat (List.length words) = length /\
    forallb Part001.isWord words = true /\
    Part001.respondWith JSON_parse length c =
      {| status := 200; headers := []; body := Words (Part001.stringOf <$> words) |}.
Proof.
  unfold Part001.respondWith. destruct c as [|content]; [by left|].
  destruct content as [content|]; [|by left].
  destruct (truthy (Some content)) as [content'|] eqn:Et; [|by left].
  assert (content' = content) as -> by (by destruct content; simplify_eq/=).
  destruct (matchBracket content) as [jsonMatch|] eqn:Em; [|by left].
  destruct (JSON_parse jsonMatch) as [[| | | |words|]|] eqn:Ep; try by left.
  destruct (Z.eqb_spec (Z.of_nat (List.length words)) length) as [Hlen|]; [|by left].
  destruct (forallb Part001.isWord words) eqn:Ew; [|by left].
  right. by exists content, jsonMatch, words.
Qed.

Lemma part001_isWord_stringOf word :
  Part001.isWord word = true -> trim (Part001.stringOf word) <> ""%string.
Proof.
  destruct word as [| | |s| |]; try done. simpl.
  destruct (String.eqb_spec (trim s) ""); done.
Qed.

End Part001Facts.

(** ** Cleaned words *)

Lemma cleanWord_fixed word w :
  Route.cleanWord word = Some w -> Js.toUpperCase w = w /\ Js.trim w = w.
Proof.
  unfold Route.cleanWord. intros Hw.
  assert (exists s, w = Js.toUpperCase (Js.trim s)) as [s ->].
  { destruct word; simplify_option_eq; eauto. }
  apply cleaned_fixed.
Qed.

Lemma cleanWords_fixed words cleanWords w :
  mapM Route.cleanWord words = Some cleanWords -> w ∈ cleanWords ->
  Js.toUpperCase w = w /\ Js.trim w = w.
Proof.
  intros Hm Hw. apply mapM_Some in Hm.
  destruct (proj1 (list_elem_of_lookup _ _) Hw) as [i Hi].
  destruct (Forall2_lookup_r _ _ _ _ _ Hm Hi) as (word & _ & Hc).
  by apply (cleanWord_fixed word).
Qed.

(** C3, as the code has it. An answer with status 200 carries a body
    [{ words }] with exactly [length] words, for a [length] within the
    bounds of the revision. In [route.ts] (bounds 3 to 8) every word is
    trimmed and in upper case, and may be empty; in [unnamed/part_001]
    (bounds 2 to 20) every word is a string that is not empty once trimmed,
    returned as the model wrote it. *)
Theorem C3_successful_response JSON_parse :
  (forall request now now' store c,
     let response := answer (Route.GET JSON_parse request now now' store).1 c in
     status response = 200 ->
     exists n ws, Route.requestedLength request = Some n /\ 3 <= n <= 8 /\
       body response = Words ws /\ Z.of_nat (length ws) = n /\
       (headers response).*1 = Route.rateLimitHeaders /\
       forall w, w ∈ ws -> Js.toUpperCase w = w /\ Js.trim w = w) /\
  (forall request OPENAI_API_KEY c,
     let response := answer (Part001.GET JSON_parse request OPENAI_API_KEY) c in
     status response = 200 ->
     exists n ws, Part001.requestedLength request = Some n /\ 2 <= n <= 20 /\
       body response = Words ws /\ Z.of_nat (length ws) = n /\
       forall w, w ∈ ws -> Js.trim w <> ""%string /\ w <> ""%string).
Proof.
  split.
  - intros request now now' store c.
    pose proof (GET_cases JSON_parse request now now' store) as Hg. cbv zeta in Hg.
    destruct (checkRateLimit _ _ _) as [result store']. rewrite Hg. clear Hg. cbn [fst].
    destruct (allowed result); cbn [negb answer]; [|done].
    destruct (Route.requestedLength request) as [n|] eqn:En.
    + destruct ((n <? 3) || (n >? 8)) eqn:Eb; [done|]. cbn [answer].
      match goal with |- context [Route.respondWith _ ?l ?hs c] =>
        destruct (respondWith_cases JSON_parse l hs c)
          as [->|(n' & content & words & cleanWords & [= <-] & _ & _ & Hlen & Hm & ->)] end;
        [done|].
      simpl. intros _. exists n, cleanWords. split; [done|]. split; [lia|].
      split; [done|]. split; [|split; [done|]].
      * apply length_mapM in Hm. lia.
      * intros w. by apply cleanWords_fixed with words.
    + cbn [answer].
      match goal with |- context [Route.respondWith _ ?l ?hs c] =>
        destruct (respondWith_cases JSON_parse l hs c)
          as [->|(n' & ? & ? & ? & [=] & _)] end.
      done.
  - intros request key c. unfold Part001.GET.
    destruct (Part001.requestedLength request) as [n|]; [|done].
    destruct ((n <? 2) || (n >? 20)) eqn:Eb; [done|].
    destruct (truthy key); [|done]. cbn [answer].
    destruct (part001_respondWith_cases JSON_parse n c)
      as [->|(content & jsonMatch & words & _ & _ & _ & Hlen & Hw & ->)]; [done|].
    simpl. intros _. exists n, (Part001.stringOf <$> words).
    split; [done|]. split; [lia|]. split; [done|]. split.
    + by rewrite length_fmap.
    + intros w (word & -> & Hin)%list_elem_of_fmap.
      assert (Js.trim (Part001.stringOf word) <> ""%string) as Ht.
      { apply part001_isWord_stringOf.
        rewrite forallb_forall in Hw. by apply Hw, list_elem_of_In. }
      split; [done|]. by intros E; rewrite E in Ht.
Qed.

(** A request for three words that the model answers well. *)
Lemma C3_successful_response_witness :
  let request := {| x_forwarded_for := None; x_real_ip := Some "10.0.0.7"%string;
                    lengthParam := Some "3"%string |} in
  let c := Content (Some (Json.arrayText ["good"; " time "; "out"]%string)) in
  let response := answer (Route.GET Json.parseStringArray request 0 0 ∅).1 c in
  status response = 200 /\
  exists n ws, Route.requestedLength request = Some n /\ 3 <= n <= 8 /\
    body response = Words ws /\ Z.of_nat (length ws) = n /\
    (headers response).*1 = Route.rateLimitHeaders /\
    forall w, w ∈ ws -> Js.toUpperCase w = w /\ Js.trim w = w.
Proof.
  intros request c response.
  assert (Hs : status response = 200) by (vm_compute; reflexivity).
  split; [exact Hs|].
  exact (proj1 (C3_successful_response Json.parseStringArray) request 0 0 ∅ c Hs).
Defined.

(** C3 as stated fails in both revisions: [route.ts] lets an empty word
    through, and [unnamed/part_001] returns the words in the case the model
    wrote them. *)
Lemma C3_counterexample :
  let request := {| x_forwarded_for := None; x_real_ip := Some "10.0.0.7"%string;
                    lengthParam := Some "3"%string |} in
  (exists hs,
     answer (Route.GET Json.parseStringArray request 0 0 ∅).1
       (Content (Some (Json.arrayText ["good"; ""; "out"]%string))) =
       {| status := 200; headers := hs; body := Words ["GOOD"; ""; "OUT"]%string |}) /\
  answer (Part001.GET Json.parseStringArray request (Some "sk-test"%string))
    (Content (Some (Json.arrayText ["good"; "time"; "out"]%string))) =
    {| status := 200; headers := []; body := Words ["good"; "time"; "out"]%string |} /\
  Js.toUpperCase "good" <> "good"%string.
Proof.
  intros request. split; [eexists; vm_compute; reflexivity|].
  split; [vm_compute; reflexivity|]. vm_compute. discriminate.
Qed.

(** C4, as the code has it. In [route.ts] a request that the rate limiter
    admits and whose [length] parses to a number below 3 or above 8 is
    answered at once with status 400 and a body with an [error] field, and
    the model is not called. In [unnamed/part_001], which has no rate
    limiter, the same holds for a [length] that does not parse to a number
    or parses to one below 2 or above 20. *)
Theorem C4_invalid_length JSON_parse :
  (forall request now now' store n,
     allowed (checkRateLimit now (Route.getRateLimitKey request) store).1 = true ->
     Route.requestedLength request = Some n -> n < 3 \/ 8 < n ->
     exists response,
       (Route.GET JSON_parse request now now' store).1 = Respond response /\
       invokesGenerator (Route.GET JSON_parse request now now' store).1 = false /\
       status response = 400 /\ hasField "error" (body response) = true) /\
  (forall request OPENAI_API_KEY,
     (Part001.requestedLength request = None \/
      exists n, Part001.requestedLength request = Some n /\ (n < 2 \/ 20 < n)) ->
     exists response,
       Part001.GET JSON_parse request OPENAI_API_KEY = Respond response /\
       invokesGenerator (Part001.GET JSON_parse request OPENAI_API_KEY) = false /\
       status response = 400 /\ hasField "error" (body response) = true).
Proof.
  split.
  - intros request now now' store n Ha Hn Hb.
    pose proof (GET_cases JSON_parse request now now' store) as Hg. cbv zeta in Hg.
    destruct (checkRateLimit _ _ _) as [result store']. rewrite Hg. clear Hg.
    simpl in Ha. rewrite Ha, Hn. cbn [negb fst].
    assert ((n <? 3) || (n >? 8) = true) as -> by lia.
    eexists. by repeat split.
  - intros request key Hbad. unfold Part001.GET.
    destruct Hbad as [->|(n & -> & Hb)]; [eexists; by repeat split|].
    assert ((n <? 2) || (n >? 20) = true) as -> by lia.
    eexists. by repeat split.
Qed.

(** [length=99] from a caller with quota left, and [length=abc] sent to the
    revision without rate limiter. *)
Lemma C4_invalid_length_witness :
  let request := {| x_forwarded_for := None; x_real_ip := None;
                    lengthParam := Some "99"%string |} in
  let request' := {| x_forwarded_for := None; x_real_ip := None;
                     lengthParam := Some "abc"%string |} in
  (allowed (checkRateLimit 0 (Route.getRateLimitKey request) ∅).1 = true /\
   Route.requestedLength request = Some 99 /\
   exists response,
     (Route.GET Json.parseStringArray request 0 0 ∅).1 = Respond response /\
     invokesGenerator (Route.GET Json.parseStringArray request 0 0 ∅).1 = false /\
     status response = 400 /\ hasField "error" (body response) = true) /\
  (Part001.requestedLength request' = None /\
   exists response,
     Part001.GET Json.parseStringArray request' (Some "sk-test"%string) = Respond response /\
     invokesGenerator (Part001.GET Json.parseStringArray request' (Some "sk-test"%string)) = false /\
     status response = 400 /\ hasField "error" (body response) = true).
Proof.
  intros request request'.
  assert (Ha : allowed (checkRateLimit 0 (Route.getRateLimitKey request) ∅).1 = true)
    by (vm_compute; reflexivity).
  assert (Hn : Route.requestedLength request = Some 99) by (vm_compute; reflexivity).
  assert (Hn' : Part001.requestedLength request' = None) by (vm_compute; reflexivity).
  assert (Hb : 99 < 3 \/ 8 < 99) by (right; reflexivity).
  split.
  - split; [exact Ha|]. split; [exact Hn|].
    exact (proj1 (C4_invalid_length Json.parseStringArray) request 0 0 ∅ 99 Ha Hn Hb).
  - split; [exact Hn'|].
    exact (proj2 (C4_invalid_length Json.parseStringArray) request' _ (or_introl Hn')).
Defined.

(** C4 as stated fails in [route.ts] in two ways. A caller whose quota is
    used up gets 429 whatever the [length]; and a [length] that is not a
    number passes the two comparisons of the validation, so that the model
    is called, for [NaN] words, and the answer is 500 at best. *)
Lemma C4_counterexample :
  let key := "wordchain:unknown"%string in
  let store : gmap string rateLimitRecord :=
    {[ key := {| count := 10; resetTime := 900000 |} ]} in
  let tooLong := {| x_forwarded_for := None; x_real_ip := None;
                    lengthParam := Some "99"%string |} in
  let notANumber := {| x_forwarded_for := None; x_real_ip := None;
                       lengthParam := Some "abc"%string |} in
  Route.requestedLength tooLong = Some 99 /\
  (exists response,
     (Route.GET Json.parseStringArray tooLong 1000 1000 store).1 = Respond response /\
     status response = 429) /\
  Route.requestedLength notANumber = None /\
  invokesGenerator (Route.GET Json.parseStringArray notANumber 0 0 ∅).1 = true /\
  forall c, status (answer (Route.GET Json.parseStringArray notANumber 0 0 ∅).1 c) = 500.
Proof.
  intros key store tooLong notANumber.
  split; [vm_compute; reflexivity|].
  split; [eexists; split; vm_compute; reflexivity|].
  split; [vm_compute; reflexivity|].
  split; [vm_compute; reflexivity|].
  intros c.
  pose proof (GET_cases Json.parseStringArray notANumber 0 0 ∅) as Hg. cbv zeta in Hg.
  destruct (checkRateLimit _ _ _) as [result store'] eqn:Ec. rewrite Hg. clear Hg.
  assert (allowed result = true) as -> by (vm_compute in Ec; by injection Ec as <- _).
  assert (Route.requestedLength notANumber = None) as -> by (vm_compute; reflexivity).
  cbn [negb fst answer].
  match goal with |- context [Route.respondWith _ ?l ?hs c] =>
    destruct (respondWith_cases Json.parseStringArray l hs c)
      as [->|(n' & ? & ? & ? & [=] & _)] end.
  done.
Qed.

(** C8, as the code has it. [route.ts] reads the text of the model in two
    stages: [JSON.parse] of the whole text, whose value is taken as it
    is; and, when that throws, the bare words of the text, of which the first
    [length] are taken when there are that many. It has no stage that
    looks for an array inside the text. [unnamed/part_001] has one stage:
    the first bracketed piece of a line is given to [JSON.parse]. In both
    revisions, once the model was called, the answer is the 200 of a
    success or the generation failure 500. *)
Theorem C8_parse_stages JSON_parse :
  (forall length content v,
     JSON_parse content = Some v ->
     Route.parseWords JSON_parse length content = Some v) /\
  (forall n content tokens,
     JSON_parse content = None -> Json.matchWords content = Some tokens ->
     n <= Z.of_nat (length tokens) ->
     Route.parseWords JSON_parse (Some n) content =
       Some (Json.JArr (Json.JStr <$> take (Z.to_nat n) tokens))) /\
  (forall length content headers,
     JSON_parse content = None ->
     (Json.matchWords content = None \/ length = None \/
      exists n tokens, length = Some n /\ Json.matchWords content = Some tokens /\
                       Z.of_nat (List.length tokens) < n) ->
     Route.parseWords JSON_parse length content = None /\
     Route.respondWith JSON_parse length headers (Content (Some content)) =
       Route.generationFailure) /\
  (forall length headers c,
     let response := Route.respondWith JSON_parse length headers c in
     status response = 200 \/
     response = Route.generationFailure /\ status response = 500) /\
  (forall length c,
     let response := Part001.respondWith JSON_parse length c in
     (status response = 200 /\
      exists content jsonMatch words,
        c = Content (Some content) /\ Json.matchBracket content = Some jsonMatch /\
        JSON_parse jsonMatch = Some (Json.JArr words) /\
        body response = Words (Part001.stringOf <$> words)) \/
     response = Part001.generationFailure /\ status response = 500) /\
  (forall length content,
     Json.matchBracket content = None ->
     Part001.respondWith JSON_parse length (Content (Some content)) =
       Part001.generationFailure).
Proof.
  split; [|split; [|split; [|split; [|split]]]].
  - intros length content v Hp. unfold Route.parseWords. by rewrite Hp.
  - intros n content tokens Hp Hm Hn. unfold Route.parseWords. rewrite Hp, Hm.
    by destruct (Z.geb_spec (Z.of_nat (List.length tokens)) n); [|lia].
  - intros length content headers Hp Hbad.
    assert (Route.parseWords JSON_parse length content = None) as Hnone.
    { unfold Route.parseWords. rewrite Hp.
      destruct Hbad as [->|[->|(n & tokens & -> & -> & Hlt)]]; [done|by case_match|].
      by destruct (Z.geb_spec (Z.of_nat (List.length tokens)) n); [lia|]. }
    split; [done|]. unfold Route.respondWith. destruct content as [|a content]; [done|].
    change (truthy (Some (String a content))) with (Some (String a content)).
    cbv iota beta. by rewrite Hnone.
  - intros length hs c.
    destruct (respondWith_cases JSON_parse length hs c)
      as [E|(? & ? & ? & ? & _ & _ & _ & _ & _ & E)]; simpl; rewrite E; [by right|by left].
  - intros length c.
    destruct (part001_respondWith_cases JSON_parse length c)
      as [E|(content & jsonMatch & words & ? & ? & ? & _ & _ & E)]; simpl; rewrite E;
      [by right|left]. split; [done|]. by exists content, jsonMatch, words.
  - intros length content Hm. unfold Part001.respondWith.
    destruct content as [|a content]; [done|].
    change (truthy (Some (String a content))) with (Some (String a content)).
    cbv iota beta. by rewrite Hm.
Qed.

(** A text that is not JSON, with five bare words, asked for three. *)
Lemma C8_parse_stages_witness :
  let content := "Here you go: good time out"%string in
  Json.parseStringArray content = None /\
  Json.matchWords content = Some ["Here"; "you"; "go"; "good"; "time"; "out"]%string /\
  Route.parseWords Json.parseStringArray (Some 3) content =
    Some (Json.JArr [Json.JStr "Here"; Json.JStr "you"; Json.JStr "go"]).
Proof.
  intros content.
  assert (Hp : Json.parseStringArray content = None) by (vm_compute; reflexivity).
  assert (Hm : Json.matchWords content
               = Some ["Here"; "you"; "go"; "good"; "time"; "out"]%string)
    by (vm_compute; reflexivity).
  split; [exact Hp|]. split; [exact Hm|].
  exact (proj1 (proj2 (C8_parse_stages Json.parseStringArray)) 3 content _ Hp Hm
           ltac:(vm_compute; discriminate)).
Defined.

(** C8 as stated fails in both revisions. On a text with an array after a
    word of introduction the three stages of the specification find the
    array, while [route.ts] takes the first three bare words; and on a
    text of bare words, where the third stage of the specification
    succeeds, [unnamed/part_001] answers 500. *)
Lemma C8_counterexample :
  let text := ("Sure: " +:+ Json.arrayText ["red"; "carpet"; "ride"])%string in
  specParsePolicy Json.parseStringArray 3 text =
    Some (Json.JArr [Json.JStr "red"; Json.JStr "carpet"; Json.JStr "ride"]) /\
  Route.parseWords Json.parseStringArray (Some 3) text =
    Some (Json.JArr [Json.JStr "Sure"; Json.JStr "red"; Json.JStr "carpet"]) /\
  (forall headers,
     body (Route.respondWith Json.parseStringArray (Some 3) headers (Content (Some text))) =
       Words ["SURE"; "RED"; "CARPET"]%string) /\
  specParsePolicy Json.parseStringArray 3 "good time out" =
    Some (Json.JArr [Json.JStr "good"; Json.JStr "time"; Json.JStr "out"]) /\
  Part001.respondWith Json.parseStringArray 3 (Content (Some "good time out"%string)) =
    Part001.generationFailure.
Proof.
  intros text. repeat split; try (vm_compute; reflexivity).
Qed.

(** ** The puzzle page of [unnamed/part_002] *)

Section Part002Facts.
Import Js Part002.
Implicit Types (s : Home) (w : WordWithStatus) (i j index : nat).

(** [prev.map((word, i) => i === index ? f(word) : word)] *)
Lemma lookup_update_at {A} (f : A -> A) index (l : list A) i :
  imap (fun j x => if bool_decide (j = index) then f x else x) l !! i =
    if bool_decide (i = index) then f <$> l !! i else l !! i.
Proof.
  rewrite list_lookup_imap. case_bool_decide; [done|]. by destruct (l !! i).
Qed.

Lemma effects_words s : words (effects s) = words s.
Proof. unfold effects. by repeat case_match. Qed.

Lemma effects_lives s : lives (effects s) = lives s.
Proof. unfold effects. by repeat case_match. Qed.

Lemma effects_selectedWordIndex s : selectedWordIndex (effects s) = selectedWordIndex s.
Proof. unfold effects. by repeat case_match. Qed.

Lemma effects_totalGuesses s : totalGuesses (effects s) = totalGuesses s.
Proof. unfold effects. by repeat case_match. Qed.

(** What a key does to the words: nothing, or it writes the selected
    word, which is a middle word that is not solved and has room. *)
Lemma handleKeyPress_words key s :
  handleKeyPress key s = s \/
  exists w,
    outside (selectedWordIndex s) s = false /\
    words s !! selectedWordIndex s = Some w /\
    status w <> solved /\ (currentIndex w < 9)%nat /\
    handleKeyPress key s =
      setWords (imap (fun j w =>
        if bool_decide (j = selectedWordIndex s) then
          {| word := word w; status := solving;
             userInput := arraySet (userInput w) (currentIndex w) (toUpperCase key);
             currentIndex := currentIndex w + 1;
             hintsRevealed := hintsRevealed w |}
        else w)) s.
Proof.
  unfold handleKeyPress. destruct (outside _ s) eqn:Eo; [by left|].
  destruct (words s !! selectedWordIndex s) as [w|] eqn:Ew; [|by left].
  case_bool_decide as Hs; [by left|]. cbn [orb].
  destruct (Nat.leb_spec 9 (currentIndex w)); [by left|].
  right. by exists w.
Qed.

Lemma handleBackspace_words s :
  handleBackspace s = s \/
  exists w,
    outside (selectedWordIndex s) s = false /\
    words s !! selectedWordIndex s = Some w /\
    status w <> solved /\ (Nat.max 1 (hintsRevealed w) < currentIndex w)%nat /\
    handleBackspace s =
      setWords (imap (fun j w =>
        if bool_decide (j = selectedWordIndex s) then
          {| word := word w; status := status w;
             userInput := arraySet (userInput w) (currentIndex w - 1) "";
             currentIndex := currentIndex w - 1;
             hintsRevealed := hintsRevealed w |}
        else w)) s.
Proof.
  unfold handleBackspace. destruct (outside _ s) eqn:Eo; [by left|].
  destruct (words s !! selectedWordIndex s) as [w|] eqn:Ew; [|by left].
  case_bool_decide as Hs; [by left|]. cbn [orb].
  destruct (Nat.leb_spec (currentIndex w) (Nat.max 1 (hintsRevealed w))); [by left|].
  right. by exists w.
Qed.

(** The three outcomes of [handleSubmitWord]: nothing at a boundary
    index, the word solved on a right guess, a life lost and a hint more on
    a wrong one. *)
Lemma handleSubmitWord_cases index s :
  (outside index s = true \/ words s !! index = None) /\ handleSubmitWord index s = s \/
  exists w, outside index s = false /\ words s !! index = Some w /\
    (trim (join (userInput w)) = word w /\
     (exists s1,
       s1 = setWords (imap (fun j w =>
              if bool_decide (j = index) then
                {| word := word w; status := solved; userInput := userInput w;
                   currentIndex := currentIndex w; hintsRevealed := hintsRevealed w |}
              else w)) (setTotalGuesses (fun prev => prev + 1)%nat s) /\
       handleSubmitWord index s =
         (if Z.of_nat index <? Z.of_nat (length (words s)) - 2
          then setSelectedWordIndex (index + 1) s1 else s1))
     \/
     trim (join (userInput w)) <> word w /\
     handleSubmitWord index s =
       setLives (fun prev => prev - 1)
         (setWords (imap (fun j w =>
            if bool_decide (j = index) then
              let newHintsRevealed :=
                Nat.min (hintsRevealed w + 1) (String.length (word w)) in
              {| word := word w; status := failed;
                 userInput := hintInput (word w) newHintsRevealed;
                 currentIndex := newHintsRevealed;
                 hintsRevealed := newHintsRevealed |}
            else w))
            (setScreenShake true
               (setDroppingHeart (Some (lives s - 1))
                  (setTotalGuesses (fun prev => prev + 1)%nat s))))).
Proof.
  unfold handleSubmitWord. destruct (outside index s) eqn:Eo; [left; split; [by left|done]|].
  destruct (words s !! index) as [w|] eqn:Ew; [|left; split; [by right|done]].
  right. exists w. split; [done|]. split; [done|].
  destruct (String.eqb_spec (trim (join (userInput w))) (word w)) as [Heq|Hne].
  - left. split; [done|]. eexists. split; [reflexivity|]. done.
  - right. by split.
Qed.

End Part002Facts.

(** ** Arrays of cells *)

Section ArrayFacts.
Import Js.

Lemma append_cons c s t : String c s +:+ t = String c (s +:+ t).
Proof. reflexivity. Qed.

Lemma str_app l k : str (l ++ k) = str l +:+ str k.
Proof.
  induction l as [|c l IH]; [done|].
  change (str ((c :: l) ++ k)) with (String c (str (l ++ k))).
  change (str (c :: l)) with (String c (str l)). by rewrite append_cons, IH.
Qed.

Lemma append_empty_r s : s +:+ "" = s.
Proof. induction s as [|c s IH]; [done|]. by rewrite append_cons, IH. Qed.

Lemma append_assoc s t u : (s +:+ t) +:+ u = s +:+ t +:+ u.
Proof. induction s as [|c s IH]; [done|]. by rewrite !append_cons, IH. Qed.

Lemma join_app a b : join (a ++ b) = join a +:+ join b.
Proof.
  unfold join. induction a as [|x a IH]; [done|]. simpl.
  by rewrite IH, append_assoc.
Qed.

Lemma join_replicate_empty n : join (replicate n ""%string) = ""%string.
Proof. by induction n. Qed.

Lemma length_chars s : length (chars s) = String.length s.
Proof. induction s as [|c s IH]; [done|]. simpl. by rewrite IH. Qed.

(** Writing the cell just after a prefix [l] of the array. *)
Lemma arraySet_after (l r : list string) v :
  arraySet (l ++ r) (length l) v = l ++ v :: tail r.
Proof.
  unfold arraySet. rewrite length_app. destruct r as [|x r]; simpl.
  - rewrite decide_False by lia. replace (length l - (length l + 0))%nat with 0%nat by lia.
    simpl. by rewrite <- app_assoc.
  - rewrite decide_True by lia.
    replace (length l) with (length l + 0)%nat at 1 by lia.
    by rewrite insert_app_r.
Qed.

Lemma arraySet_lookup_eq (a : list string) i v : arraySet a i v !! i = Some v.
Proof.
  unfold arraySet. case_decide.
  - by apply list_lookup_insert_eq.
  - rewrite lookup_app_r by lia. rewrite lookup_app_r by (rewrite length_replicate; lia).
    rewrite length_replicate. by replace (i - length a - (i - length a))%nat with 0%nat by lia.
Qed.

Lemma arraySet_lookup_ne (a : list string) i j v :
  i <> j -> (j < length a)%nat -> arraySet a i v !! j = a !! j.
Proof.
  intros Hne Hj. unfold arraySet. case_decide.
  - by apply list_lookup_insert_ne.
  - by rewrite lookup_app_l.
Qed.

(** The array a wrong guess leaves is the hints followed by empty cells,
    up to the nine cells the page draws. *)
Lemma hintInput_eq solution n :
  Part002.hintInput solution n =
    (charAt solution <$> seq 0 n) ++ replicate (9 - n) ""%string.
Proof.
  unfold Part002.hintInput. induction n as [|n IH]; [done|].
  rewrite seq_S, foldl_app, IH, fmap_app. simpl.
  replace n with (length (charAt solution <$> seq 0 n)) at 3
    by (by rewrite length_fmap, length_seq).
  rewrite arraySet_after, <- app_assoc. simpl. do 2 f_equal.
  destruct (decide (n < 9)%nat).
  - by replace (9 - n)%nat with (S (8 - n)) by lia.
  - by replace (9 - n)%nat with 0%nat by lia; replace (8 - n)%nat with 0%nat by lia.
Qed.

Lemma charAt_chars solution j c :
  chars solution !! j = Some c -> charAt solution j = str [c].
Proof. unfold charAt. by intros ->. Qed.

(** The first [n] characters of the solution, one per cell. *)
Lemma join_charAt solution n :
  (n <= String.length solution)%nat ->
  join (charAt solution <$> seq 0 n) = str (take n (chars solution)).
Proof.
  induction n as [|n IH]; [done|]. intros Hn.
  destruct (lookup_lt_is_Some_2 (chars solution) n) as [c Hc];
    [rewrite length_chars; lia|].
  rewrite seq_S, fmap_app, join_app, IH by lia. simpl.
  rewrite (take_S_r _ _ _ Hc), str_app, (charAt_chars _ _ _ Hc). simpl.
  by rewrite append_empty_r.
Qed.

Lemma hintInput_join solution n :
  (n <= String.length solution)%nat ->
  join (Part002.hintInput solution n) = str (take n (chars solution)).
Proof.
  intros Hn. by rewrite hintInput_eq, join_app, join_replicate_empty,
    join_charAt, append_empty_r.
Qed.

Lemma hintInput_lookup solution n j :
  (j < n)%nat -> Part002.hintInput solution n !! j = Some (charAt solution j).
Proof.
  intros Hj. rewrite hintInput_eq, lookup_app_l by (by rewrite length_fmap, length_seq).
  by rewrite list_lookup_fmap, lookup_seq_lt.
Qed.

End ArrayFacts.

(** ** Sessions of [unnamed/part_002] *)

Section Part002Sessions.
Import Js Part002.
Implicit Types (s : Home) (w : WordWithStatus) (i j index : nat).

Lemma boardShown_lives s : boardShown s = true -> 0 < lives s.
Proof.
  unfold boardShown, render, isGameOver.
  destruct (isGameComplete s && _); [done|].
  destruct (Z.leb_spec (lives s) 0); [done|lia].
Qed.

Lemma effects_invariant s : invariant s -> invariant (effects s).
Proof. unfold invariant. by rewrite effects_words, effects_lives. Qed.

(** An update of the word at [index] alone keeps the invariant when the new
    word keeps it. *)
Lemma setWords_invariant (f : WordWithStatus -> WordWithStatus) index s :
  invariant s ->
  (forall w, words s !! index = Some w ->
     wordInvariant (length (words s)) index w ->
     wordInvariant (length (words s)) index (f w)) ->
  invariant (setWords (imap (fun j w => if bool_decide (j = index) then f w else w)) s).
Proof.
  intros [Hl Hw] Hf. split; [done|]. simpl. intros i w'.
  rewrite length_imap, lookup_update_at. case_bool_decide as Hi.
  - subst i. destruct (words s !! index) as [w|] eqn:Ew; [|done].
    intros [= <-]. apply Hf; [done|]. by apply Hw.
  - apply Hw.
Qed.

Lemma initialize_invariant data_words : invariant (initialize data_words).
Proof.
  split; [done|]. simpl. unfold wordsWithStatus. intros i w.
  rewrite length_imap, list_lookup_imap.
  destruct (data_words !! i) as [x|]; [|done]. intros [= <-].
  split; simpl; [by destruct (isMiddleWord i _)|]. split; [|by intros ->].
  unfold isMiddleWord. case_bool_decide; simpl; [lia|].
  destruct (Z.eqb_spec (Z.of_nat i) (Z.of_nat (length data_words) - 1)); [lia|done].
Qed.

Lemma handleKeyPress_invariant key s : invariant s -> invariant (handleKeyPress key s).
Proof.
  intros Hi. destruct (handleKeyPress_words key s) as [->|(w & _ & Hw & Hs & _ & ->)]; [done|].
  apply setWords_invariant; [done|]. intros w' _ (Hc & _ & Hh).
  split; simpl; [lia|]. by split.
Qed.

Lemma handleBackspace_invariant s : invariant s -> invariant (handleBackspace s).
Proof.
  intros Hi. destruct (handleBackspace_words s) as [->|(w & _ & Hw & Hs & Hc & ->)]; [done|].
  apply setWords_invariant; [done|]. intros w' Hw' (_ & _ & Hh). rewrite Hw in Hw'.
  injection Hw' as <-. split; simpl; [lia|]. by split.
Qed.

Lemma handleSubmitWord_invariant index s :
  0 < lives s -> invariant s -> invariant (handleSubmitWord index s).
Proof.
  intros Hl Hi.
  destruct (handleSubmitWord_cases index s)
    as [[_ ->]|(w & _ & Hw & [[Hok (s1 & -> & ->)]|[Hne ->]])]; [done|..].
  - assert (invariant (setWords (imap (fun j w =>
              if bool_decide (j = index) then
                {| word := word w; status := solved; userInput := userInput w;
                   currentIndex := currentIndex w; hintsRevealed := hintsRevealed w |}
              else w)) (setTotalGuesses (fun prev => prev + 1)%nat s))) as Hi'.
    { apply setWords_invariant; [done|]. simpl. intros w' Hw' (Hc & _ & Hh).
      rewrite Hw in Hw'. injection Hw' as <-. by repeat split. }
    by case_match.
  - assert (invariant (setWords (imap (fun j w =>
              if bool_decide (j = index) then
                let newHintsRevealed :=
                  Nat.min (hintsRevealed w + 1) (String.length (word w)) in
                {| word := word w; status := failed;
                   userInput := hintInput (word w) newHintsRevealed;
                   currentIndex := newHintsRevealed;
                   hintsRevealed := newHintsRevealed |}
              else w))
              (setScreenShake true
                 (setDroppingHeart (Some (lives s - 1))
                    (setTotalGuesses (fun prev => prev + 1)%nat s))))) as [_ Hi'].
    { apply setWords_invariant; [done|]. simpl. intros w' _ _.
      split; [done|]. split; [done|]. simpl. lia. }
    split; [simpl; lia|exact Hi'].
Qed.

Lemma failureTimeout_invariant index s : invariant s -> invariant (failureTimeout index s).
Proof.
  intros [Hl Hw]. split; [done|]. simpl. intros i w'.
  rewrite length_imap, list_lookup_imap.
  destruct (words s !! i) as [w|] eqn:Ew; [|done]. simpl.
  destruct (bool_decide (i = index) && bool_decide (status w = failed)).
  - intros [= <-]. destruct (Hw _ _ Ew) as (Hc & _ & Hh). by repeat split.
  - intros [= <-]. by apply Hw.
Qed.

Lemma dispatch_invariant e s s' :
  invariant s -> dispatch e s = Some s' -> invariant s'.
Proof.
  intros Hi. destruct e as [key| |index|index| |index]; simpl.
  - case_match; [|done]. intros [= <-]. by apply effects_invariant, handleKeyPress_invariant.
  - case_match; [|done]. intros [= <-]. by apply effects_invariant, handleBackspace_invariant.
  - destruct (boardShown s) eqn:Eb; [|done]. case_match; [|done]. intros [= <-].
    apply effects_invariant, handleSubmitWord_invariant; [|done].
    by apply boardShown_lives.
  - case_match; [|done]. intros [= <-]. by apply effects_invariant.
  - case_match; [|done]. intros [= <-]. by apply effects_invariant.
  - intros [= <-]. by apply effects_invariant, failureTimeout_invariant.
Qed.

Lemma run_invariant events : forall s s',
  invariant s -> run events s = Some s' -> invariant s'.
Proof.
  induction events as [|e events IH]; intros s s' Hi; simpl.
  - by intros [= <-].
  - destruct (dispatch e s) as [s1|] eqn:Ed; [|done]. simpl.
    apply IH. by apply (dispatch_invariant e s).
Qed.

Lemma reachable_invariant data_words s : reachable data_words s -> invariant s.
Proof. intros [events Hr]. exact (run_invariant _ _ _ (initialize_invariant _) Hr). Qed.

Lemma run_app events events' s :
  run (events ++ events') s = run events s ≫= run events'.
Proof.
  revert s. induction events as [|e events IH]; intros s; [done|]. simpl.
  destruct (dispatch e s); [apply IH|done].
Qed.


End Part002Sessions.

(** ** Solved words stay as they are *)

Section Part002Solved.
Import Js Part002.
Implicit Types (s : Home) (w : WordWithStatus) (i j index : nat).

(** Is the word looked at the word that was written? *)
Ltac case_index :=
  match goal with
  | |- context [bool_decide (?i = ?j :> nat)] =>
      destruct (bool_decide_reflect (i = j)) as [?Hi|?Hi]
  end.

Lemma outside_isMiddleWord index s :
  outside index s = false <-> isMiddleWord index (length (words s)) = true.
Proof. unfold outside, isMiddleWord. lia. Qed.

Lemma solved_eq w :
  status w = solved ->
  {| word := word w; status := solved; userInput := userInput w;
     currentIndex := currentIndex w; hintsRevealed := hintsRevealed w |} = w.
Proof. destruct w. simpl. by intros ->. Qed.

Lemma effects_length s : length (words (effects s)) = length (words s).
Proof. by rewrite effects_words. Qed.

(** A guess for a word that is solved, in a state that keeps the
    invariant, is a right guess that writes the word as it was. *)
Lemma handleSubmitWord_solved index s w :
  invariant s -> outside index s = false ->
  words s !! index = Some w -> status w = solved ->
  words (handleSubmitWord index s) = words s /\
  lives (handleSubmitWord index s) = lives s /\
  totalGuesses (handleSubmitWord index s) = S (totalGuesses s).
Proof.
  intros [_ Hi] Ho Hw Hs.
  assert (trim (join (userInput w)) = word w) as Hok.
  { apply (Hi _ _ Hw); [done|]. by apply outside_isMiddleWord. }
  destruct (handleSubmitWord_cases index s)
    as [[[Ho'|Hw'] _]|(w0 & _ & Hw0 & [[_ (s1 & -> & ->)]|[Hne _]])]; [congruence..| |];
    rewrite Hw in Hw0; injection Hw0 as <-; [|done].
  assert (forall s0 : Home,
    (if Z.of_nat index <? Z.of_nat (length (words s)) - 2
     then setSelectedWordIndex (index + 1) s0 else s0) =
    setSelectedWordIndex
      (if Z.of_nat index <? Z.of_nat (length (words s)) - 2
       then (index + 1)%nat else selectedWordIndex s0) s0) as ->
    by (intros [] ; by case_match).
  simpl. split; [|split; [done|lia]].
  apply list_eq. intros i. rewrite lookup_update_at. case_index; [|done].
  subst i. rewrite Hw. simpl. by rewrite solved_eq.
Qed.

(** One event leaves a solved middle word as it is. *)
Lemma dispatch_solved e s s' index w :
  invariant s -> outside index s = false ->
  words s !! index = Some w -> status w = solved ->
  dispatch e s = Some s' ->
  words s' !! index = Some w /\ outside index s' = false.
Proof.
  intros Hi Ho Hw Hs Hd.
  assert (words s' !! index = Some w /\ length (words s') = length (words s)) as [Hw' Hlen].
  { destruct e as [key| |j|j| |j]; simpl in Hd.
    - case_match; [|done]. injection Hd as <-. rewrite effects_words.
      destruct (handleKeyPress_words key s) as [->|(w0 & _ & Hw0 & Hs0 & _ & ->)]; [done|].
      simpl. rewrite length_imap, lookup_update_at. split; [|done].
      case_index; [|done]. congruence.
    - case_match; [|done]. injection Hd as <-. rewrite effects_words.
      destruct (handleBackspace_words s) as [->|(w0 & _ & Hw0 & Hs0 & _ & ->)]; [done|].
      simpl. rewrite length_imap, lookup_update_at. split; [|done].
      case_index; [|done]. congruence.
    - case_match; [|done]. injection Hd as <-. rewrite effects_words.
      destruct (handleSubmitWord_cases j s)
        as [[_ ->]|(w0 & Ho0 & Hw0 & [[_ (s1 & -> & ->)]|[Hne ->]])]; [done|..].
      + assert (forall s0 : Home,
          words (if Z.of_nat j <? Z.of_nat (length (words s)) - 2
                 then setSelectedWordIndex (j + 1) s0 else s0) = words s0) as ->
          by (intros []; by case_match).
        simpl. rewrite length_imap, lookup_update_at. split; [|done].
        case_index; [|done]. subst j. rewrite Hw. simpl. by rewrite solved_eq.
      + simpl. rewrite length_imap, lookup_update_at. split; [|done].
        case_index; [|done]. subst j. exfalso. apply Hne.
        rewrite Hw in Hw0. injection Hw0 as <-. destruct Hi as [_ Hi].
        apply (Hi _ _ Hw); [done|]. by apply outside_isMiddleWord.
    - case_match; [|done]. injection Hd as <-. by rewrite effects_words.
    - case_match; [|done]. injection Hd as <-. by rewrite effects_words.
    - injection Hd as <-. rewrite effects_words. simpl.
      rewrite length_imap, list_lookup_imap, Hw. simpl. split; [|done].
      rewrite (bool_decide_eq_false_2 (status w = failed)) by congruence.
      by rewrite andb_false_r. }
  split; [done|]. unfold outside in *. by rewrite Hlen.
Qed.

Lemma run_solved events : forall s s' index w,
  invariant s -> outside index s = false ->
  words s !! index = Some w -> status w = solved ->
  run events s = Some s' -> words s' !! index = Some w.
Proof.
  induction events as [|e events IH]; intros s s' index w Hi Ho Hw Hs; simpl.
  - by intros [= <-].
  - destruct (dispatch e s) as [s1|] eqn:Ed; [|done]. simpl.
    destruct (dispatch_solved _ _ _ _ _ Hi Ho Hw Hs Ed) as [Hw1 Ho1].
    apply (IH s1); try done. by apply (dispatch_invariant e s).
Qed.

End Part002Solved.

(** ** What the handlers leave alone *)

Section Part002Frame.
Import Js Part002.
Implicit Types (s : Home) (w : WordWithStatus) (i j index : nat).

Lemma update_fmap_kept {A B} (g : A -> B) (f : A -> A) index (l : list A) :
  (forall x, g (f x) = g x) ->
  g <$> imap (fun j x => if bool_decide (j = index) then f x else x) l = g <$> l.
Proof.
  intros Hg. apply list_eq. intros i.
  rewrite !list_lookup_fmap, lookup_update_at. case_bool_decide; [|done].
  destruct (l !! i); [|done]. simpl. by rewrite Hg.
Qed.

Lemma update_others_kept f index s :
  otherWordsKept index s
    (setWords (imap (fun j w => if bool_decide (j = index) then f w else w)) s).
Proof.
  intros j Hj. simpl. by rewrite lookup_update_at, bool_decide_eq_false_2.
Qed.

Lemma handleKeyPress_frame key s :
  let s' := handleKeyPress key s in
  sessionFields s' = sessionFields s /\
  otherWordsKept (selectedWordIndex s) s s' /\
  word <$> words s' = word <$> words s /\
  hintsRevealed <$> words s' = hintsRevealed <$> words s.
Proof.
  destruct (handleKeyPress_words key s) as [->|(w & _ & _ & _ & _ & ->)]; [done|].
  simpl. split; [done|]. split; [apply update_others_kept|].
  by rewrite !update_fmap_kept.
Qed.

Lemma handleBackspace_frame s :
  let s' := handleBackspace s in
  sessionFields s' = sessionFields s /\
  otherWordsKept (selectedWordIndex s) s s' /\
  word <$> words s' = word <$> words s /\
  hintsRevealed <$> words s' = hintsRevealed <$> words s.
Proof.
  destruct (handleBackspace_words s) as [->|(w & _ & _ & _ & _ & ->)]; [done|].
  simpl. split; [done|]. split; [apply update_others_kept|].
  by rewrite !update_fmap_kept.
Qed.

Lemma handleSubmitWord_frame index s :
  let s' := handleSubmitWord index s in
  timer s' = timer s /\ isTimerRunning s' = isTimerRunning s /\
  otherWordsKept index s s' /\
  word <$> words s' = word <$> words s.
Proof.
  destruct (handleSubmitWord_cases index s)
    as [[_ ->]|(w & _ & _ & [[_ (s1 & -> & ->)]|[_ ->]])]; [done|..].
  - assert (forall s0 : Home,
      (if Z.of_nat index <? Z.of_nat (length (words s)) - 2
       then setSelectedWordIndex (index + 1) s0 else s0) =
      setSelectedWordIndex
        (if Z.of_nat index <? Z.of_nat (length (words s)) - 2
         then (index + 1)%nat else selectedWordIndex s0) s0) as ->
      by (intros [] ; by case_match).
    simpl. split; [done|]. split; [done|].
    split; [intros j Hj; simpl; by rewrite lookup_update_at, bool_decide_eq_false_2|].
    by rewrite update_fmap_kept.
  - simpl. split; [done|]. split; [done|].
    split; [intros j Hj; simpl; by rewrite lookup_update_at, bool_decide_eq_false_2|].
    by rewrite update_fmap_kept.
Qed.

Lemma failureTimeout_solutions index s :
  word <$> words (failureTimeout index s) = word <$> words s.
Proof.
  simpl. apply list_eq. intros i. rewrite !list_lookup_fmap, list_lookup_imap.
  destruct (words s !! i) as [w|]; [|done]. simpl. by case_match.
Qed.

Lemma dispatch_solutions e s s' :
  dispatch e s = Some s' -> word <$> words s' = word <$> words s.
Proof.
  destruct e as [key| |index|index| |index]; simpl;
    [repeat case_match; try done..|]; intros [= <-]; rewrite effects_words.
  - apply handleKeyPress_frame.
  - apply handleBackspace_frame.
  - apply handleSubmitWord_frame.
  - done.
  - done.
  - apply failureTimeout_solutions.
Qed.

End Part002Frame.

(** ** The puzzle page of [src/app/page.tsx] *)

Section PageFacts.
Import Js Page.
Implicit Types (s : Home) (w : WordWithStatus) (i j index : nat).

Ltac case_index :=
  match goal with
  | |- context [bool_decide (?i = ?j :> nat)] =>
      destruct (bool_decide_reflect (i = j)) as [?Hi|?Hi]
  end.

Lemma page_effects_words s : words (effects s) = words s.
Proof. unfold effects. by repeat case_match. Qed.

Lemma page_effects_lives s : lives (effects s) = lives s.
Proof. unfold effects. by repeat case_match. Qed.

Lemma page_handleKeyPress_words key s :
  handleKeyPress key s = s \/
  exists w,
    outside (selectedWordIndex s) s = false /\
    words s !! selectedWordIndex s = Some w /\
    status w <> solved /\ (currentIndex w < 12)%nat /\
    handleKeyPress key s =
      setWords (imap (fun j w =>
        if bool_decide (j = selectedWordIndex s) then
          {| word := word w; status := solving;
             userInput := arraySet (userInput w) (currentIndex w) (toUpperCase key);
             currentIndex := currentIndex w + 1 |}
        else w)) s.
Proof.
  unfold handleKeyPress. destruct (outside _ s) eqn:Eo; [by left|].
  destruct (words s !! selectedWordIndex s) as [w|] eqn:Ew; [|by left].
  case_bool_decide as Hs; [by left|]. cbn [orb].
  destruct (Nat.leb_spec 12 (currentIndex w)); [by left|].
  right. by exists w.
Qed.

Lemma page_handleBackspace_words s :
  handleBackspace s = s \/
  exists w,
    outside (selectedWordIndex s) s = false /\
    words s !! selectedWordIndex s = Some w /\
    status w <> solved /\ (1 < currentIndex w)%nat /\
    handleBackspace s =
      setWords (imap (fun j w =>
        if bool_decide (j = selectedWordIndex s) then
          {| word := word w; status := status w;
             userInput := arraySet (userInput w) (currentIndex w - 1) "";
             currentIndex := currentIndex w - 1 |}
        else w)) s.
Proof.
  unfold handleBackspace. destruct (outside _ s) eqn:Eo; [by left|].
  destruct (words s !! selectedWordIndex s) as [w|] eqn:Ew; [|by left].
  case_bool_decide as Hs; [by left|]. cbn [orb].
  destruct (Nat.leb_spec (currentIndex w) 1); [by left|].
  right. by exists w.
Qed.

Lemma page_handleSubmitWord_cases index s :
  (outside index s = true \/ words s !! index = None) /\ handleSubmitWord index s = s \/
  exists w, outside index s = false /\ words s !! index = Some w /\
    (trim (join (userInput w)) = word w /\
     handleSubmitWord index s =
       setSelectedWordIndex
         (if Z.of_nat index <? Z.of_nat (length (words s)) - 2
          then (index + 1)%nat else selectedWordIndex s)
         (setWords (imap (fun j w =>
            if bool_decide (j = index) then
              {| word := word w; status := solved; userInput := userInput w;
                 currentIndex := currentIndex w |}
            else w)) (setTotalGuesses (fun prev => prev + 1)%nat s))
     \/
     trim (join (userInput w)) <> word w /\
     handleSubmitWord index s =
       setLives (fun prev => prev - 1)
         (setWords (imap (fun j w =>
            if bool_decide (j = index) then
              {| word := word w; status := failed;
                 userInput := arraySet (replicate 12 ""%string) 0 (charAt (word w) 0);
                 currentIndex := 1 |}
            else w))
            (setScreenShake true
               (setDroppingHeart (Some (lives s - 1))
                  (setTotalGuesses (fun prev => prev + 1)%nat s))))).
Proof.
  unfold handleSubmitWord. destruct (outside index s) eqn:Eo; [left; split; [by left|done]|].
  destruct (words s !! index) as [w|] eqn:Ew; [|left; split; [by right|done]].
  right. exists w. split; [done|]. split; [done|].
  destruct (String.eqb_spec (trim (join (userInput w))) (word w)) as [Heq|Hne].
  - left. split; [done|]. destruct s. simpl. by case_match.
  - right. by split.
Qed.

Lemma page_boardShown_lives s : boardShown s = true -> 0 < lives s.
Proof.
  unfold boardShown, render, isGameOver.
  destruct (isGameComplete s && _); [done|].
  destruct (Z.leb_spec (lives s) 0); [done|lia].
Qed.

Lemma page_outside_isMiddleWord index s :
  outside index s = false <-> isMiddleWord index (length (words s)) = true.
Proof. unfold outside, isMiddleWord. lia. Qed.

Lemma page_effects_invariant s : invariant s -> invariant (effects s).
Proof. unfold invariant. by rewrite page_effects_words, page_effects_lives. Qed.

Lemma page_setWords_invariant (f : WordWithStatus -> WordWithStatus) index s :
  invariant s ->
  (forall w, words s !! index = Some w ->
     wordInvariant (length (words s)) index w ->
     wordInvariant (length (words s)) index (f w)) ->
  invariant (setWords (imap (fun j w => if bool_decide (j = index) then f w else w)) s).
Proof.
  intros [Hl Hw] Hf. split; [done|]. simpl. intros i w'.
  rewrite length_imap, lookup_update_at. case_bool_decide as Hi.
  - subst i. destruct (words s !! index) as [w|] eqn:Ew; [|done].
    intros [= <-]. apply Hf; [done|]. by apply Hw.
  - apply Hw.
Qed.

Lemma page_initialize_invariant data_words : invariant (initialize data_words).
Proof.
  split; [done|]. simpl. unfold wordsWithStatus. intros i w.
  rewrite length_imap, list_lookup_imap.
  destruct (data_words !! i) as [x|]; [|done]. intros [= <-].
  split; simpl; [by intros ->|].
  unfold isMiddleWord. case_bool_decide; simpl; [lia|].
  destruct (Z.eqb_spec (Z.of_nat i) (Z.of_nat (length data_words) - 1)); [lia|done].
Qed.

Lemma page_handleKeyPress_invariant key s : invariant s -> invariant (handleKeyPress key s).
Proof.
  intros Hi. destruct (page_handleKeyPress_words key s) as [->|(w & _ & Hw & Hs & _ & ->)];
    [done|].
  apply page_setWords_invariant; [done|]. intros w' _ _. split; simpl; [lia|done].
Qed.

Lemma page_handleBackspace_invariant s : invariant s -> invariant (handleBackspace s).
Proof.
  intros Hi. destruct (page_handleBackspace_words s) as [->|(w & _ & Hw & Hs & Hc & ->)];
    [done|].
  apply page_setWords_invariant; [done|]. intros w' Hw' _. rewrite Hw in Hw'.
  injection Hw' as <-. split; simpl; [lia|done].
Qed.

Lemma page_handleSubmitWord_invariant index s :
  0 < lives s -> invariant s -> invariant (handleSubmitWord index s).
Proof.
  intros Hl Hi.
  destruct (page_handleSubmitWord_cases index s)
    as [[_ ->]|(w & _ & Hw & [[Hok ->]|[Hne ->]])]; [done|..].
  - assert (invariant (setWords (imap (fun j w =>
              if bool_decide (j = index) then
                {| word := word w; status := solved; userInput := userInput w;
                   currentIndex := currentIndex w |}
              else w)) (setTotalGuesses (fun prev => prev + 1)%nat s))) as Hi'.
    { apply page_setWords_invariant; [done|]. simpl. intros w' Hw' [Hc _].
      rewrite Hw in Hw'. injection Hw' as <-. by split. }
    exact Hi'.
  - assert (invariant (setWords (imap (fun j w =>
              if bool_decide (j = index) then
                {| word := word w; status := failed;
                   userInput := arraySet (replicate 12 ""%string) 0 (charAt (word w) 0);
                   currentIndex := 1 |}
              else w))
              (setScreenShake true
                 (setDroppingHeart (Some (lives s - 1))
                    (setTotalGuesses (fun prev => prev + 1)%nat s))))) as [_ Hi'].
    { apply page_setWords_invariant; [done|]. simpl. intros w' _ _. by split. }
    split; [simpl; lia|exact Hi'].
Qed.

Lemma page_failureTimeout_invariant index s :
  invariant s -> invariant (failureTimeout index s).
Proof.
  intros [Hl Hw]. split; [done|]. simpl. intros i w'.
  rewrite length_imap, list_lookup_imap.
  destruct (words s !! i) as [w|] eqn:Ew; [|done]. simpl.
  destruct (bool_decide (i = index) && bool_decide (status w = failed)).
  - intros [= <-]. destruct (Hw _ _ Ew) as [Hc _]. by split.
  - intros [= <-]. by apply Hw.
Qed.

Lemma page_dispatch_invariant e s s' :
  invariant s -> dispatch e s = Some s' -> invariant s'.
Proof.
  intros Hi. destruct e as [key| |index|index| |index]; simpl.
  - case_match; [|done]. intros [= <-].
    by apply page_effects_invariant, page_handleKeyPress_invariant.
  - case_match; [|done]. intros [= <-].
    by apply page_effects_invariant, page_handleBackspace_invariant.
  - destruct (boardShown s) eqn:Eb; [|done]. case_match; [|done]. intros [= <-].
    apply page_effects_invariant, page_handleSubmitWord_invariant; [|done].
    by apply page_boardShown_lives.
  - case_match; [|done]. intros [= <-]. by apply page_effects_invariant.
  - case_match; [|done]. intros [= <-]. by apply page_effects_invariant.
  - intros [= <-]. by apply page_effects_invariant, page_failureTimeout_invariant.
Qed.

Lemma page_run_invariant events : forall s s',
  invariant s -> run events s = Some s' -> invariant s'.
Proof.
  induction events as [|e events IH]; intros s s' Hi; simpl.
  - by intros [= <-].
  - destruct (dispatch e s) as [s1|] eqn:Ed; [|done]. simpl.
    apply IH. by apply (page_dispatch_invariant e s).
Qed.

Lemma page_reachable_invariant data_words s : reachable data_words s -> invariant s.
Proof.
  intros [events Hr]. exact (page_run_invariant _ _ _ (page_initialize_invariant _) Hr).
Qed.

Lemma page_solved_eq w :
  status w = solved ->
  {| word := word w; status := solved; userInput := userInput w;
     currentIndex := currentIndex w |} = w.
Proof. destruct w. simpl. by intros ->. Qed.

Lemma page_handleSubmitWord_solved index s w :
  invariant s -> outside index s = false ->
  words s !! index = Some w -> status w = solved ->
  words (handleSubmitWord index s) = words s /\
  lives (handleSubmitWord index s) = lives s /\
  totalGuesses (handleSubmitWord index s) = S (totalGuesses s).
Proof.
  intros [_ Hi] Ho Hw Hs.
  assert (trim (join (userInput w)) = word w) as Hok.
  { apply (Hi _ _ Hw); [done|]. by apply page_outside_isMiddleWord. }
  destruct (page_handleSubmitWord_cases index s)
    as [[[Ho'|Hw'] _]|(w0 & _ & Hw0 & [[_ ->]|[Hne _]])]; [congruence..| |];
    rewrite Hw in Hw0; injection Hw0 as <-; [|done].
  simpl. split; [|split; [done|lia]].
  apply list_eq. intros i. rewrite lookup_update_at. case_index; [|done].
  subst i. rewrite Hw. simpl. by rewrite page_solved_eq.
Qed.

Lemma page_dispatch_solved e s s' index w :
  invariant s -> outside index s = false ->
  words s !! index = Some w -> status w = solved ->
  dispatch e s = Some s' ->
  words s' !! index = Some w /\ outside index s' = false.
Proof.
  intros Hi Ho Hw Hs Hd.
  assert (words s' !! index = Some w /\ length (words s') = length (words s)) as [Hw' Hlen].
  { destruct e as [key| |j|j| |j]; simpl in Hd.
    - case_match; [|done]. injection Hd as <-. rewrite page_effects_words.
      destruct (page_handleKeyPress_words key s) as [->|(w0 & _ & Hw0 & Hs0 & _ & ->)];
        [done|].
      simpl. rewrite length_imap, lookup_update_at. split; [|done].
      case_index; [|done]. congruence.
    - case_match; [|done]. injection Hd as <-. rewrite page_effects_words.
      destruct (page_handleBackspace_words s) as [->|(w0 & _ & Hw0 & Hs0 & _ & ->)];
        [done|].
      simpl. rewrite length_imap, lookup_update_at. split; [|done].
      case_index; [|done]. congruence.
    - case_match; [|done]. injection Hd as <-. rewrite page_effects_words.
      destruct (page_handleSubmitWord_cases j s)
        as [[_ ->]|(w0 & Ho0 & Hw0 & [[_ ->]|[Hne ->]])]; [done|..].
      + simpl. rewrite length_imap, lookup_update_at. split; [|done].
        case_index; [|done]. subst j. rewrite Hw. simpl. by rewrite page_solved_eq.
      + simpl. rewrite length_imap, lookup_update_at. split; [|done].
        case_index; [|done]. subst j. exfalso. apply Hne.
        rewrite Hw in Hw0. injection Hw0 as <-. destruct Hi as [_ Hi].
        apply (Hi _ _ Hw); [done|]. by apply page_outside_isMiddleWord.
    - case_match; [|done]. injection Hd as <-. by rewrite page_effects_words.
    - case_match; [|done]. injection Hd as <-. by rewrite page_effects_words.
    - injection Hd as <-. rewrite page_effects_words. simpl.
      rewrite length_imap, list_lookup_imap, Hw. simpl. split; [|done].
      rewrite (bool_decide_eq_false_2 (status w = failed)) by congruence.
      by rewrite andb_false_r. }
  split; [done|]. unfold outside in *. by rewrite Hlen.
Qed.

Lemma page_run_solved events : forall s s' index w,
  invariant s -> outside index s = false ->
  words s !! index = Some w -> status w = solved ->
  run events s = Some s' -> words s' !! index = Some w.
Proof.
  induction events as [|e events IH]; intros s s' index w Hi Ho Hw Hs; simpl.
  - by intros [= <-].
  - destruct (dispatch e s) as [s1|] eqn:Ed; [|done]. simpl.
    destruct (page_dispatch_solved _ _ _ _ _ Hi Ho Hw Hs Ed) as [Hw1 Ho1].
    apply (IH s1); try done. by apply (page_dispatch_invariant e s).
Qed.

Lemma page_update_others_kept f index s :
  otherWordsKept index s
    (setWords (imap (fun j w => if bool_decide (j = index) then f w else w)) s).
Proof.
  intros j Hj. simpl. by rewrite lookup_update_at, bool_decide_eq_false_2.
Qed.

Lemma page_handleKeyPress_frame key s :
  let s' := handleKeyPress key s in
  sessionFields s' = sessionFields s /\
  otherWordsKept (selectedWordIndex s) s s' /\
  word <$> words s' = word <$> words s.
Proof.
  destruct (page_handleKeyPress_words key s) as [->|(w & _ & _ & _ & _ & ->)]; [done|].
  simpl. split; [done|]. split; [apply page_update_others_kept|].
  by rewrite !update_fmap_kept.
Qed.

Lemma page_handleBackspace_frame s :
  let s' := handleBackspace s in
  sessionFields s' = sessionFields s /\
  otherWordsKept (selectedWordIndex s) s s' /\
  word <$> words s' = word <$> words s.
Proof.
  destruct (page_handleBackspace_words s) as [->|(w & _ & _ & _ & _ & ->)]; [done|].
  simpl. split; [done|]. split; [apply page_update_others_kept|].
  by rewrite !update_fmap_kept.
Qed.

Lemma page_handleSubmitWord_frame index s :
  let s' := handleSubmitWord index s in
  timer s' = timer s /\ isTimerRunning s' = isTimerRunning s /\
  otherWordsKept index s s' /\
  word <$> words s' = word <$> words s.
Proof.
  destruct (page_handleSubmitWord_cases index s)
    as [[_ ->]|(w & _ & _ & [[_ ->]|[_ ->]])]; [done|..];
    (simpl; split; [done|]; split; [done|];
     split; [intros j Hj; simpl; by rewrite lookup_update_at, bool_decide_eq_false_2|];
     by rewrite update_fmap_kept).
Qed.

Lemma page_dispatch_solutions e s s' :
  dispatch e s = Some s' -> word <$> words s' = word <$> words s.
Proof.
  destruct e as [key| |index|index| |index]; simpl;
    [repeat case_match; try done..|]; intros [= <-]; rewrite page_effects_words.
  - apply page_handleKeyPress_frame.
  - apply page_handleBackspace_frame.
  - apply page_handleSubmitWord_frame.
  - done.
  - done.
  - simpl. apply list_eq. intros i. rewrite !list_lookup_fmap, list_lookup_imap.
    destruct (words s !! i) as [w|]; [|done]. simpl. by case_match.
Qed.

End PageFacts.

(** ** Wrong guesses and backspace in [src/app/page.tsx]

    This revision has no [hintsRevealed]: the first letter is the one
    hint of a word, and stays the only one. *)

Section PageHint.
Import Js Page.
Implicit Types (s : Home) (w : WordWithStatus) (i j index : nat).

(** A wrong guess takes one life and sets the word back to its first
    letter, the cursor after it. *)
Lemma page_submit_incorrect s index w :
  boardShown s = true -> outside index s = false ->
  words s !! index = Some w ->
  trim (join (userInput w)) <> word w ->
  let s' := handleSubmitWord index s in
  lives s' = lives s - 1 /\ 0 <= lives s' /\
  words s' !! index =
    Some {| word := word w; status := failed;
            userInput := charAt (word w) 0 :: replicate 11 ""%string;
            currentIndex := 1 |}.
Proof.
  intros Hb Ho Hw Hne s'. subst s'. apply page_boardShown_lives in Hb.
  destruct (page_handleSubmitWord_cases index s)
    as [[[Ho'|Hw'] _]|(w0 & _ & Hw0 & [[Hok _]|[_ ->]])]; [congruence..| |];
    rewrite Hw in Hw0; injection Hw0 as <-; [done|].
  simpl. split; [done|]. split; [lia|].
  by rewrite lookup_update_at, bool_decide_eq_true_2, Hw.
Qed.

(** Backspace does nothing at a boundary index, on a solved word and with
    the cursor just after the first letter; otherwise it moves the cursor
    one cell back, never onto the first letter, and empties that cell. *)
Lemma page_backspace s :
  let sel := selectedWordIndex s in
  (outside sel s = true -> handleBackspace s = s) /\
  (forall w, words s !! sel = Some w ->
     status w = solved \/ (currentIndex w <= 1)%nat -> handleBackspace s = s) /\
  (forall w, outside sel s = false -> words s !! sel = Some w ->
     status w <> solved -> (1 < currentIndex w)%nat ->
     let cursor := (currentIndex w - 1)%nat in
     words (handleBackspace s) !! sel =
       Some {| word := word w; status := status w;
               userInput := arraySet (userInput w) cursor "";
               currentIndex := cursor |} /\
     arraySet (userInput w) cursor "" !! cursor = Some ""%string /\
     (1 <= cursor)%nat).
Proof.
  intros sel. split; [|split].
  - intros Ho. unfold handleBackspace. fold sel. by rewrite Ho.
  - intros w Hw Hc.
    destruct (page_handleBackspace_words s) as [->|(w0 & _ & Hw0 & Hs0 & Hc0 & _)]; [done|].
    fold sel in Hw0. rewrite Hw in Hw0. injection Hw0 as <-.
    destruct Hc; [done|lia].
  - intros w Ho Hw Hs Hc cursor.
    destruct (page_handleBackspace_words s) as [E|(w0 & _ & Hw0 & _ & _ & ->)].
    + exfalso. revert E. unfold handleBackspace. fold sel. rewrite Ho, Hw.
      rewrite bool_decide_eq_false_2 by done. cbn [orb].
      destruct (Nat.leb_spec (currentIndex w) 1); [lia|].
      intros E. apply (f_equal (fun st => currentIndex <$> words st !! sel)) in E.
      simpl in E. rewrite lookup_update_at, bool_decide_eq_true_2, Hw in E by done.
      simpl in E. injection E. lia.
    + simpl. fold sel. rewrite lookup_update_at, bool_decide_eq_true_2, Hw by done.
      split; [done|]. split; [apply arraySet_lookup_eq|]. subst cursor. lia.
Qed.

End PageHint.

(** ** The claims on the puzzle page *)

(** C7. In every state a session can reach, [isGameOver] holds exactly when
    [lives] is 0: the lives never go below 0, because a guess can only be
    submitted from the board, which is not drawn once they are used up. The
    words play no part in it. This holds of both revisions of the page. *)
Theorem C7_isGameOver_iff_no_lives :
  (forall data_words s,
     Part002.reachable data_words s ->
     (Part002.isGameOver s = true <-> Part002.lives s = 0) /\
     0 <= Part002.lives s /\
     forall f, Part002.isGameOver (Part002.setWords f s) = Part002.isGameOver s) /\
  (forall data_words s,
     Page.reachable data_words s ->
     (Page.isGameOver s = true <-> Page.lives s = 0) /\
     0 <= Page.lives s /\
     forall f, Page.isGameOver (Page.setWords f s) = Page.isGameOver s).
Proof.
  split.
  - intros data_words s [Hl _]%reachable_invariant. unfold Part002.isGameOver.
    split; [|done]. destruct (Z.leb_spec (Part002.lives s) 0); split; (done || lia).
  - intros data_words s [Hl _]%page_reachable_invariant. unfold Page.isGameOver.
    split; [|done]. destruct (Z.leb_spec (Page.lives s) 0); split; (done || lia).
Qed.

(** Five wrong guesses in a row, with every other word still unsolved. *)
Lemma C7_isGameOver_iff_no_lives_witness :
  let data_words := ["GOOD"; "TIME"; "OUT"; "SIDE"; "WALK"]%string in
  let events := mjoin (replicate 5 [KeyPress "X"; SubmitWord 1]) in
  exists s, Part002.run events (Part002.initialize data_words) = Some s /\
    Part002.lives s = 0 /\ Part002.isGameOver s = true /\
    (Part002.isGameOver s = true <-> Part002.lives s = 0).
Proof.
  intros data_words events.
  destruct (Part002.run events (Part002.initialize data_words)) as [s|] eqn:Hr;
    [|vm_compute in Hr; discriminate].
  exists s. split; [reflexivity|].
  assert (Hreach : Part002.reachable data_words s) by (by exists events).
  vm_compute in Hr. injection Hr as <-.
  split; [reflexivity|]. split; [reflexivity|].
  exact (proj1 (proj1 C7_isGameOver_iff_no_lives data_words _ Hreach)).
Defined.

(** C2, as the code has it. A wrong guess for a middle word takes exactly
    one life. Neither handler has a floor: the lives stay at 0 or more
    because a guess is taken on the board only, which is drawn while a life
    is left. In [unnamed/part_002] the hints of the word grow by one, up to
    the length of the solution, and straight after the cursor of the word
    is at the end of the hints and its input is the hints: the first
    [hintsRevealed] characters of the solution, one per cell, and nothing
    else. In [src/app/page.tsx] there is no count of hints: the input goes
    back to the first character of the solution alone, with the cursor
    after it, however many wrong guesses came before. *)
Theorem C2_submit_incorrect :
  (forall s index w,
     Part002.outside index s = false ->
     Part002.words s !! index = Some w ->
     Js.trim (Js.join (Part002.userInput w)) <> Part002.word w ->
     let s' := Part002.handleSubmitWord index s in
     Part002.lives s' = Part002.lives s - 1 /\
     (Part002.boardShown s = true -> 0 <= Part002.lives s') /\
     exists w',
       Part002.words s' !! index = Some w' /\
       Part002.hintsRevealed w' =
         Nat.min (Part002.hintsRevealed w + 1) (String.length (Part002.word w)) /\
       Part002.currentIndex w' = Part002.hintsRevealed w' /\
       (forall j, (j < Part002.hintsRevealed w')%nat ->
          Part002.userInput w' !! j = Some (Js.charAt (Part002.word w) j)) /\
       Js.join (Part002.userInput w') =
         Js.str (take (Part002.hintsRevealed w') (Js.chars (Part002.word w))) /\
       Part002.word w' = Part002.word w /\ Part002.status w' = failed) /\
  (forall s index s',
     Part002.dispatch (SubmitWord index) s = Some s' ->
     Part002.lives s - 1 <= Part002.lives s' /\ 0 <= Part002.lives s') /\
  (forall s index w,
     Page.outside index s = false ->
     Page.words s !! index = Some w ->
     Js.trim (Js.join (Page.userInput w)) <> Page.word w ->
     let s' := Page.handleSubmitWord index s in
     Page.lives s' = Page.lives s - 1 /\
     (Page.boardShown s = true -> 0 <= Page.lives s') /\
     Page.words s' !! index =
       Some {| Page.word := Page.word w; Page.status := failed;
               Page.userInput := Js.charAt (Page.word w) 0 :: replicate 11 ""%string;
               Page.currentIndex := 1 |}) /\
  (forall s index s',
     Page.dispatch (SubmitWord index) s = Some s' ->
     Page.lives s - 1 <= Page.lives s' /\ 0 <= Page.lives s').
Proof.
  split; [|split; [|split]].
  - intros s index w Ho Hw Hne s'. subst s'.
    destruct (handleSubmitWord_cases index s)
      as [[[Ho'|Hw'] _]|(w0 & _ & Hw0 & [[Hok _]|[_ ->]])]; [congruence..| |];
      rewrite Hw in Hw0; injection Hw0 as <-; [done|].
    simpl. split; [done|]. split; [intros Hb%boardShown_lives; lia|].
    eexists. rewrite lookup_update_at, bool_decide_eq_true_2, Hw by done.
    split; [reflexivity|]. simpl. split; [done|]. split; [done|].
    split; [|split; [|done]].
    + intros j Hj. by apply hintInput_lookup.
    + apply hintInput_join. lia.
  - intros s index s'. simpl.
    destruct (Part002.boardShown s) eqn:Hb; [|done].
    destruct (Part002.canSubmit index s); [|done]. intros [= <-].
    apply boardShown_lives in Hb. rewrite effects_lives.
    destruct (handleSubmitWord_cases index s)
      as [[_ ->]|(w & _ & _ & [[_ (s1 & -> & ->)]|[_ ->]])].
    + lia.
    + destruct (_ <? _); simpl; lia.
    + simpl. lia.
  - intros s index w Ho Hw Hne s'. subst s'.
    destruct (page_handleSubmitWord_cases index s)
      as [[[Ho'|Hw'] _]|(w0 & _ & Hw0 & [[Hok _]|[_ ->]])]; [congruence..| |];
      rewrite Hw in Hw0; injection Hw0 as <-; [done|].
    simpl. split; [done|]. split; [intros Hb%page_boardShown_lives; lia|].
    by rewrite lookup_update_at, bool_decide_eq_true_2, Hw.
  - intros s index s'. simpl.
    destruct (Page.boardShown s) eqn:Hb; [|done].
    destruct (Page.canSubmit index s); [|done]. intros [= <-].
    apply page_boardShown_lives in Hb. rewrite page_effects_lives.
    destruct (page_handleSubmitWord_cases index s)
      as [[_ ->]|(w & _ & _ & [[_ ->]|[_ ->]])]; simpl; lia.
Qed.

(** The first guess of a session, sent before anything is typed, in the
    two revisions. *)
Lemma C2_submit_incorrect_witness :
  let data_words := ["GOOD"; "TIME"; "OUT"; "SIDE"; "WALK"]%string in
  let s := Part002.initialize data_words in
  let w := {| Part002.word := "TIME"; Part002.status := unsolved;
              Part002.userInput := "T"%string :: replicate 8 ""%string;
              Part002.currentIndex := 1; Part002.hintsRevealed := 1 |} in
  let s' := Part002.handleSubmitWord 1 s in
  let p := Page.initialize data_words in
  let v := {| Page.word := "TIME"; Page.status := unsolved;
              Page.userInput := "T"%string :: replicate 11 ""%string;
              Page.currentIndex := 1 |} in
  let p' := Page.handleSubmitWord 1 p in
  (Part002.outside 1 s = false /\ Part002.words s !! 1%nat = Some w /\
   Js.trim (Js.join (Part002.userInput w)) <> Part002.word w /\
   Part002.lives s' = 5 - 1 /\
   exists w', Part002.words s' !! 1%nat = Some w' /\
     Part002.hintsRevealed w' = 2%nat /\ Part002.currentIndex w' = 2%nat /\
     Js.join (Part002.userInput w') = "TI"%string) /\
  (Page.outside 1 p = false /\ Page.words p !! 1%nat = Some v /\
   Js.trim (Js.join (Page.userInput v)) <> Page.word v /\
   Page.lives p' = 5 - 1 /\
   Page.words p' !! 1%nat =
     Some {| Page.word := "TIME"; Page.status := failed;
             Page.userInput := "T"%string :: replicate 11 ""%string;
             Page.currentIndex := 1 |}).
Proof.
  intros data_words s w s' p v p'.
  assert (Ho : Part002.outside 1 s = false) by reflexivity.
  assert (Hw : Part002.words s !! 1%nat = Some w) by reflexivity.
  assert (Hne : Js.trim (Js.join (Part002.userInput w)) <> Part002.word w)
    by (vm_compute; discriminate).
  assert (Ho' : Page.outside 1 p = false) by reflexivity.
  assert (Hv : Page.words p !! 1%nat = Some v) by reflexivity.
  assert (Hne' : Js.trim (Js.join (Page.userInput v)) <> Page.word v)
    by (vm_compute; discriminate).
  destruct C2_submit_incorrect as (Hpart & _ & Hpage & _).
  split.
  - repeat (split; [assumption|]).
    destruct (Hpart s 1%nat w Ho Hw Hne) as (Hl & _ & w' & Hw' & Hh & Hc & _ & Hj & _).
    split; [exact Hl|]. exists w'. split; [exact Hw'|].
    split; [exact Hh|]. split; [by rewrite Hc, Hh|]. by rewrite Hj, Hh.
  - repeat (split; [assumption|]).
    destruct (Hpage p 1%nat v Ho' Hv Hne') as (Hl & _ & Hv').
    split; [exact Hl|exact Hv'].
Defined.

(** C2 as stated fails on [src/app/page.tsx]: after a first wrong guess
    for TIME the cursor is 1 and the input is T, and after a second one
    they are the same again, where the claim has one hint more, up to the
    length of the word. The same guesses in [unnamed/part_002] leave three
    hints. And the handlers take the life without a floor: called with no
    life left, which the page does not allow, they leave -1. *)
Lemma C2_counterexample :
  let data_words := ["GOOD"; "TIME"; "OUT"; "SIDE"; "WALK"]%string in
  let guess := [KeyPress "X"; SubmitWord 1]%string in
  (exists s1 s2 w1 w2,
     Page.run guess (Page.initialize data_words) = Some s1 /\
     Page.words s1 !! 1%nat = Some w1 /\
     Page.status w1 = failed /\ Page.currentIndex w1 = 1%nat /\
     Js.join (Page.userInput w1) = "T"%string /\
     Page.run guess s1 = Some s2 /\ Page.lives s2 = 3 /\
     Page.words s2 !! 1%nat = Some w2 /\
     Page.status w2 = failed /\ Page.currentIndex w2 = 1%nat /\
     Js.join (Page.userInput w2) = "T"%string /\
     Page.currentIndex w2 <>
       Nat.min (Page.currentIndex w1 + 1) (String.length (Page.word w2))) /\
  (exists s2 w2,
     Part002.run (guess ++ guess) (Part002.initialize data_words) = Some s2 /\
     Part002.words s2 !! 1%nat = Some w2 /\
     Part002.hintsRevealed w2 = 3%nat /\ Js.join (Part002.userInput w2) = "TIM"%string) /\
  Part002.lives
    (Part002.handleSubmitWord 1
       (Part002.setLives (fun _ => 0) (Part002.initialize data_words))) = -1 /\
  Page.lives
    (Page.handleSubmitWord 1
       (Page.setLives (fun _ => 0) (Page.initialize data_words))) = -1.
Proof.
  intros data_words guess. split; [|split; [|split]].
  - eexists _, _, _, _. split; [vm_compute; reflexivity|].
    by repeat (split; [vm_compute; reflexivity|]).
  - eexists _, _. split; [vm_compute; reflexivity|].
    by repeat (split; [vm_compute; reflexivity|]).
  - by vm_compute.
  - by vm_compute.
Qed.

(** The handler itself takes the life without looking at it: the floor of
    the lives is the work of the page, which stops drawing the board, and
    with it the buttons, once no life is left. *)
Remark handleSubmitWord_unguarded :
  let s := Part002.setLives (fun _ => 0)
             (Part002.initialize ["GOOD"; "TIME"; "OUT"; "SIDE"; "WALK"]%string) in
  Part002.render s = Part002.GameOverScreen /\
  Part002.dispatch (SubmitWord 1) s = None /\
  Part002.lives (Part002.handleSubmitWord 1 s) = -1.
Proof. by vm_compute. Qed.

(** C5. A right guess for a middle word takes no life: it counts one guess
    and marks the word solved, the rest of the word as it was. From then on
    the word stays solved whatever happens in the session, so that it is
    solved once; and a guess sent for a word that is solved changes no word
    and no life, and counts as one guess more. This holds of both revisions
    of the page. *)
Theorem C5_submit_correct :
  (forall data_words s index w,
     Part002.reachable data_words s ->
     Part002.outside index s = false ->
     Part002.words s !! index = Some w ->
     (Js.trim (Js.join (Part002.userInput w)) = Part002.word w ->
      let s' := Part002.handleSubmitWord index s in
      Part002.lives s' = Part002.lives s /\
      Part002.totalGuesses s' = S (Part002.totalGuesses s) /\
      Part002.words s' !! index =
        Some {| Part002.word := Part002.word w; Part002.status := solved;
                Part002.userInput := Part002.userInput w;
                Part002.currentIndex := Part002.currentIndex w;
                Part002.hintsRevealed := Part002.hintsRevealed w |}) /\
     (Part002.status w = solved ->
      let s' := Part002.handleSubmitWord index s in
      Part002.words s' = Part002.words s /\
      Part002.lives s' = Part002.lives s /\
      Part002.totalGuesses s' = S (Part002.totalGuesses s)) /\
     (Part002.status w = solved ->
      forall events s', Part002.run events s = Some s' ->
        Part002.words s' !! index = Some w)) /\
  (forall data_words s index w,
     Page.reachable data_words s ->
     Page.outside index s = false ->
     Page.words s !! index = Some w ->
     (Js.trim (Js.join (Page.userInput w)) = Page.word w ->
      let s' := Page.handleSubmitWord index s in
      Page.lives s' = Page.lives s /\
      Page.totalGuesses s' = S (Page.totalGuesses s) /\
      Page.words s' !! index =
        Some {| Page.word := Page.word w; Page.status := solved;
                Page.userInput := Page.userInput w;
                Page.currentIndex := Page.currentIndex w |}) /\
     (Page.status w = solved ->
      let s' := Page.handleSubmitWord index s in
      Page.words s' = Page.words s /\
      Page.lives s' = Page.lives s /\
      Page.totalGuesses s' = S (Page.totalGuesses s)) /\
     (Page.status w = solved ->
      forall events s', Page.run events s = Some s' ->
        Page.words s' !! index = Some w)).
Proof.
  split.
  - intros data_words s index w Hr%reachable_invariant Ho Hw. split; [|split].
    + intros Hok.
      destruct (handleSubmitWord_cases index s)
        as [[[Ho'|Hw'] _]|(w0 & _ & Hw0 & [[_ (s1 & -> & ->)]|[Hne _]])]; [congruence..| |];
        rewrite Hw in Hw0; injection Hw0 as <-; [|done].
      assert (forall s0 : Part002.Home,
        (if Z.of_nat index <? Z.of_nat (length (Part002.words s)) - 2
         then Part002.setSelectedWordIndex (index + 1) s0 else s0) =
        Part002.setSelectedWordIndex
          (if Z.of_nat index <? Z.of_nat (length (Part002.words s)) - 2
           then (index + 1)%nat else Part002.selectedWordIndex s0) s0) as ->
        by (intros [] ; by case_match).
      simpl. split; [done|]. split; [lia|].
      by rewrite lookup_update_at, bool_decide_eq_true_2, Hw.
    + intros Hs. by apply handleSubmitWord_solved with w.
    + intros Hs events s'. by apply run_solved.
  - intros data_words s index w Hr%page_reachable_invariant Ho Hw. split; [|split].
    + intros Hok.
      destruct (page_handleSubmitWord_cases index s)
        as [[[Ho'|Hw'] _]|(w0 & _ & Hw0 & [[_ ->]|[Hne _]])]; [congruence..| |];
        rewrite Hw in Hw0; injection Hw0 as <-; [|done].
      simpl. split; [done|]. split; [lia|].
      by rewrite lookup_update_at, bool_decide_eq_true_2, Hw.
    + intros Hs. by apply page_handleSubmitWord_solved with w.
    + intros Hs events s'. by apply page_run_solved.
Qed.

(** The word TIME typed and sent. *)
Lemma C5_submit_correct_witness :
  let data_words := ["GOOD"; "TIME"; "OUT"; "SIDE"; "WALK"]%string in
  let events := [KeyPress "I"; KeyPress "M"; KeyPress "E"]%string in
  exists s w,
    Part002.run events (Part002.initialize data_words) = Some s /\
    Part002.outside 1 s = false /\ Part002.words s !! 1%nat = Some w /\
    Js.trim (Js.join (Part002.userInput w)) = Part002.word w /\
    Part002.lives (Part002.handleSubmitWord 1 s) = 5 /\
    Part002.totalGuesses (Part002.handleSubmitWord 1 s) = 1%nat /\
    Part002.status <$> Part002.words (Part002.handleSubmitWord 1 s) !! 1%nat = Some solved.
Proof.
  intros data_words events.
  destruct (Part002.run events (Part002.initialize data_words)) as [s|] eqn:Hr;
    [|vm_compute in Hr; discriminate].
  assert (Hreach : Part002.reachable data_words s) by (by exists events).
  vm_compute in Hr. injection Hr as <-.
  match type of Hreach with Part002.reachable _ ?st => set (s0 := st) in * end.
  exists s0. eexists. split; [vm_compute; reflexivity|].
  assert (Ho : Part002.outside 1 s0 = false) by reflexivity.
  split; [exact Ho|]. split; [reflexivity|].
  match goal with |- ?P /\ _ => assert (Hok : P) by (vm_compute; reflexivity) end.
  split; [exact Hok|].
  destruct (proj1 (proj1 C5_submit_correct data_words _ 1%nat _ Hreach Ho eq_refl) Hok)
    as (Hl & Hg & Hw).
  split; [exact Hl|]. split; [exact Hg|]. by rewrite Hw.
Defined.




(** C10. A key and a backspace write the selected word only, and of it
    neither the solution nor the hints: every other word and everything
    else in the session is as before. A guess writes the word it is sent
    for only; outside the words it may change the lives, the count of
    guesses and the selected index, besides the two flags that shake the
    screen and drop a heart, and leaves the timer alone. No event of a
    session changes the solution of a word. This holds of both revisions
    of the page. *)
Theorem C10_frame :
  (forall s,
     (forall key,
        let s' := Part002.handleKeyPress key s in
        Part002.sessionFields s' = Part002.sessionFields s /\
        Part002.otherWordsKept (Part002.selectedWordIndex s) s s' /\
        Part002.word <$> Part002.words s' = Part002.word <$> Part002.words s /\
        Part002.hintsRevealed <$> Part002.words s' =
          Part002.hintsRevealed <$> Part002.words s) /\
     (let s' := Part002.handleBackspace s in
      Part002.sessionFields s' = Part002.sessionFields s /\
      Part002.otherWordsKept (Part002.selectedWordIndex s) s s' /\
      Part002.word <$> Part002.words s' = Part002.word <$> Part002.words s /\
      Part002.hintsRevealed <$> Part002.words s' =
        Part002.hintsRevealed <$> Part002.words s) /\
     (forall index,
        let s' := Part002.handleSubmitWord index s in
        Part002.timer s' = Part002.timer s /\
        Part002.isTimerRunning s' = Part002.isTimerRunning s /\
        Part002.otherWordsKept index s s' /\
        Part002.word <$> Part002.words s' = Part002.word <$> Part002.words s) /\
     (forall e s', Part002.dispatch e s = Some s' ->
        Part002.word <$> Part002.words s' = Part002.word <$> Part002.words s)) /\
  (forall s,
     (forall key,
        let s' := Page.handleKeyPress key s in
        Page.sessionFields s' = Page.sessionFields s /\
        Page.otherWordsKept (Page.selectedWordIndex s) s s' /\
        Page.word <$> Page.words s' = Page.word <$> Page.words s) /\
     (let s' := Page.handleBackspace s in
      Page.sessionFields s' = Page.sessionFields s /\
      Page.otherWordsKept (Page.selectedWordIndex s) s s' /\
      Page.word <$> Page.words s' = Page.word <$> Page.words s) /\
     (forall index,
        let s' := Page.handleSubmitWord index s in
        Page.timer s' = Page.timer s /\
        Page.isTimerRunning s' = Page.isTimerRunning s /\
        Page.otherWordsKept index s s' /\
        Page.word <$> Page.words s' = Page.word <$> Page.words s) /\
     (forall e s', Page.dispatch e s = Some s' ->
        Page.word <$> Page.words s' = Page.word <$> Page.words s)).
Proof.
  split; intros s.
  - split; [exact (fun key => handleKeyPress_frame key s)|].
    split; [exact (handleBackspace_frame s)|].
    split; [exact (fun index => handleSubmitWord_frame index s)|].
    exact (fun e s' => dispatch_solutions e s s').
  - split; [exact (fun key => page_handleKeyPress_frame key s)|].
    split; [exact (page_handleBackspace_frame s)|].
    split; [exact (fun index => page_handleSubmitWord_frame index s)|].
    exact (fun e s' => page_dispatch_solutions e s s').
Qed.

(** A wrong guess for OUT while TIME is being typed: the word TIME is as it
    was. *)
Lemma C10_frame_witness :
  let s := Part002.handleKeyPress "I"
             (Part002.initialize ["GOOD"; "TIME"; "OUT"; "SIDE"; "WALK"]%string) in
  Part002.words (Part002.handleSubmitWord 2 s) !! 1%nat = Part002.words s !! 1%nat.
Proof.
  intros s.
  exact (proj1 (proj2 (proj2 (proj1 (proj2 (proj2 (proj1 C10_frame s))) 2%nat)))
           1%nat ltac:(discriminate)).
Defined.

(** * Further properties of the server *)

Section StoreFacts.
Implicit Types (store : gmap string rateLimitRecord) (key : string).

Lemma checkRateLimit_countsInRange now key store :
  countsInRange store -> countsInRange (checkRateLimit now key store).2.
Proof.
  intros Hc. unfold checkRateLimit.
  destruct (store !! key) as [r|] eqn:Er.
  - pose proof (Hc _ _ Er) as Hr.
    destruct (Z.geb_spec now (resetTime r)); simpl.
    + intros k r'. rewrite lookup_insert. case_decide; [|apply Hc].
      intros [= <-]. simpl. unfold maxRequests. lia.
    + destruct (Z.geb_spec (count r) maxRequests); simpl; [done|].
      intros k r'. rewrite lookup_insert. case_decide; [|apply Hc].
      intros [= <-]. simpl. lia.
  - simpl. intros k r'. rewrite lookup_insert. case_decide; [|apply Hc].
    intros [= <-]. simpl. unfold maxRequests. lia.
Qed.

Lemma cleanup_lookup now key store :
  cleanup now store !! key =
    match store !! key with
    | Some r => if now >=? resetTime r + blockDurationMs then None else Some r
    | None => None
    end.
Proof.
  unfold cleanup. destruct (store !! key) as [r|] eqn:Er.
  - destruct (Z.geb_spec now (resetTime r + blockDurationMs)) as [Hge|Hlt].
    + apply map_lookup_filter_None. right. intros r' Er'. simpl.
      rewrite Er in Er'. injection Er' as <-.
      by destruct (Z.geb_spec now (resetTime r + blockDurationMs)); [|lia].
    + by apply cleanup_keeps.
  - apply map_lookup_filter_None. by left.
Qed.

Lemma cleanup_countsInRange now store :
  countsInRange store -> countsInRange (cleanup now store).
Proof.
  intros Hc k r. rewrite cleanup_lookup.
  destruct (store !! k) as [r'|] eqn:Er; [|done].
  case_match; [done|]. intros [= <-]. by apply (Hc k).
Qed.

Lemma serve_countsInRange events : forall store,
  countsInRange store -> countsInRange (serve events store).2.
Proof.
  induction events as [|[key now|now] events IH]; intros store Hc; simpl; [done|..].
  - pose proof (checkRateLimit_countsInRange now key store Hc) as Hc'.
    destruct (checkRateLimit now key store) as [result store1].
    specialize (IH store1 Hc'). by destruct (serve events store1).
  - by apply IH, cleanup_countsInRange.
Qed.

Lemma checkRateLimit_result now key store :
  countsInRange store ->
  let '(result, store') := checkRateLimit now key store in
  0 <= remaining result <= 9 /\
  (allowed result = false ->
   remaining result = 0 /\ store' = store /\
   exists record, store !! key = Some record /\ count record = maxRequests /\
     windowResetTime result = resetTime record /\ now < resetTime record) /\
  (allowed result = true ->
   exists record, store' !! key = Some record /\
     remaining result = maxRequests - count record /\
     windowResetTime result = resetTime record /\ now < resetTime record).
Proof.
  intros Hc. unfold checkRateLimit.
  destruct (store !! key) as [r|] eqn:Er.
  - pose proof (Hc _ _ Er) as Hr.
    destruct (Z.geb_spec now (resetTime r)); simpl.
    + split; [unfold maxRequests; lia|]. split; [done|]. intros _.
      eexists. rewrite lookup_insert_eq. split; [done|]. simpl. unfold windowMs. lia.
    + destruct (Z.geb_spec (count r) maxRequests); simpl.
      * split; [lia|]. split; [|done]. intros _. split; [done|]. split; [done|].
        exists r. split; [done|]. lia.
      * split; [unfold maxRequests in *; lia|]. split; [done|]. intros _.
        eexists. rewrite lookup_insert_eq. split; [done|]. simpl. lia.
  - simpl. split; [unfold maxRequests; lia|]. split; [done|]. intros _.
    eexists. rewrite lookup_insert_eq. split; [done|]. simpl. unfold windowMs. lia.
Qed.

Lemma countsInRange_empty : countsInRange ∅.
Proof. intros k r. by rewrite lookup_empty. Qed.

End StoreFacts.

(** X1. Whatever traffic the server has had since it started with an empty
    store, every record counts at least 1 and at most 10 requests; the
    next check returns a [remaining] between 0 and 9; a rejection returns
    0, changes nothing and happens only on a record that counts exactly 10
    in an open window; an allowed request leaves the caller a record
    in an open window with [remaining] equal to 10 less its count. *)
Theorem X1_counts_in_range events now key :
  let store := (serve events ∅).2 in
  countsInRange store /\
  let result := (checkRateLimit now key store).1 in
  let store' := (checkRateLimit now key store).2 in
  0 <= remaining result <= 9 /\
  (allowed result = false ->
   remaining result = 0 /\ store' = store /\
   exists record, store !! key = Some record /\ count record = maxRequests /\
     windowResetTime result = resetTime record /\ now < resetTime record) /\
  (allowed result = true ->
   exists record, store' !! key = Some record /\
     remaining result = maxRequests - count record /\
     windowResetTime result = resetTime record /\ now < resetTime record).
Proof.
  intros store.
  assert (Hc : countsInRange store) by apply serve_countsInRange, countsInRange_empty.
  split; [exact Hc|]. pose proof (checkRateLimit_result now key store Hc) as Hr.
  by destruct (checkRateLimit now key store).
Qed.

Section SweepFacts.
Implicit Types (store swept whole : gmap string rateLimitRecord) (key : string).

Lemma sweptOf_refl t store : sweptOf t store store.
Proof. intros k. by left. Qed.

Lemma sweptOf_later t t' swept whole :
  t <= t' -> sweptOf t swept whole -> sweptOf t' swept whole.
Proof.
  intros Ht Hs k. destruct (Hs k) as [E|(E & r & Er & Hr)]; [by left|].
  right. split; [done|]. exists r. split; [done|lia].
Qed.

Lemma sweptOf_cleanup now swept whole :
  sweptOf now swept whole -> sweptOf now (cleanup now swept) whole.
Proof.
  intros Hs k. rewrite cleanup_lookup.
  destruct (Hs k) as [E|(E & r & Er & Hr)].
  - rewrite E. destruct (whole !! k) as [r|] eqn:Er; [|by left].
    destruct (Z.geb_spec now (resetTime r + blockDurationMs)); [|by left].
    right. split; [done|]. exists r. split; [done|]. lia.
  - rewrite E. right. split; [done|]. by exists r.
Qed.

Lemma sweptOf_insert t key r swept whole :
  sweptOf t swept whole -> sweptOf t (<[key := r]> swept) (<[key := r]> whole).
Proof.
  intros Hs k. rewrite !lookup_insert. case_decide; [by left|apply Hs].
Qed.

(** A check made after the time of the sweeps gives the same result on
    the swept store as on the whole one. *)
Lemma checkRateLimit_sweptOf t now key swept whole :
  t <= now -> sweptOf t swept whole ->
  (checkRateLimit now key swept).1 = (checkRateLimit now key whole).1 /\
  sweptOf t (checkRateLimit now key swept).2 (checkRateLimit now key whole).2.
Proof.
  intros Ht Hs. unfold checkRateLimit.
  destruct (Hs key) as [E|(E & r & Er & Hr)].
  - rewrite E. destruct (whole !! key) as [r|]; simpl.
    + repeat case_match; simpl; (split; [done|]); by try apply sweptOf_insert.
    + split; [done|]. by apply sweptOf_insert.
  - rewrite E, Er.
    destruct (Z.geb_spec now (resetTime r)); [|unfold blockDurationMs in *; lia]. simpl.
    split; [done|]. by apply sweptOf_insert.
Qed.

Lemma serve_sweptOf events : forall t swept whole,
  inOrder t events -> sweptOf t swept whole ->
  (serve events swept).1 = (serve (withoutSweeps events) whole).1 /\
  sweptOf (lastTime t events)
    (serve events swept).2 (serve (withoutSweeps events) whole).2.
Proof.
  unfold lastTime.
  induction events as [|[key now|now] events IH]; intros t swept whole Ho Hs; simpl in *.
  - by split.
  - destruct Ho as [Ht Ho].
    destruct (checkRateLimit_sweptOf t now key swept whole Ht Hs) as [E Hs'].
    destruct (checkRateLimit now key swept) as [r1 s1].
    destruct (checkRateLimit now key whole) as [r2 s2]. simpl in *. subst r2.
    destruct (IH now s1 s2 Ho (sweptOf_later _ _ _ _ Ht Hs')) as [El Hf].
    destruct (serve events s1) as [l1 f1].
    destruct (serve (withoutSweeps events) s2) as [l2 f2]. simpl in *.
    split; [by rewrite El|done].
  - destruct Ho as [Ht Ho].
    apply (IH now); [done|]. by apply sweptOf_cleanup, sweptOf_later with t.
Qed.

End SweepFacts.

(** X2. The periodic sweep is not seen by any caller: for traffic whose
    times do not go back, the verdicts are the same with the sweeps as
    without them. The store with the sweeps is the store without them less
    some records, each of which closed its window five minutes or more
    before the last event; and a check made at or after the last event
    returns the same verdict, [remaining] and reset time on either store. *)
Theorem X2_sweeps_change_no_verdict t events store :
  inOrder t events ->
  let swept := (serve events store).2 in
  let whole := (serve (withoutSweeps events) store).2 in
  (serve events store).1 = (serve (withoutSweeps events) store).1 /\
  (forall key,
     swept !! key = whole !! key \/
     swept !! key = None /\
     exists record, whole !! key = Some record /\
       resetTime record + blockDurationMs <= lastTime t events) /\
  (forall now key, lastTime t events <= now ->
     (checkRateLimit now key swept).1 = (checkRateLimit now key whole).1).
Proof.
  intros Ho swept whole.
  destruct (serve_sweptOf events t store store Ho (sweptOf_refl t store)) as [Hv Hs].
  split; [exact Hv|]. split; [exact Hs|].
  intros now key Hnow.
  exact (proj1 (checkRateLimit_sweptOf _ now key _ _ Hnow Hs)).
Qed.

(** A caller that comes back 25 minutes after a full window, and one that
    does not come back, with a sweep in between: the sweep has removed the
    record of the second, whose window closed at 901000. *)
Lemma X2_sweeps_change_no_verdict_witness :
  let key := "wordchain:10.0.0.7"%string in
  let other := "wordchain:10.0.0.8"%string in
  let events :=
    Request other 1000 :: replicate 11 (Request key 1000) ++
    [Sweep 1300000; Request key 1500000] in
  inOrder 0 events /\
  (serve events ∅).1 = (serve (withoutSweeps events) ∅).1 /\
  (serve events ∅).2 !! key = Some {| count := 1; resetTime := 2400000 |} /\
  (serve events ∅).2 !! other = None /\
  (serve (withoutSweeps events) ∅).2 !! other = Some {| count := 1; resetTime := 901000 |} /\
  lastTime 0 events = 1500000 /\
  (checkRateLimit 1500000 other (serve events ∅).2).1 =
    (checkRateLimit 1500000 other (serve (withoutSweeps events) ∅).2).1.
Proof.
  intros key other events.
  assert (Ho : inOrder 0 events) by (vm_compute; intuition discriminate).
  destruct (X2_sweeps_change_no_verdict 0 events ∅ Ho) as (Hv & _ & Hnext).
  split; [exact Ho|]. split; [exact Hv|].
  split; [vm_compute; reflexivity|]. split; [vm_compute; reflexivity|].
  split; [vm_compute; reflexivity|]. split; [reflexivity|].
  apply Hnext. vm_compute. discriminate.
Defined.

(** X3. The sweep removes exactly the records whose window closed
    [blockDurationMs] (five minutes) ago or earlier and leaves every other
    record as it is; so a record in an open window is never removed, a
    sweep repeated changes nothing more, and a later sweep makes an
    earlier one redundant. *)
Theorem X3_cleanup now store :
  (forall key,
     cleanup now store !! key =
       match store !! key with
       | Some r => if now >=? resetTime r + blockDurationMs then None else Some r
       | None => None
       end) /\
  (forall key r, store !! key = Some r -> now < resetTime r ->
     cleanup now store !! key = Some r) /\
  (forall key r, cleanup now store !! key = Some r ->
     store !! key = Some r /\ now < resetTime r + 300000) /\
  cleanup now (cleanup now store) = cleanup now store /\
  (forall now', now <= now' -> cleanup now' (cleanup now store) = cleanup now' store).
Proof.
  split; [exact (fun key => cleanup_lookup now key store)|].
  split; [|split; [|split]].
  - intros key r Hr Hn. apply cleanup_keeps; [done|]. unfold blockDurationMs. lia.
  - intros key r. rewrite cleanup_lookup. destruct (store !! key) as [r'|]; [|done].
    destruct (Z.geb_spec now (resetTime r' + blockDurationMs)); [done|].
    intros [= <-]. split; [done|]. unfold blockDurationMs in *. lia.
  - apply map_eq. intros key. rewrite !cleanup_lookup.
    destruct (store !! key) as [r|]; [|done].
    destruct (now >=? resetTime r + blockDurationMs) eqn:E; [done|]. by rewrite E.
  - intros now' Hn. apply map_eq. intros key. rewrite !cleanup_lookup.
    destruct (store !! key) as [r|]; [|done].
    destruct (Z.geb_spec now (resetTime r + blockDurationMs)); [|done].
    by destruct (Z.geb_spec now' (resetTime r + blockDurationMs)); [|lia].
Qed.

Section KeyFacts.
Import Js.

Lemma chars_append s t : chars (s +:+ t) = chars s ++ chars t.
Proof.
  induction s as [|c s IH]; [done|]. rewrite append_cons.
  change (chars (String c (s +:+ t))) with (c :: chars (s +:+ t)). by rewrite IH.
Qed.

Lemma truthy_append s t :
  s <> ""%string -> truthy (Some (s +:+ t)) = Some (s +:+ t).
Proof. by destruct s. Qed.

Lemma truthy_Some s : s <> ""%string -> truthy (Some s) = Some s.
Proof. by destruct s. Qed.

Lemma beforeComma_app l rest :
  Forall (fun c => code c <> 44%N) l ->
  beforeComma (l ++ ","%char :: rest) = l /\ beforeComma l = l.
Proof.
  induction 1 as [|c l Hc Hl [IH1 IH2]]; [done|]. simpl.
  destruct (N.eqb_spec (code c) 44); [done|]. by rewrite IH1, IH2.
Qed.

End KeyFacts.

(** X4. The key of a caller is [wordchain:] followed by the first address
    of [x-forwarded-for]: what follows the first comma of that header, and
    the header [x-real-ip], play no part when it is there. Without it the
    key is made of [x-real-ip], taken whole; and without both, or with
    both empty, every caller gets the one key [wordchain:unknown], and so
    shares one quota. *)
Theorem X4_rate_limit_key address rest real length :
  address <> ""%string ->
  Forall (fun c => Js.code c <> 44%N) (Js.chars address) ->
  Route.getRateLimitKey
    {| x_forwarded_for := Some (address +:+ "," +:+ rest); x_real_ip := real;
       lengthParam := length |} = ("wordchain:" +:+ address)%string /\
  Route.getRateLimitKey
    {| x_forwarded_for := Some address; x_real_ip := real;
       lengthParam := length |} = ("wordchain:" +:+ address)%string /\
  (forall forwarded whole, truthy forwarded = None -> whole <> ""%string ->
     Route.getRateLimitKey
       {| x_forwarded_for := forwarded; x_real_ip := Some whole;
          lengthParam := length |} = ("wordchain:" +:+ whole)%string) /\
  (forall forwarded real', truthy forwarded = None -> truthy real' = None ->
     Route.getRateLimitKey
       {| x_forwarded_for := forwarded; x_real_ip := real';
          lengthParam := length |} = "wordchain:unknown"%string).
Proof.
  intros Hne Hc. unfold Route.getRateLimitKey. cbn [x_forwarded_for x_real_ip].
  destruct (beforeComma_app _ (Js.chars rest) Hc) as [H1 H2].
  split; [|split; [|split]].
  - rewrite truthy_append by done. rewrite !chars_append.
    change (Js.chars ",") with [","%char]. simpl. by rewrite H1, str_chars.
  - rewrite truthy_Some by done. by rewrite H2, str_chars.
  - intros forwarded whole -> Hw. by rewrite truthy_Some.
  - by intros forwarded real' -> ->.
Qed.

Lemma X4_rate_limit_key_witness :
  "10.0.0.7"%string <> ""%string /\
  Forall (fun c => Js.code c <> 44%N) (Js.chars "10.0.0.7") /\
  Route.getRateLimitKey
    {| x_forwarded_for := Some ("10.0.0.7" +:+ "," +:+ " 172.16.0.1, 172.16.0.2");
       x_real_ip := Some "192.168.0.1"%string;
       lengthParam := None |} = "wordchain:10.0.0.7"%string.
Proof.
  assert (H1 : "10.0.0.7"%string <> ""%string) by discriminate.
  assert (H2 : Forall (fun c => Js.code c <> 44%N) (Js.chars "10.0.0.7"))
    by (repeat constructor; discriminate).
  split; [exact H1|]. split; [exact H2|].
  exact (proj1 (X4_rate_limit_key "10.0.0.7" " 172.16.0.1, 172.16.0.2"
                  (Some "192.168.0.1"%string) None H1 H2)).
Defined.

Section StatusFacts.
Variable JSON_parse : string -> option Json.json.

(** The answer of [route.ts] by cases, with the verdict of the limiter and
    the requested length given. *)
Lemma route_answer_cases request now now' store c :
  let key := Route.getRateLimitKey request in
  let result := (checkRateLimit now key store).1 in
  let response := answer (Route.GET JSON_parse request now now' store).1 c in
  let hs :=
    [("X-RateLimit-Limit"%string, Text (Json.numberToString maxRequests));
     ("X-RateLimit-Remaining"%string, Text (Json.numberToString (remaining result)));
     ("X-RateLimit-Reset"%string, IsoDate (windowResetTime result))] in
  (Route.GET JSON_parse request now now' store).2 = (checkRateLimit now key store).2 /\
  (allowed result = false /\ status response = 429 /\ headers response = hs /\
   invokesGenerator (Route.GET JSON_parse request now now' store).1 = false
   \/
   allowed result = true /\
   (exists n, Route.requestedLength request = Some n /\ (n < 3 \/ 8 < n)) /\
   status response = 400 /\ headers response = hs /\
   invokesGenerator (Route.GET JSON_parse request now now' store).1 = false
   \/
   allowed result = true /\
   ~ (exists n, Route.requestedLength request = Some n /\ (n < 3 \/ 8 < n)) /\
   invokesGenerator (Route.GET JSON_parse request now now' store).1 = true /\
   (response = Route.generationFailure \/
    status response = 200 /\ headers response = hs)).
Proof.
  intros key result response hs. subst key result response hs.
  pose proof (GET_cases JSON_parse request now now' store) as Hg. cbv zeta in Hg.
  destruct (checkRateLimit _ _ _) as [result store']. rewrite Hg. clear Hg.
  cbn [fst snd]. split; [done|].
  destruct (allowed result); cbn [negb answer]; [|by left].
  right. destruct (Route.requestedLength request) as [n|] eqn:En.
  - destruct ((n <? 3) || (n >? 8)) eqn:Eb.
    + left. split; [done|]. split; [exists n; split; [done|lia]|]. done.
    + right. split; [done|]. split; [intros (n' & [= <-] & Hn'); lia|].
      split; [done|]. cbn [answer].
      match goal with |- context [Route.respondWith _ ?l ?hs c] =>
        destruct (respondWith_cases JSON_parse l hs c)
          as [->|(? & ? & ? & ? & _ & _ & _ & _ & _ & ->)] end; [by left|by right].
  - right. split; [done|]. split; [by intros (n' & [=] & _)|]. split; [done|].
    cbn [answer].
    match goal with |- context [Route.respondWith _ ?l ?hs c] =>
      destruct (respondWith_cases JSON_parse l hs c)
        as [->|(? & ? & ? & ? & _ & _ & _ & _ & _ & ->)] end; [by left|by right].
Qed.

End StatusFacts.

(** X5. [GET] of [route.ts] answers 200, 400, 429 or 500 and nothing else:
    429 exactly when the limiter rejects the caller; 400 exactly when the
    caller is admitted and [length] parses to a number below 3 or above 8;
    and the model is called exactly when the caller is admitted and
    [length] is not such a number. The store after the request is the one
    [checkRateLimit] leaves, whatever the answer; and a [length]
    parameter that is absent or empty counts as 5. *)
Theorem X5_route_statuses JSON_parse request now now' store c :
  let key := Route.getRateLimitKey request in
  let result := (checkRateLimit now key store).1 in
  let h := (Route.GET JSON_parse request now now' store).1 in
  let response := answer h c in
  (status response = 200 \/ status response = 400 \/
   status response = 429 \/ status response = 500) /\
  (status response = 429 <-> allowed result = false) /\
  (status response = 400 <->
   allowed result = true /\
   exists n, Route.requestedLength request = Some n /\ (n < 3 \/ 8 < n)) /\
  (invokesGenerator h = true <->
   allowed result = true /\
   ~ exists n, Route.requestedLength request = Some n /\ (n < 3 \/ 8 < n)) /\
  (Route.GET JSON_parse request now now' store).2 = (checkRateLimit now key store).2 /\
  (truthy (lengthParam request) = None -> Route.requestedLength request = Some 5).
Proof.
  intros key result h response. subst key result h response.
  destruct (route_answer_cases JSON_parse request now now' store c) as [Hst Hc].
  cbv zeta in Hc.
  split; [|split; [|split; [|split; [|split; [exact Hst|]]]]].
  - destruct Hc as [(_ & -> & _)|[(_ & _ & -> & _)|(_ & _ & _ & [->|[-> _]])]]; auto.
  - destruct Hc as [(Ha & -> & _)|[(Ha & _ & -> & _)|(Ha & _ & _ & [->|[-> _]])]];
      rewrite Ha; split; done.
  - destruct Hc as [(Ha & -> & _)|[(Ha & Hn & -> & _)|(Ha & Hn & _ & [->|[-> _]])]];
      rewrite Ha; split; try done; intros []; done.
  - destruct Hc as [(Ha & _ & _ & ->)|[(Ha & Hn & _ & _ & ->)|(Ha & Hn & -> & _)]];
      rewrite Ha; split; try done; intros []; done.
  - unfold Route.requestedLength. by intros ->.
Qed.

(** X6. An answer 500 of [route.ts] is always the same: the fixed pair of
    [error] and [message], with no header and nothing of the exception or
    of the text of the model in it; every other answer carries the three
    headers of the limiter. In [unnamed/part_001] an answer 500 is one of
    two fixed bodies, and no answer carries a header. *)
Theorem X6_failures_are_constant JSON_parse :
  (forall request now now' store c,
     let response := answer (Route.GET JSON_parse request now now' store).1 c in
     (status response = 500 ->
      response =
        {| status := 500; headers := [];
           body := Failure "Failed to generate word chain"
                     (Some "Please try again in a moment."%string) None |}) /\
     (status response <> 500 -> (headers response).*1 = Route.rateLimitHeaders)) /\
  (forall request OPENAI_API_KEY c,
     let response := answer (Part001.GET JSON_parse request OPENAI_API_KEY) c in
     headers response = [] /\
     (status response = 500 ->
      body response = Failure "Word chain generation failed" None None \/
      truthy OPENAI_API_KEY = None /\
      body response = Failure "OpenAI API key not configured" None None)).
Proof.
  split.
  - intros request now now' store c response. subst response.
    destruct (route_answer_cases JSON_parse request now now' store c) as [_ Hc].
    cbv zeta in Hc.
    destruct Hc as [(_ & Hs & Hh & _)|[(_ & _ & Hs & Hh & _)|(_ & _ & _ & [->|[Hs Hh]])]];
      try (rewrite Hs, Hh; split; done); done.
  - intros request key c response. subst response. unfold Part001.GET.
    destruct (Part001.requestedLength request) as [n|]; [|done].
    destruct ((n <? 2) || (n >? 20)); [done|].
    destruct (truthy key) eqn:Ek; [|split; [done|]; intros _; by right].
    cbn [answer].
    destruct (part001_respondWith_cases JSON_parse n c)
      as [->|(? & ? & ? & _ & _ & _ & _ & _ & ->)]; [|done].
    split; [done|]. intros _. by left.
Qed.

(** X7. On a store whose counts are in range, every answer of [route.ts]
    other than 500 tells the caller the state of the record that the store
    holds for it after the request: the window of that record is open,
    [X-RateLimit-Remaining] is 10 less its count and [X-RateLimit-Reset] is
    its [resetTime]. This includes the answer 400: a request with a bad
    [length] is counted like any other. *)
Theorem X7_headers_tell_the_record JSON_parse request now now' store c :
  countsInRange store ->
  let key := Route.getRateLimitKey request in
  let response := answer (Route.GET JSON_parse request now now' store).1 c in
  let store' := (Route.GET JSON_parse request now now' store).2 in
  status response <> 500 ->
  exists record,
    store' !! key = Some record /\ now < resetTime record /\
    headers response =
      [("X-RateLimit-Limit"%string, Text "10"%string);
       ("X-RateLimit-Remaining"%string,
        Text (Json.numberToString (maxRequests - count record)));
       ("X-RateLimit-Reset"%string, IsoDate (resetTime record))].
Proof.
  intros Hc key response store' Hs. subst key response store'.
  destruct (route_answer_cases JSON_parse request now now' store c) as [-> Hcases].
  cbv zeta in Hcases.
  pose proof (checkRateLimit_result now (Route.getRateLimitKey request) store Hc) as Hr.
  destruct (checkRateLimit _ _ _) as [result store'] eqn:Ec. cbn [fst snd] in *.
  destruct Hr as (_ & Hrej & Hal).
  assert (headers (answer (Route.GET JSON_parse request now now' store).1 c) =
    [("X-RateLimit-Limit"%string, Text (Json.numberToString maxRequests));
     ("X-RateLimit-Remaining"%string, Text (Json.numberToString (remaining result)));
     ("X-RateLimit-Reset"%string, IsoDate (windowResetTime result))]) as ->.
  { destruct Hcases as [(_ & _ & Hh & _)|[(_ & _ & _ & Hh & _)|(_ & _ & _ & [E|[_ Hh]])]];
      try done. by rewrite E in Hs. }
  destruct (allowed result) eqn:Ea.
  - destruct (Hal eq_refl) as (r & Hr & -> & -> & Hn). by exists r.
  - destruct (Hrej eq_refl) as (-> & -> & r & Hr & Hcount & -> & Hn).
    exists r. rewrite Hcount. by replace (maxRequests - maxRequests) with 0 by lia.
Qed.

(** The second request of a caller, sent with [length=99]. *)
Lemma X7_headers_tell_the_record_witness :
  let request := {| x_forwarded_for := None; x_real_ip := Some "10.0.0.7"%string;
                    lengthParam := Some "99"%string |} in
  let store : gmap string rateLimitRecord :=
    {[ "wordchain:10.0.0.7"%string := {| count := 1; resetTime := 900000 |} ]} in
  let response := answer (Route.GET Json.parseStringArray request 1000 1000 store).1 Rejected in
  countsInRange store /\ status response = 400 /\
  (Route.GET Json.parseStringArray request 1000 1000 store).2 !! "wordchain:10.0.0.7"%string
    = Some {| count := 2; resetTime := 900000 |} /\
  headers response =
    [("X-RateLimit-Limit"%string, Text "10"%string);
     ("X-RateLimit-Remaining"%string, Text "8"%string);
     ("X-RateLimit-Reset"%string, IsoDate 900000)].
Proof.
  intros request store response.
  assert (Hc : countsInRange store).
  { intros k r [<- <-]%lookup_singleton_Some. by vm_compute. }
  assert (Hs : status response = 400) by (vm_compute; reflexivity).
  assert (Hl : (Route.GET Json.parseStringArray request 1000 1000 store).2
                 !! "wordchain:10.0.0.7"%string
               = Some {| count := 2; resetTime := 900000 |}) by (vm_compute; reflexivity).
  assert (Hne : status response <> 500) by (rewrite Hs; discriminate).
  split; [exact Hc|]. split; [exact Hs|]. split; [exact Hl|].
  destruct (X7_headers_tell_the_record Json.parseStringArray request 1000 1000 store
              Rejected Hc Hne) as (r & Hr & _ & Hh).
  change (Route.getRateLimitKey request) with "wordchain:10.0.0.7"%string in Hr.
  rewrite Hl in Hr. injection Hr as <-. exact Hh.
Defined.

(** X8. [GET] of [unnamed/part_001] answers 200, 400 or 500: 400 exactly
    when [length] does not parse to a number or parses to one below 2 or
    above 20, whether or not the API key is configured; and the model is
    called exactly when [length] is a number from 2 to 20 and the key is
    configured. A [length] parameter that is absent or empty counts as 5. *)
Theorem X8_part001_statuses JSON_parse request OPENAI_API_KEY c :
  let h := Part001.GET JSON_parse request OPENAI_API_KEY in
  let response := answer h c in
  (status response = 200 \/ status response = 400 \/ status response = 500) /\
  (status response = 400 <->
   Part001.requestedLength request = None \/
   exists n, Part001.requestedLength request = Some n /\ (n < 2 \/ 20 < n)) /\
  (invokesGenerator h = true <->
   (exists n, Part001.requestedLength request = Some n /\ 2 <= n <= 20) /\
   truthy OPENAI_API_KEY <> None) /\
  (truthy (lengthParam request) = None -> Part001.requestedLength request = Some 5).
Proof.
  intros h response. subst h response. unfold Part001.GET.
  split; [|split; [|split]].
  - destruct (Part001.requestedLength request) as [n|]; [|auto].
    destruct ((n <? 2) || (n >? 20)); [auto|].
    destruct (truthy OPENAI_API_KEY); [|auto]. cbn [answer].
    destruct (part001_respondWith_cases JSON_parse n c)
      as [->|(? & ? & ? & _ & _ & _ & _ & _ & ->)]; auto.
  - destruct (Part001.requestedLength request) as [n|]; [|split; [by left|done]].
    destruct ((n <? 2) || (n >? 20)) eqn:Eb.
    + split; [|done]. intros _. right. exists n. split; [done|lia].
    + assert (status (answer
        match truthy OPENAI_API_KEY with
        | Some _ => Create (Some n) (Part001.respondWith JSON_parse n)
        | None =>
            Respond {| status := 500; headers := [];
                       body := Failure "OpenAI API key not configured" None None |}
        end c) <> 400) as Hne.
      { destruct (truthy OPENAI_API_KEY); [|done]. cbn [answer].
        destruct (part001_respondWith_cases JSON_parse n c)
          as [->|(? & ? & ? & _ & _ & _ & _ & _ & ->)]; done. }
      split; [done|]. intros [[=]|(n' & [= <-] & Hn)]. lia.
  - destruct (Part001.requestedLength request) as [n|].
    + destruct ((n <? 2) || (n >? 20)) eqn:Eb.
      * split; [done|]. intros [(n' & [= <-] & Hn) _]. lia.
      * destruct (truthy OPENAI_API_KEY).
        -- split; [|done]. intros _. split; [exists n; split; [done|lia]|done].
        -- split; [done|]. by intros [_ []].
    + split; [done|]. by intros [(n' & [=] & _) _].
  - unfold Part001.requestedLength. by intros ->.
Qed.

Section TokenFacts.
Import Js Json.

Lemma letter_facts c :
  isLetter c = true ->
  isWhiteSpace c = false /\ isUpper (upperChar c) = true /\ isLetter (upperChar c) = true.
Proof. destruct c as [[] [] [] [] [] [] [] []]; by vm_compute. Qed.

(** Every match of [/\b[a-zA-Z]+\b/g] is a run of at least one letter. *)
Lemma scanWords_letters l : forall prevWord run,
  (forall r, run = Some r -> r <> [] /\ Forall (fun c => isLetter c = true) r) ->
  Forall (fun token => chars token <> [] /\
                       Forall (fun c => isLetter c = true) (chars token))
         (scanWords prevWord run l).
Proof.
  assert (Hemit : forall r, r <> [] /\ Forall (fun c => isLetter c = true) r ->
            chars (str (rev r)) <> [] /\
            Forall (fun c => isLetter c = true) (chars (str (rev r)))).
  { intros r [Hne Hr]. rewrite chars_str. split.
    - intros E. apply Hne. by rewrite <- (rev_involutive r), E.
    - apply Forall_forall. intros c Hc. rewrite Forall_forall in Hr.
      apply Hr. by apply list_elem_of_In, in_rev, list_elem_of_In. }
  induction l as [|c l IH]; intros prevWord run Hrun; simpl.
  - destruct run as [r|]; [|done]. constructor; [|done]. by apply Hemit, Hrun.
  - destruct (isLetter c) eqn:Ec.
    + apply IH. intros r. destruct run as [r0|].
      * intros [= <-]. destruct (Hrun r0 eq_refl) as [_ Hr0]. split; [done|by constructor].
      * destruct prevWord; [done|]. intros [= <-]. split; [done|]. by repeat constructor.
    + destruct (isWordChar c); [by apply IH|].
      destruct run as [r|]; [|by apply IH].
      constructor; [by apply Hemit, Hrun|by apply IH].
Qed.

Lemma matchWords_letters text tokens :
  matchWords text = Some tokens ->
  Forall (fun token => chars token <> [] /\
                       Forall (fun c => isLetter c = true) (chars token)) tokens.
Proof.
  unfold matchWords. intros Hm.
  pose proof (scanWords_letters (chars text) false None ltac:(done)) as Hl.
  destruct (scanWords false None (chars text)); [done|]. by injection Hm as <-.
Qed.

Lemma trimStartL_letters l :
  Forall (fun c => isLetter c = true) l -> trimStartL l = l.
Proof.
  intros Hl. apply trimStartL_clean. destruct Hl as [|c l Hc _]; [done|].
  simpl. by apply letter_facts.
Qed.

Lemma trim_letters s :
  Forall (fun c => isLetter c = true) (chars s) -> trim s = s.
Proof.
  intros Hl. unfold trim, trimEndL. rewrite (trimStartL_letters (chars s)) by done.
  rewrite trimStartL_letters, rev_involutive; [apply str_chars|].
  apply Forall_forall. intros c Hc. rewrite Forall_forall in Hl.
  by apply Hl, list_elem_of_In, in_rev, list_elem_of_In.
Qed.

Lemma mapM_cleanWord_strings (l : list string) :
  mapM Route.cleanWord (JStr <$> l) = Some ((fun s => toUpperCase (trim s)) <$> l).
Proof.
  apply mapM_Some. induction l as [|x l IH]; simpl; by constructor.
Qed.

End TokenFacts.

(** X9. When [JSON.parse] rejects the text of the model and [route.ts]
    still answers 200, the words come from the bare words of the text: they
    are its first [length] tokens in upper case, and each of them is a
    string of one or more upper-case letters. *)
Theorem X9_fallback_words JSON_parse n headers content :
  JSON_parse content = None ->
  let response :=
    Route.respondWith JSON_parse (Some n) headers (Content (Some content)) in
  status response = 200 ->
  exists tokens,
    Json.matchWords content = Some tokens /\
    0 <= n <= Z.of_nat (length tokens) /\
    body response = Words (Js.toUpperCase <$> take (Z.to_nat n) tokens) /\
    forall w, w ∈ Js.toUpperCase <$> take (Z.to_nat n) tokens ->
      w <> ""%string /\ Forall (fun c => Js.isUpper c = true) (Js.chars w).
Proof.
  intros Hp response. subst response. unfold Route.respondWith.
  destruct content as [|a content]; [done|].
  change (truthy (Some (String a content))) with (Some (String a content)).
  cbv iota beta. unfold Route.parseWords. rewrite Hp.
  destruct (Json.matchWords (String a content)) as [tokens|] eqn:Em; [|done].
  destruct (Z.geb_spec (Z.of_nat (length tokens)) n) as [Hn|]; [|done].
  case_bool_decide as Hlen; [|done]. rewrite mapM_cleanWord_strings. simpl. intros _.
  injection Hlen as Hlen. rewrite length_fmap in Hlen.
  pose proof (matchWords_letters _ _ Em) as Hl.
  assert (Forall (fun token => Js.chars token <> [] /\
                    Forall (fun c => Js.isLetter c = true) (Js.chars token))
                 (take (Z.to_nat n) tokens)) as Hl' by by apply Forall_take.
  exists tokens. split; [done|]. split; [lia|]. split.
  - f_equal. apply list_eq. intros i. rewrite !list_lookup_fmap.
    destruct (take (Z.to_nat n) tokens !! i) as [x|] eqn:Ex; [|done]. simpl.
    destruct (proj1 (Forall_lookup _ _) Hl' _ _ Ex) as [_ Hx]. by rewrite trim_letters.
  - intros w (x & -> & Hx)%list_elem_of_fmap.
    destruct (proj1 (Forall_forall _ _) Hl' x Hx) as [Hne Hletters].
    unfold Js.toUpperCase. split.
    + intros E. apply (f_equal Js.chars) in E. rewrite chars_str in E.
      destruct (Js.chars x); [done|discriminate].
    + rewrite chars_str. apply Forall_fmap. eapply Forall_impl; [exact Hletters|].
      intros c Hc. simpl. by apply letter_facts.
Qed.

Lemma X9_fallback_words_witness :
  let content := "Here you go: good time out"%string in
  let response :=
    Route.respondWith Json.parseStringArray (Some 3) [] (Content (Some content)) in
  Json.parseStringArray content = None /\ status response = 200 /\
  body response = Words ["HERE"; "YOU"; "GO"]%string.
Proof.
  intros content response.
  assert (Hp : Json.parseStringArray content = None) by (vm_compute; reflexivity).
  assert (Hs : status response = 200) by (vm_compute; reflexivity).
  split; [exact Hp|]. split; [exact Hs|].
  destruct (X9_fallback_words Json.parseStringArray 3 [] content Hp Hs)
    as (tokens & Hm & _ & Hb & _).
  vm_compute in Hm. injection Hm as <-. exact Hb.
Defined.

Section BracketFacts.
Import Js Json.

Lemma uptoLastBracket_Some l m :
  uptoLastBracket l = Some m ->
  exists inner rest, m = inner ++ ["]"%char] /\ l = m ++ rest.
Proof.
  revert m. induction l as [|c l IH]; intros m; simpl; [done|].
  destruct (uptoLastBracket l) as [m'|].
  - intros [= <-]. destruct (IH m' eq_refl) as (inner & rest & -> & ->).
    by exists (c :: inner), rest.
  - destruct (N.eqb_spec (code c) 93) as [Hc|]; [|done]. intros [= <-].
    exists [], l. split; [|done]. f_equal.
    rewrite <- (ascii_N_embedding c). unfold code in Hc. by rewrite Hc.
Qed.

Lemma uptoLastBracket_found a b : uptoLastBracket (a ++ "]"%char :: b) <> None.
Proof.
  induction a as [|c a IH]; simpl.
  - by destruct (uptoLastBracket b).
  - by destruct (uptoLastBracket (a ++ "]"%char :: b)).
Qed.

Lemma restOfLine_prefix l :
  exists tail, l = restOfLine l ++ tail /\
    Forall (fun c => isLineTerminator c = false) (restOfLine l).
Proof.
  induction l as [|c l (tail & IH & Hl)]; simpl; [by exists []|].
  destruct (isLineTerminator c) eqn:Ec; [by exists (c :: l)|].
  exists tail. split; [simpl; by f_equal|by constructor].
Qed.

Lemma restOfLine_app a b :
  Forall (fun c => isLineTerminator c = false) a ->
  restOfLine (a ++ b) = a ++ restOfLine b.
Proof.
  induction 1 as [|c a Hc Ha IH]; [done|]. simpl. by rewrite Hc, IH.
Qed.

Lemma matchBracketL_Some l m :
  matchBracketL l = Some m ->
  exists pre inner post,
    l = pre ++ m ++ post /\ m = "["%char :: inner ++ ["]"%char] /\
    Forall (fun c => isLineTerminator c = false) inner.
Proof.
  revert m. induction l as [|c l IH]; intros m; simpl; [done|].
  assert (forall m, matchBracketL l = Some m ->
    exists pre inner post,
      c :: l = pre ++ m ++ post /\ m = "["%char :: inner ++ ["]"%char] /\
      Forall (fun c => isLineTerminator c = false) inner) as Hrec.
  { intros m' Hm'. destruct (IH m' Hm') as (pre & inner & post & -> & -> & Hi).
    by exists (c :: pre), inner, post. }
  destruct (N.eqb_spec (code c) 91) as [Hc|]; [|apply Hrec].
  destruct (uptoLastBracket (restOfLine l)) as [m'|] eqn:Eu; [|apply Hrec].
  intros [= <-]. destruct (uptoLastBracket_Some _ _ Eu) as (inner & rest & -> & Hline).
  destruct (restOfLine_prefix l) as (tail & Hl & Hterm).
  assert (c = "["%char) as ->.
  { rewrite <- (ascii_N_embedding c). unfold code in Hc. by rewrite Hc. }
  exists [], inner, (rest ++ tail). split; [|split; [done|]].
  - simpl. f_equal. rewrite Hl at 1. rewrite Hline. by rewrite <- !app_assoc.
  - rewrite Hline in Hterm. by apply Forall_app in Hterm as [[? _]%Forall_app _].
Qed.

Lemma matchBracketL_found pre inner post :
  Forall (fun c => isLineTerminator c = false) inner ->
  matchBracketL (pre ++ "["%char :: inner ++ "]"%char :: post) <> None.
Proof.
  intros Hi. induction pre as [|c pre IH]; simpl.
  - rewrite restOfLine_app by done. simpl.
    pose proof (uptoLastBracket_found inner (restOfLine post)) as Hf.
    by destruct (uptoLastBracket _).
  - destruct (code c =? 91)%N; [|done]. by destruct (uptoLastBracket _).
Qed.

End BracketFacts.

(** X10. [text.match(/\[.*\]/)] of [unnamed/part_001] finds something exactly
    when the text has an opening bracket followed, before the end of its
    line, by a closing one; what it finds is a piece of the text that
    begins with the opening bracket, ends with a closing one and stays on
    one line. An array that the model writes over several lines is
    therefore not found, and the answer is 500. *)
Theorem X10_bracket_match text :
  (forall m, Json.matchBracket text = Some m ->
     exists pre inner post,
       text = (pre +:+ m +:+ post)%string /\ m = ("[" +:+ inner +:+ "]")%string /\
       Forall (fun c => Js.isLineTerminator c = false) (Js.chars inner)) /\
  (Json.matchBracket text <> None <->
   exists pre inner post,
     text = (pre +:+ "[" +:+ inner +:+ "]" +:+ post)%string /\
     Forall (fun c => Js.isLineTerminator c = false) (Js.chars inner)) /\
  (forall JSON_parse length,
     Json.matchBracket text = None ->
     status (Part001.respondWith JSON_parse length (Content (Some text))) = 500).
Proof.
  unfold Json.matchBracket. split; [|split].
  - intros m Hm. destruct (Json.matchBracketL (Js.chars text)) as [ml|] eqn:Em; [|done].
    injection Hm as <-.
    destruct (matchBracketL_Some _ _ Em) as (pre & inner & post & Hl & -> & Hi).
    exists (Js.str pre), (Js.str inner), (Js.str post). split; [|split].
    + rewrite <- (str_chars text), Hl. by rewrite !str_app.
    + change ("["%char :: inner ++ ["]"%char]) with (["["%char] ++ inner ++ ["]"%char]).
      by rewrite !str_app.
    + by rewrite chars_str.
  - split.
    + destruct (Json.matchBracketL (Js.chars text)) as [ml|] eqn:Em; [|done]. intros _.
      destruct (matchBracketL_Some _ _ Em) as (pre & inner & post & Hl & -> & Hi).
      exists (Js.str pre), (Js.str inner), (Js.str post). split; [|by rewrite chars_str].
      rewrite <- (str_chars text), Hl.
      change ("["%char :: inner ++ ["]"%char]) with (["["%char] ++ inner ++ ["]"%char]).
      rewrite !str_app. by rewrite !append_assoc.
    + intros (pre & inner & post & -> & Hi).
      rewrite !chars_append.
      pose proof (matchBracketL_found (Js.chars pre) (Js.chars inner) (Js.chars post) Hi) as Hf.
      change (Js.chars "[") with ["["%char]. change (Js.chars "]") with ["]"%char].
      simpl. by destruct (Json.matchBracketL _).
  - intros JSON_parse length Hm. unfold Part001.respondWith.
    destruct text as [|a text]; [done|].
    change (truthy (Some (String a text))) with (Some (String a text)). cbv iota beta.
    unfold Json.matchBracket. by destruct (Json.matchBracketL _).
Qed.

Example bracket_examples :
  Json.matchBracket ("Sure: " +:+ Json.arrayText ["a"; "b"] +:+ " ok") =
    Some (Json.arrayText ["a"; "b"]) /\
  Json.matchBracket (String "[" (String (ascii_of_N 10) "]")) = None.
Proof. by vm_compute. Qed.

(** * Further properties of the page *)

Section CellFacts.
Import Js Part002.
Implicit Types (s : Home) (w : WordWithStatus) (i j index : nat).

(** The update of one word, as an insertion. *)
Lemma update_insert {A} (f : A -> A) index (l : list A) x :
  l !! index = Some x ->
  imap (fun j y => if bool_decide (j = index) then f y else y) l = <[index := f x]> l.
Proof.
  intros Hx. apply list_eq. intros i. rewrite lookup_update_at.
  case_bool_decide as Hi.
  - subst i. rewrite Hx. simpl. symmetry. apply list_lookup_insert_eq.
    by apply lookup_lt_Some with x.
  - by rewrite list_lookup_insert_ne.
Qed.

Lemma solvedCount_app l k : solvedCount (l ++ k) = (solvedCount l + solvedCount k)%nat.
Proof. unfold solvedCount. by rewrite List.filter_app, length_app. Qed.

Lemma solvedCount_insert (l : list WordWithStatus) index x y :
  l !! index = Some x ->
  (solvedCount (<[index := y]> l) + (if bool_decide (status x = solved) then 1 else 0) =
   solvedCount l + (if bool_decide (status y = solved) then 1 else 0))%nat.
Proof.
  intros Hx. rewrite insert_take_drop by by apply lookup_lt_Some with x.
  rewrite <- (take_drop_middle l index x Hx) at 3.
  rewrite !solvedCount_app.
  change (y :: drop (S index) l) with ([y] ++ drop (S index) l).
  change (x :: drop (S index) l) with ([x] ++ drop (S index) l).
  rewrite !solvedCount_app. unfold solvedCount at 2 5. simpl.
  do 2 case_bool_decide; simpl; lia.
Qed.

Lemma solvedCount_imap_kept (g : nat -> WordWithStatus -> WordWithStatus) l :
  (forall i x, bool_decide (status (g i x) = solved) = bool_decide (status x = solved)) ->
  solvedCount (imap g l) = solvedCount l.
Proof.
  revert g. induction l as [|x l IH]; intros g Hg; [done|].
  rewrite imap_cons. unfold solvedCount in *. simpl. rewrite Hg.
  specialize (IH (g ∘ S) (fun i y => Hg (S i) y)). by case_bool_decide; simpl; rewrite IH.
Qed.

Lemma keyboard_keys key :
  key ∈ keyboard -> toUpperCase key = key /\ String.length key = 1%nat.
Proof.
  intros Hk. assert (Forall (fun k => toUpperCase k = k /\ String.length k = 1%nat) keyboard)
    as Hall by (repeat constructor).
  by apply (proj1 (Forall_forall _ _) Hall).
Qed.

Lemma length_charAt solution j : (String.length (charAt solution j) <= 1)%nat.
Proof. unfold charAt. destruct (chars solution !! j); simpl; lia. Qed.

Lemma cellsInvariant_fewer_lives lives lives' w :
  lives' <= lives -> cellsInvariant lives w -> cellsInvariant lives' w.
Proof. intros Hl (H1 & H2 & H3 & H4 & H5). repeat split; try done. lia. Qed.

Lemma arraySet_inside (a : list string) i v :
  (i < length a)%nat -> arraySet a i v = <[i := v]> a.
Proof. intros Hi. unfold arraySet. by rewrite decide_True. Qed.

(** A key written at the cursor, within the nine cells. *)
Lemma cells_key lives w cell :
  cellsInvariant lives w ->
  (String.length cell <= 1)%nat -> (currentIndex w < 9)%nat ->
  cellsInvariant lives
    {| word := word w; status := solving;
       userInput := arraySet (userInput w) (currentIndex w) cell;
       currentIndex := currentIndex w + 1; hintsRevealed := hintsRevealed w |}.
Proof.
  intros (Hlen & Hcells & Hcur & Hempty & Hh) Hcell Hc.
  rewrite arraySet_inside by lia. repeat split; simpl.
  - by rewrite length_insert.
  - by apply Forall_insert.
  - lia.
  - intros j Hj Hj9. rewrite list_lookup_insert_ne by lia. apply Hempty; lia.
  - done.
Qed.

(** The cell before the cursor emptied. *)
Lemma cells_backspace lives w :
  cellsInvariant lives w -> (1 <= currentIndex w)%nat ->
  cellsInvariant lives
    {| word := word w; status := status w;
       userInput := arraySet (userInput w) (currentIndex w - 1) "";
       currentIndex := currentIndex w - 1; hintsRevealed := hintsRevealed w |}.
Proof.
  intros (Hlen & Hcells & Hcur & Hempty & Hh) Hc.
  rewrite arraySet_inside by lia. repeat split; simpl.
  - by rewrite length_insert.
  - apply Forall_insert; [done|]. simpl. lia.
  - lia.
  - intros j Hj Hj9. destruct (decide (j = currentIndex w - 1)%nat) as [->|Hne].
    + by rewrite list_lookup_insert_eq by lia.
    + rewrite list_lookup_insert_ne by done. apply Hempty; lia.
  - done.
Qed.

Lemma hintInput_cells lives solution n w0 :
  (n <= 9)%nat -> Z.of_nat n + lives <= 6 ->
  cellsInvariant lives
    {| word := word w0; status := failed; userInput := hintInput solution n;
       currentIndex := n; hintsRevealed := n |}.
Proof.
  intros Hn Hl. rewrite hintInput_eq. repeat split; simpl.
  - rewrite length_app, length_fmap, length_seq, length_replicate. lia.
  - apply Forall_app. split.
    + apply Forall_fmap, Forall_forall. intros j _. apply length_charAt.
    + apply Forall_replicate. simpl. lia.
  - done.
  - intros j Hj Hj9.
    rewrite lookup_app_r by (rewrite length_fmap, length_seq; lia).
    apply lookup_replicate_2. rewrite length_fmap, length_seq. lia.
  - done.
Qed.

End CellFacts.

Section SessionFacts.
Import Js Part002.
Implicit Types (s : Home) (w : WordWithStatus) (i j index : nat).

Lemma initialize_sessionInvariant data_words :
  sessionInvariant (solvedCount (words (initialize data_words))) (initialize data_words).
Proof.
  split; [done|]. split; [|simpl; lia]. simpl. unfold wordsWithStatus.
  apply Forall_lookup. intros i w. rewrite list_lookup_imap.
  destruct (data_words !! i) as [x|]; [|done]. intros [= <-].
  destruct (isMiddleWord i (length data_words)); repeat split; simpl; try done; try lia.
  - apply Forall_cons. split; [apply length_charAt|].
    apply (Forall_replicate _ 8). simpl. lia.
  - intros [|j] Hj Hj9; [lia|]. apply (lookup_replicate_2 8). lia.
  - apply (Forall_replicate _ 9). simpl. lia.
  - intros j Hj Hj9. apply (lookup_replicate_2 9). lia.
Qed.

Lemma effects_sessionInvariant initial s :
  sessionInvariant initial s -> sessionInvariant initial (effects s).
Proof.
  unfold sessionInvariant. by rewrite effects_words, effects_lives, effects_totalGuesses.
Qed.

Lemma handleKeyPress_sessionInvariant initial key s :
  key ∈ keyboard -> sessionInvariant initial s ->
  sessionInvariant initial (handleKeyPress key s).
Proof.
  intros Hk (Hl & Hw & Hg).
  destruct (handleKeyPress_words key s) as [->|(w & _ & Hsel & Hs & Hc & ->)]; [done|].
  unfold sessionInvariant, setWords. simpl. rewrite (update_insert _ _ _ _ Hsel). split; [done|]. split.
  - apply Forall_insert; [done|]. apply cells_key; try done.
    + by apply (proj1 (Forall_lookup _ _) Hw _ _ Hsel).
    + destruct (keyboard_keys key Hk) as [-> ->]. lia.
  - pose proof (solvedCount_insert (words s) (selectedWordIndex s) w
      {| word := word w; status := solving;
         userInput := arraySet (userInput w) (currentIndex w) (toUpperCase key);
         currentIndex := currentIndex w + 1; hintsRevealed := hintsRevealed w |} Hsel) as Hcount.
    simpl in Hcount. rewrite bool_decide_eq_false_2 in Hcount by done. lia.
Qed.

Lemma handleBackspace_sessionInvariant initial s :
  sessionInvariant initial s -> sessionInvariant initial (handleBackspace s).
Proof.
  intros (Hl & Hw & Hg).
  destruct (handleBackspace_words s) as [->|(w & _ & Hsel & Hs & Hc & ->)]; [done|].
  unfold sessionInvariant, setWords. simpl. rewrite (update_insert _ _ _ _ Hsel). split; [done|]. split.
  - apply Forall_insert; [done|]. apply cells_backspace; [|lia].
    by apply (proj1 (Forall_lookup _ _) Hw _ _ Hsel).
  - pose proof (solvedCount_insert (words s) (selectedWordIndex s) w
      {| word := word w; status := status w;
         userInput := arraySet (userInput w) (currentIndex w - 1) "";
         currentIndex := currentIndex w - 1; hintsRevealed := hintsRevealed w |} Hsel) as Hcount.
    simpl in Hcount. lia.
Qed.

Lemma handleSubmitWord_sessionInvariant initial index s :
  0 < lives s -> canSubmit index s = true ->
  sessionInvariant initial s -> sessionInvariant initial (handleSubmitWord index s).
Proof.
  intros Hpos Hcan (Hl & Hw & Hg).
  destruct (handleSubmitWord_cases index s)
    as [[_ ->]|(w & _ & Hi & [[_ (s1 & -> & ->)]|[_ ->]])]; [done|..];
    (assert (status w <> solved) as Hs
       by (unfold canSubmit in Hcan; rewrite Hi in Hcan;
           case_bool_decide; [by rewrite andb_false_r in Hcan|done]));
    pose proof (proj1 (Forall_lookup _ _) Hw _ _ Hi) as Hcells.
  - assert (forall s0 : Home,
      (if Z.of_nat index <? Z.of_nat (length (words s)) - 2
       then setSelectedWordIndex (index + 1) s0 else s0) =
      setSelectedWordIndex
        (if Z.of_nat index <? Z.of_nat (length (words s)) - 2
         then (index + 1)%nat else selectedWordIndex s0) s0) as ->
      by (intros [] ; by case_match).
    unfold sessionInvariant, setWords, setSelectedWordIndex, setTotalGuesses.
    simpl. rewrite (update_insert _ _ _ _ Hi). split; [done|]. split.
    + apply Forall_insert; [done|]. destruct Hcells as (? & ? & ? & ? & ?). by repeat split.
    + pose proof (solvedCount_insert (words s) index w
        {| word := word w; status := solved; userInput := userInput w;
           currentIndex := currentIndex w; hintsRevealed := hintsRevealed w |} Hi) as Hcount.
      simpl in Hcount. rewrite bool_decide_eq_false_2 in Hcount by done. lia.
  - unfold sessionInvariant, setWords, setLives, setScreenShake, setDroppingHeart,
      setTotalGuesses. simpl. rewrite (update_insert _ _ _ _ Hi). split; [lia|]. split.
    + destruct Hcells as (_ & _ & _ & _ & Hh). apply Forall_insert.
      * eapply Forall_impl; [exact Hw|]. intros w'.
        apply cellsInvariant_fewer_lives. lia.
      * apply hintInput_cells; lia.
    + pose proof (solvedCount_insert (words s) index w
        {| word := word w; status := failed;
           userInput := hintInput (word w)
             (Nat.min (hintsRevealed w + 1) (String.length (word w)));
           currentIndex := Nat.min (hintsRevealed w + 1) (String.length (word w));
           hintsRevealed := Nat.min (hintsRevealed w + 1) (String.length (word w)) |} Hi)
        as Hcount.
      simpl in Hcount. rewrite bool_decide_eq_false_2 in Hcount by done. lia.
Qed.

Lemma failureTimeout_sessionInvariant initial index s :
  sessionInvariant initial s -> sessionInvariant initial (failureTimeout index s).
Proof.
  intros (Hl & Hw & Hg). split; [done|]. simpl. split.
  - apply Forall_lookup. intros i w'. rewrite list_lookup_imap.
    destruct (words s !! i) as [w|] eqn:Ew; [|done]. simpl.
    pose proof (proj1 (Forall_lookup _ _) Hw _ _ Ew) as Hc.
    case_match; intros [= <-]; [|done]. destruct Hc as (? & ? & ? & ? & ?). by repeat split.
  - rewrite solvedCount_imap_kept; [done|]. intros i x.
    destruct (bool_decide (i = index) && bool_decide (status x = failed)) eqn:E; [|done].
    simpl. apply andb_prop in E as [_ E%bool_decide_eq_true].
    by rewrite E, !bool_decide_eq_false_2.
Qed.

Lemma dispatch_sessionInvariant initial e s s' :
  sessionInvariant initial s -> dispatch e s = Some s' -> sessionInvariant initial s'.
Proof.
  intros Hi. destruct e as [key| |index|index| |index]; simpl.
  - destruct (boardShown s); [|done]. case_bool_decide as Hk; [|done]. intros [= <-].
    by apply effects_sessionInvariant, handleKeyPress_sessionInvariant.
  - case_match; [|done]. intros [= <-].
    by apply effects_sessionInvariant, handleBackspace_sessionInvariant.
  - destruct (boardShown s) eqn:Eb; [|done]. destruct (canSubmit index s) eqn:Ec; [|done].
    intros [= <-]. apply effects_sessionInvariant, handleSubmitWord_sessionInvariant; try done.
    by apply boardShown_lives.
  - case_match; [|done]. intros [= <-]. by apply effects_sessionInvariant.
  - case_match; [|done]. intros [= <-]. by apply effects_sessionInvariant.
  - intros [= <-]. by apply effects_sessionInvariant, failureTimeout_sessionInvariant.
Qed.

Lemma run_sessionInvariant initial events : forall s s',
  sessionInvariant initial s -> run events s = Some s' -> sessionInvariant initial s'.
Proof.
  induction events as [|e events IH]; intros s s' Hi; simpl.
  - by intros [= <-].
  - destruct (dispatch e s) as [s1|] eqn:Ed; [|done]. simpl.
    apply IH. by apply (dispatch_sessionInvariant initial e s).
Qed.

Lemma reachable_sessionInvariant data_words s :
  reachable data_words s ->
  sessionInvariant (solvedCount (words (initialize data_words))) s.
Proof.
  intros [events Hr].
  exact (run_sessionInvariant _ _ _ _ (initialize_sessionInvariant _) Hr).
Qed.

End SessionFacts.

Section BoundFacts.
Import Js Part002.
Implicit Types (s : Home) (w : WordWithStatus) (i j index : nat).

Lemma length_append (x y : string) :
  String.length (x +:+ y) = (String.length x + String.length y)%nat.
Proof. induction x as [|c x IH]; [done|]. rewrite append_cons. simpl. by rewrite IH. Qed.

Lemma length_str l : String.length (str l) = length l.
Proof. by rewrite <- length_chars, chars_str. Qed.

Lemma length_join (a : list string) :
  Forall (fun cell => (String.length cell <= 1)%nat) a ->
  (String.length (join a) <= length a)%nat.
Proof.
  induction 1 as [|cell a Hcell _ IH]; [done|]. simpl.
  change (String.length (cell +:+ join a) <= S (length a))%nat.
  rewrite length_append. lia.
Qed.

Lemma length_trimStartL l : (length (trimStartL l) <= length l)%nat.
Proof. induction l as [|c l IH]; [done|]. simpl. destruct (isWhiteSpace c); simpl; lia. Qed.

Lemma length_trim x : (String.length (trim x) <= String.length x)%nat.
Proof.
  unfold trim, trimEndL. rewrite length_str, length_rev.
  etrans; [apply length_trimStartL|]. rewrite length_rev.
  etrans; [apply length_trimStartL|]. by rewrite length_chars.
Qed.

Lemma length_toUpperCase x : String.length (toUpperCase x) = String.length x.
Proof. unfold toUpperCase. by rewrite length_str, length_fmap, length_chars. Qed.

Lemma initialize_solutions data_words :
  word <$> words (initialize data_words) = toUpperCase <$> data_words.
Proof.
  simpl. unfold wordsWithStatus. apply list_eq. intros i.
  rewrite !list_lookup_fmap, list_lookup_imap. by destruct (data_words !! i).
Qed.

Lemma run_solutions events : forall s s',
  run events s = Some s' -> word <$> words s' = word <$> words s.
Proof.
  induction events as [|e events IH]; intros s s'; simpl; [by intros [= <-]|].
  destruct (dispatch e s) as [s1|] eqn:Ed; [|done]. simpl. intros Hr.
  by rewrite (IH _ _ Hr), (dispatch_solutions _ _ _ Ed).
Qed.

Lemma isGameComplete_unsolved s index w :
  words s !! index = Some w -> status w <> solved -> isGameComplete s = false.
Proof.
  intros Hw Hs. unfold isGameComplete. apply not_true_is_false. intros Hc.
  rewrite forallb_forall in Hc.
  specialize (Hc w (proj1 (list_elem_of_In _ _) (list_elem_of_lookup_2 _ _ _ Hw))).
  by apply bool_decide_eq_true in Hc.
Qed.

End BoundFacts.

(** X11. All along a session of [unnamed/part_002] the lives stay between
    0 and 5, and each hint beyond the first was paid with a life: the
    hints of a word and the lives add up to 6 at most. Every word keeps
    nine cells of at most one character each; its cursor is between its
    hints and 9, and the cells from the cursor on are empty. *)
Theorem X11_hints_cost_lives data_words events s :
  Part002.run events (Part002.initialize data_words) = Some s ->
  0 <= Part002.lives s <= 5 /\
  forall index w, Part002.words s !! index = Some w ->
    Z.of_nat (Part002.hintsRevealed w) + Part002.lives s <= 6 /\
    (Part002.hintsRevealed w <= Part002.currentIndex w <= 9)%nat /\
    length (Part002.userInput w) = 9%nat /\
    forall j cell, Part002.userInput w !! j = Some cell ->
      (String.length cell <= 1)%nat /\
      ((Part002.currentIndex w <= j)%nat -> cell = ""%string).
Proof.
  intros Hr.
  assert (Part002.reachable data_words s) as Hreach by by exists events.
  destruct (reachable_sessionInvariant _ _ Hreach) as (Hl & Hw & _).
  destruct (reachable_invariant _ _ Hreach) as [_ Hi].
  split; [done|]. intros index w Hlook.
  destruct (proj1 (Forall_lookup _ _) Hw _ _ Hlook) as (Hlen & Hcells & Hcur & Hempty & Hh).
  destruct (Hi _ _ Hlook) as (Hhc & _).
  split; [done|]. split; [lia|]. split; [done|]. intros j cell Hj. split.
  - exact (proj1 (Forall_lookup _ _) Hcells _ _ Hj).
  - intros Hc. apply lookup_lt_Some in Hj as Hj9. rewrite Hlen in Hj9.
    rewrite (Hempty j Hc Hj9) in Hj. by injection Hj.
Qed.

(** Four wrong guesses for TIME. *)
Lemma X11_hints_cost_lives_witness :
  let data_words := ["GOOD"; "TIME"; "OUT"]%string in
  let guess := [KeyPress "X"; SubmitWord 1; FailureTimeout 1]%string in
  let events := guess ++ guess ++ guess ++ guess in
  exists s,
    Part002.run events (Part002.initialize data_words) = Some s /\
    Part002.lives s = 1 /\
    Part002.hintsRevealed <$> Part002.words s = [0; 4; 0]%nat /\
    0 <= Part002.lives s <= 5.
Proof.
  intros data_words guess events.
  destruct (Part002.run events (Part002.initialize data_words)) as [s|] eqn:Hr;
    [|vm_compute in Hr; discriminate].
  exists s. split; [done|].
  pose proof (proj1 (X11_hints_cost_lives data_words events s Hr)) as Hl.
  vm_compute in Hr. injection Hr as <-. by repeat split.
Defined.

(** X12. The nine cells bound what can be solved: a middle word whose
    solution has more than nine characters is never solved, so a chain
    with such a word never reaches the screen of a completed puzzle,
    whatever the player does. *)
Theorem X12_long_word_never_solved data_words events s index solution :
  Part002.run events (Part002.initialize data_words) = Some s ->
  Part002.isMiddleWord index (length data_words) = true ->
  data_words !! index = Some solution ->
  (9 < String.length solution)%nat ->
  (exists w, Part002.words s !! index = Some w /\
     Part002.word w = Js.toUpperCase solution /\ Part002.status w <> solved) /\
  Part002.isGameComplete s = false /\
  Part002.render s <> Part002.CompleteScreen.
Proof.
  intros Hr Hm Hd Hlong.
  assert (Part002.reachable data_words s) as Hreach by by exists events.
  destruct (reachable_sessionInvariant _ _ Hreach) as (_ & Hw & _).
  destruct (reachable_invariant _ _ Hreach) as [_ Hi].
  pose proof (run_solutions _ _ _ Hr) as Hsol. rewrite initialize_solutions in Hsol.
  assert (length (Part002.words s) = length data_words) as Hlen.
  { apply (f_equal length) in Hsol. by rewrite !length_fmap in Hsol. }
  apply (f_equal (fun l => l !! index)) in Hsol.
  rewrite !list_lookup_fmap, Hd in Hsol. simpl in Hsol.
  destruct (Part002.words s !! index) as [w|] eqn:Hlook; [|done].
  injection Hsol as Hword.
  assert (Part002.status w <> solved) as Hs.
  { intros Hs. destruct (Hi _ _ Hlook) as (_ & Hjoin & _).
    rewrite Hlen in Hjoin. specialize (Hjoin Hs Hm).
    destruct (proj1 (Forall_lookup _ _) Hw _ _ Hlook) as (Hl9 & Hcells & _).
    pose proof (length_join _ Hcells) as Hj.
    pose proof (length_trim (Js.join (Part002.userInput w))) as Ht.
    rewrite Hjoin, Hword, length_toUpperCase in Ht. lia. }
  pose proof (isGameComplete_unsolved _ _ _ Hlook Hs) as Hc.
  split; [by exists w|]. split; [done|].
  unfold Part002.render. rewrite Hc. simpl. by destruct (Part002.isGameOver s).
Qed.

(** A chain with TIMEKEEPER in the middle: the ninth key fills the last
    cell, the tenth is dropped, and the guess is wrong. *)
Lemma X12_long_word_never_solved_witness :
  let data_words := ["GOOD"; "TIMEKEEPER"; "OUT"]%string in
  let events :=
    (KeyPress <$> ["I"; "M"; "E"; "K"; "E"; "E"; "P"; "E"; "R"]%string) ++ [SubmitWord 1] in
  exists s,
    Part002.run events (Part002.initialize data_words) = Some s /\
    Part002.lives s = 4 /\ Part002.isGameComplete s = false.
Proof.
  intros data_words events.
  destruct (Part002.run events (Part002.initialize data_words)) as [s|] eqn:Hr;
    [|vm_compute in Hr; discriminate].
  exists s. split; [done|].
  assert (Part002.isMiddleWord 1 (length data_words) = true) as Hm by reflexivity.
  assert (data_words !! 1%nat = Some "TIMEKEEPER"%string) as Hd by reflexivity.
  assert (9 < String.length "TIMEKEEPER")%nat as Hlong by (simpl; lia).
  destruct (X12_long_word_never_solved data_words events s 1 _ Hr Hm Hd Hlong)
    as (_ & Hc & _).
  split; [|exact Hc]. vm_compute in Hr. by injection Hr as <-.
Defined.

(** X13. Every guess is either paid with a life or solves a word: the
    count of guesses is the number of lives lost plus the number of words
    solved since the chain was loaded. So a session has at most five wrong
    guesses, and at most five guesses more than the chain has words. *)
Theorem X13_guesses_accounted data_words events s :
  Part002.run events (Part002.initialize data_words) = Some s ->
  Z.of_nat (Part002.totalGuesses s) =
    (5 - Part002.lives s) +
    (Z.of_nat (solvedCount (Part002.words s)) -
     Z.of_nat (solvedCount (Part002.words (Part002.initialize data_words)))) /\
  0 <= 5 - Part002.lives s <= 5 /\
  (Part002.totalGuesses s <= 5 + length data_words)%nat.
Proof.
  intros Hr.
  assert (Part002.reachable data_words s) as Hreach by by exists events.
  destruct (reachable_sessionInvariant _ _ Hreach) as (Hl & _ & Hg).
  pose proof (run_solutions _ _ _ Hr) as Hsol. rewrite initialize_solutions in Hsol.
  apply (f_equal length) in Hsol. rewrite !length_fmap in Hsol.
  assert (solvedCount (Part002.words s) <= length (Part002.words s))%nat as Hc
    by apply List.filter_length_le.
  split; [lia|]. split; lia.
Qed.

(** The session of the specification: one right guess, one wrong. *)
Lemma X13_guesses_accounted_witness :
  let data_words := ["GOOD"; "TIME"; "OUT"; "SIDE"; "WALK"]%string in
  let events :=
    (KeyPress <$> ["I"; "M"; "E"]%string) ++ [SubmitWord 1] ++
    (KeyPress <$> ["W"; "R"; "O"; "N"; "G"]%string) ++ [SubmitWord 2] in
  exists s,
    Part002.run events (Part002.initialize data_words) = Some s /\
    Part002.totalGuesses s = 2%nat /\ Part002.lives s = 4 /\
    solvedCount (Part002.words s) = 3%nat.
Proof.
  intros data_words events.
  destruct (Part002.run events (Part002.initialize data_words)) as [s|] eqn:Hr;
    [|vm_compute in Hr; discriminate].
  exists s. split; [done|].
  pose proof (proj1 (X13_guesses_accounted data_words events s Hr)) as Hg.
  vm_compute in Hr. injection Hr as <-. by repeat split.
Defined.

Section DisplayFacts.

Lemma formatTime_table :
  forallb (fun seconds =>
             String.eqb (formatTime seconds)
               (twoDigits (Z.of_nat seconds / 60) +:+ ":"
                +:+ twoDigits (Z.of_nat seconds mod 60)))
          (seq 0 (100 * 60)) = true.
Proof. vm_compute. reflexivity. Qed.

End DisplayFacts.

(** X14. The rating is 1, 2 or 3 stars and never grows with time spent or
    lives lost: 3 stars exactly for at most 60 seconds with at least 4
    lives, 1 star exactly for more than 120 seconds or fewer than 2 lives.
    The two revisions of the page rate alike. *)
Theorem X14_star_rating :
  (forall s, 1 <= Part002.getStarRating s <= 3) /\
  (forall s s',
     (Part002.timer s <= Part002.timer s')%nat -> Part002.lives s' <= Part002.lives s ->
     Part002.getStarRating s' <= Part002.getStarRating s) /\
  (forall s, Part002.getStarRating s = 3 <->
     (Part002.timer s <= 60)%nat /\ 4 <= Part002.lives s) /\
  (forall s, Part002.getStarRating s = 1 <->
     (120 < Part002.timer s)%nat \/ Part002.lives s < 2) /\
  (forall s p,
     Page.timer p = Part002.timer s -> Page.lives p = Part002.lives s ->
     Page.getStarRating p = Part002.getStarRating s).
Proof.
  unfold Part002.getStarRating, Page.getStarRating.
  split; [|split; [|split; [|split]]]; intros s; [| intros s' Ht Hl | | |by intros p -> ->];
    repeat match goal with
           | |- context [(?a <=? ?b)%nat] => destruct (Nat.leb_spec a b)
           | |- context [?a >=? ?b] => destruct (Z.geb_spec a b)
           end; simpl; lia.
Qed.

(** X15. Below 100 minutes [formatTime] writes the clock as two digits of
    minutes, a colon and two digits of seconds, five characters in all. *)
Theorem X15_formatTime seconds :
  (seconds < 100 * 60)%nat ->
  formatTime seconds =
    (twoDigits (Z.of_nat seconds / 60) +:+ ":" +:+ twoDigits (Z.of_nat seconds mod 60))%string /\
  String.length (formatTime seconds) = 5%nat.
Proof.
  intros Hs. pose proof formatTime_table as Ht. rewrite forallb_forall in Ht.
  assert (formatTime seconds =
    (twoDigits (Z.of_nat seconds / 60) +:+ ":" +:+ twoDigits (Z.of_nat seconds mod 60))%string)
    as ->.
  { apply String.eqb_eq, Ht, in_seq. lia. }
  done.
Qed.

Lemma X15_formatTime_witness :
  formatTime 754 = "12:34"%string /\ formatTime 59 = "00:59"%string /\
  String.length (formatTime 4999) = 5%nat.
Proof.
  assert (754 < 100 * 60)%nat as H1 by lia. assert (59 < 100 * 60)%nat as H2 by lia.
  assert (4999 < 100 * 60)%nat as H3 by lia.
  split; [|split].
  - rewrite (proj1 (X15_formatTime 754 H1)). vm_compute. reflexivity.
  - rewrite (proj1 (X15_formatTime 59 H2)). vm_compute. reflexivity.
  - exact (proj2 (X15_formatTime 4999 H3)).
Defined.

Section StartFacts.
Import Js Part002.
Implicit Types (s : Home) (w : WordWithStatus) (i j index : nat).

Lemma initialize_lookup data_words index x :
  data_words !! index = Some x ->
  words (initialize data_words) !! index =
    Some {| word := toUpperCase x;
            status := if bool_decide (index = 0%nat)
                         || (Z.of_nat index =? Z.of_nat (length data_words) - 1)
                      then solved else unsolved;
            userInput := if isMiddleWord index (length data_words)
                         then arraySet (replicate 9 ""%string) 0 (charAt x 0)
                         else replicate 9 ""%string;
            currentIndex := if isMiddleWord index (length data_words) then 1 else 0;
            hintsRevealed := if isMiddleWord index (length data_words) then 1 else 0 |}.
Proof. intros Hx. simpl. unfold wordsWithStatus. by rewrite list_lookup_imap, Hx. Qed.

Lemma initialize_length data_words :
  length (words (initialize data_words)) = length data_words.
Proof. simpl. unfold wordsWithStatus. apply length_imap. Qed.

Lemma findIndex_second {A} (p : A -> bool) (l : list A) x y :
  l !! 0%nat = Some x -> l !! 1%nat = Some y -> p x = false -> p y = true ->
  findIndex p l = Some 1%nat.
Proof.
  destruct l as [|x' [|y' l]]; try done. simpl. intros [= ->] [= ->] -> ->. done.
Qed.

Lemma isGameComplete_solved s :
  (forall index w, words s !! index = Some w -> status w = solved) ->
  isGameComplete s = true.
Proof.
  intros Hs. unfold isGameComplete. apply forallb_forall. intros w Hw.
  apply list_elem_of_In, list_elem_of_lookup in Hw as [index Hw].
  apply bool_decide_eq_true. by apply (Hs index).
Qed.

Lemma initialize_middle data_words index x :
  data_words !! index = Some x ->
  isMiddleWord index (length data_words) = true ->
  words (initialize data_words) !! index =
    Some {| word := toUpperCase x; status := unsolved;
            userInput := charAt x 0 :: replicate 8 ""%string;
            currentIndex := 1; hintsRevealed := 1 |}.
Proof.
  intros Hx Hm. rewrite (initialize_lookup _ _ _ Hx), Hm.
  unfold isMiddleWord in Hm.
  rewrite bool_decide_eq_false_2 by lia.
  destruct (Z.eqb_spec (Z.of_nat index) (Z.of_nat (length data_words) - 1)); [lia|].
  done.
Qed.

Lemma initialize_end data_words index x :
  data_words !! index = Some x ->
  isMiddleWord index (length data_words) = false ->
  words (initialize data_words) !! index =
    Some {| word := toUpperCase x; status := solved;
            userInput := replicate 9 ""%string;
            currentIndex := 0; hintsRevealed := 0 |}.
Proof.
  intros Hx Hm. rewrite (initialize_lookup _ _ _ Hx), Hm.
  apply lookup_lt_Some in Hx. unfold isMiddleWord in Hm.
  destruct (bool_decide_reflect (index = 0%nat)) as [->|Hi]; [done|].
  destruct (Z.eqb_spec (Z.of_nat index) (Z.of_nat (length data_words) - 1)); [done|lia].
Qed.

(** A chain of three words or more starts on the board. *)
Lemma initialize_board data_words :
  (3 <= length data_words)%nat ->
  render (initialize data_words) = Board /\ selectedWordIndex (initialize data_words) = 1%nat.
Proof.
  intros Hlen.
  destruct (lookup_lt_is_Some_2 data_words 0) as [x Hx]; [lia|].
  destruct (lookup_lt_is_Some_2 data_words 1) as [y Hy]; [lia|].
  assert (isMiddleWord 1 (length data_words) = true) as Hm
    by (apply andb_true_intro; split; [done|apply Z.ltb_lt; lia]).
  split.
  - unfold render.
    rewrite (isGameComplete_unsolved _ 1 _ (initialize_middle _ _ _ Hy Hm)) by done. done.
  - change (default 1%nat
      (findIndex (fun w => bool_decide (status w = unsolved))
         (words (initialize data_words))) = 1%nat).
    by rewrite (findIndex_second _ _ _ _ (initialize_end _ _ _ Hx eq_refl)
                  (initialize_middle _ _ _ Hy Hm)).
Qed.

End StartFacts.

(** X16. What the page starts with. The words are those of the answer, in
    upper case, with five lives, no guess and the clock at zero; each middle
    word is unsolved, with its first character as written in the answer in
    the first cell and the cursor after it. A chain of one or two words has
    no middle word and is shown as completed at once; a chain of three words
    or more shows the board with the word after the first selected; and an
    empty chain shows a board without words. *)
Theorem X16_initialize data_words :
  let s := Part002.initialize data_words in
  Part002.word <$> Part002.words s = Js.toUpperCase <$> data_words /\
  Part002.lives s = 5 /\ Part002.totalGuesses s = 0%nat /\ Part002.timer s = 0%nat /\
  (forall index x, data_words !! index = Some x ->
     Part002.isMiddleWord index (length data_words) = true ->
     Part002.words s !! index =
       Some {| Part002.word := Js.toUpperCase x; Part002.status := unsolved;
               Part002.userInput := Js.charAt x 0 :: replicate 8 ""%string;
               Part002.currentIndex := 1; Part002.hintsRevealed := 1 |}) /\
  (forall index x, data_words !! index = Some x ->
     Part002.isMiddleWord index (length data_words) = false ->
     Part002.words s !! index =
       Some {| Part002.word := Js.toUpperCase x; Part002.status := solved;
               Part002.userInput := replicate 9 ""%string;
               Part002.currentIndex := 0; Part002.hintsRevealed := 0 |}) /\
  ((1 <= length data_words <= 2)%nat -> Part002.render s = Part002.CompleteScreen) /\
  ((3 <= length data_words)%nat ->
   Part002.render s = Part002.Board /\ Part002.selectedWordIndex s = 1%nat) /\
  (data_words = [] -> Part002.render s = Part002.Board /\ Part002.words s = []).
Proof.
  intros s. subst s.
  split; [apply initialize_solutions|]. do 3 (split; [done|]).
  split; [apply initialize_middle|]. split; [apply initialize_end|]. split; [|split].
  - intros Hlen. unfold Part002.render.
    rewrite isGameComplete_solved, initialize_length.
    + destruct data_words; [simpl in Hlen; lia|done].
    + intros index w Hw. apply lookup_lt_Some in Hw as Hi. rewrite initialize_length in Hi.
      destruct (lookup_lt_is_Some_2 data_words index Hi) as [x Hx].
      rewrite (initialize_end _ index x Hx) in Hw; [by injection Hw as <-|].
      unfold Part002.isMiddleWord. lia.
  - apply initialize_board.
  - by intros ->.
Qed.

Section RoundTrip.
Import Js Part002.
Implicit Types (s : Home) (w : WordWithStatus) (i j index : nat).

Lemma outside_setWords_imap (g : nat -> WordWithStatus -> WordWithStatus) index s :
  outside index (setWords (imap g) s) = outside index s.
Proof. unfold outside. simpl. by rewrite length_imap. Qed.

Lemma handleKeyPress_selected key s w :
  outside (selectedWordIndex s) s = false ->
  words s !! selectedWordIndex s = Some w ->
  status w <> solved -> (currentIndex w < 9)%nat ->
  handleKeyPress key s =
    setWords (imap (fun j w =>
      if bool_decide (j = selectedWordIndex s) then
        {| word := word w; status := solving;
           userInput := arraySet (userInput w) (currentIndex w) (toUpperCase key);
           currentIndex := currentIndex w + 1;
           hintsRevealed := hintsRevealed w |}
      else w)) s.
Proof.
  intros Ho Hw Hs Hc. unfold handleKeyPress. rewrite Ho, Hw.
  rewrite bool_decide_eq_false_2 by done.
  by destruct (Nat.leb_spec 9 (currentIndex w)); [lia|].
Qed.

Lemma handleBackspace_selected s w :
  outside (selectedWordIndex s) s = false ->
  words s !! selectedWordIndex s = Some w ->
  status w <> solved -> (Nat.max 1 (hintsRevealed w) < currentIndex w)%nat ->
  handleBackspace s =
    setWords (imap (fun j w =>
      if bool_decide (j = selectedWordIndex s) then
        {| word := word w; status := status w;
           userInput := arraySet (userInput w) (currentIndex w - 1) "";
           currentIndex := currentIndex w - 1;
           hintsRevealed := hintsRevealed w |}
      else w)) s.
Proof.
  intros Ho Hw Hs Hc. unfold handleBackspace. rewrite Ho, Hw.
  rewrite bool_decide_eq_false_2 by done.
  by destruct (Nat.leb_spec (currentIndex w) (Nat.max 1 (hintsRevealed w))); [lia|].
Qed.

End RoundTrip.

(** X17. A key followed by a backspace leaves the board as it was, but for
    the word being marked as in progress: in a session, for a selected
    middle word that is not solved, has a solution that is not empty and
    has a free cell, the cells, the cursor and the hints are again what
    they were, and so are the other words and the rest of the session. *)
Theorem X17_key_then_backspace data_words events s key w :
  Part002.run events (Part002.initialize data_words) = Some s ->
  let sel := Part002.selectedWordIndex s in
  Part002.outside sel s = false ->
  Part002.words s !! sel = Some w ->
  Part002.status w <> solved ->
  Part002.word w <> ""%string ->
  (Part002.currentIndex w < 9)%nat ->
  let s' := Part002.handleBackspace (Part002.handleKeyPress key s) in
  Part002.words s' =
    <[sel := {| Part002.word := Part002.word w; Part002.status := solving;
                Part002.userInput := Part002.userInput w;
                Part002.currentIndex := Part002.currentIndex w;
                Part002.hintsRevealed := Part002.hintsRevealed w |}]> (Part002.words s) /\
  Part002.sessionFields s' = Part002.sessionFields s /\
  Part002.words (Part002.handleKeyPress key s) <> Part002.words s.
Proof.
  intros Hr sel Ho Hw Hs Hne Hc s'. subst s'.
  assert (Part002.reachable data_words s) as Hreach by by exists events.
  destruct (reachable_sessionInvariant _ _ Hreach) as (_ & Hcells & _).
  destruct (reachable_invariant _ _ Hreach) as [_ Hi].
  destruct (proj1 (Forall_lookup _ _) Hcells _ _ Hw) as (Hlen & _ & _ & Hempty & _).
  destruct (Hi _ _ Hw) as (Hhc & _ & Hh).
  assert (1 <= Part002.hintsRevealed w)%nat as Hh1.
  { apply Hh; [by apply outside_isMiddleWord|].
    destruct (Part002.word w); [done|simpl; lia]. }
  rewrite (handleKeyPress_selected key s w Ho Hw Hs Hc). fold sel.
  set (w1 := {| Part002.word := Part002.word w; Part002.status := solving;
                Part002.userInput :=
                  Js.arraySet (Part002.userInput w) (Part002.currentIndex w)
                    (Js.toUpperCase key);
                Part002.currentIndex := Part002.currentIndex w + 1;
                Part002.hintsRevealed := Part002.hintsRevealed w |}).
  match goal with |- context [Part002.setWords (imap ?g) s] => set (s1 := Part002.setWords (imap g) s) end.
  assert (Part002.words s1 = <[sel := w1]> (Part002.words s)) as Hw1.
  { subst s1. simpl. by rewrite (update_insert _ _ _ _ Hw). }
  assert (Part002.words s1 !! sel = Some w1) as Hsel1.
  { rewrite Hw1. apply list_lookup_insert_eq. by apply lookup_lt_Some with w. }
  assert (Part002.outside (Part002.selectedWordIndex s1) s1 = false) as Ho1.
  { subst s1. by rewrite outside_setWords_imap. }
  rewrite (handleBackspace_selected s1 w1 Ho1 Hsel1);
    [|done|unfold w1; cbn [Part002.hintsRevealed Part002.currentIndex]; lia].
  change (Part002.selectedWordIndex s1) with sel.
  split; [|split; [done|]].
  - simpl. rewrite (update_insert _ _ _ _ Hsel1). rewrite Hw1 at 1.
    rewrite list_insert_insert_eq. f_equal. subst w1. simpl. f_equal.
    + replace (Part002.currentIndex w + 1 - 1)%nat with (Part002.currentIndex w) by lia.
      rewrite (arraySet_inside (Part002.userInput w)) by lia.
      rewrite arraySet_inside by (rewrite length_insert; lia).
      rewrite list_insert_insert_eq. apply list_insert_id, Hempty; lia.
    + lia.
  - rewrite Hw1. intros E. apply (f_equal (fun l => Part002.currentIndex <$> l !! sel)) in E.
    rewrite list_lookup_insert_eq, Hw in E by (by apply lookup_lt_Some with w).
    simpl in E. injection E. lia.
Qed.

(** The letter X typed after the hint of TIME, then erased. *)
Lemma X17_key_then_backspace_witness :
  let data_words := ["GOOD"; "TIME"; "OUT"; "SIDE"; "WALK"]%string in
  let events := [KeyPress "I"; SelectWord 2; SelectWord 1]%string in
  exists s,
    Part002.run events (Part002.initialize data_words) = Some s /\
    Part002.userInput <$>
      Part002.words (Part002.handleBackspace (Part002.handleKeyPress "X" s)) !! 1%nat =
      Some ["T"; "I"; ""; ""; ""; ""; ""; ""; ""]%string.
Proof.
  intros data_words events.
  destruct (Part002.run events (Part002.initialize data_words)) as [s|] eqn:Hr;
    [|vm_compute in Hr; discriminate].
  exists s. split; [done|].
  pose proof (X17_key_then_backspace data_words events s "X") as Hx.
  vm_compute in Hr. injection Hr as <-.
  match type of Hx with forall w, Part002.run _ _ = Some ?st -> _ => set (s0 := st) in * end.
  assert (Part002.run events (Part002.initialize data_words) = Some s0) as Hr
    by (vm_compute; reflexivity).
  destruct (Hx _ Hr eq_refl eq_refl ltac:(discriminate) ltac:(discriminate)
              ltac:(vm_compute; lia)) as (Hw & _).
  rewrite Hw. reflexivity.
Defined.

Section EndFacts.
Import Js Part002.
Implicit Types (s : Home) (w : WordWithStatus) (i j index : nat).

Lemma render_effects s : render (effects s) = render s.
Proof.
  unfold render, isGameComplete, isGameOver. by rewrite effects_words, effects_lives.
Qed.

Lemma effects_timer s : timer (effects s) = timer s.
Proof. unfold effects. by repeat case_match. Qed.

Lemma effects_stops s : boardShown s = false -> isTimerRunning (effects s) = false.
Proof.
  unfold boardShown, render, effects, isGameOver.
  destruct (isGameComplete s && (0 <? length (words s))%nat); simpl;
    by destruct (lives s <=? 0).
Qed.

Lemma forallb_imap_kept {A} (p : A -> bool) (g : nat -> A -> A) (l : list A) :
  (forall i x, p (g i x) = p x) -> forallb p (imap g l) = forallb p l.
Proof.
  revert g. induction l as [|x l IH]; intros g Hg; [done|]. simpl.
  rewrite Hg. f_equal. apply IH. intros i y. apply Hg.
Qed.

Lemma render_failureTimeout index s : render (failureTimeout index s) = render s.
Proof.
  unfold render, isGameComplete, isGameOver. simpl.
  rewrite forallb_imap_kept, length_imap; [done|]. intros i x.
  destruct (bool_decide (i = index) && bool_decide (status x = failed)) eqn:E; [|done].
  simpl. apply andb_prop in E as [_ E%bool_decide_eq_true].
  by rewrite E, !bool_decide_eq_false_2.
Qed.

Lemma failureTimeout_cells index s :
  userInput <$> words (failureTimeout index s) = userInput <$> words s.
Proof.
  simpl. apply list_eq. intros i. rewrite !list_lookup_fmap, list_lookup_imap.
  destruct (words s !! i) as [w|]; [|done]. simpl. by case_match.
Qed.

(** What a state keeps once the board is gone and the clock is stopped. *)
Lemma dispatch_ended e s s' :
  boardShown s = false -> isTimerRunning s = false -> dispatch e s = Some s' ->
  (exists index, e = FailureTimeout index) /\
  boardShown s' = false /\ isTimerRunning s' = false /\
  render s' = render s /\ timer s' = timer s /\ lives s' = lives s /\
  totalGuesses s' = totalGuesses s /\ selectedWordIndex s' = selectedWordIndex s /\
  userInput <$> words s' = userInput <$> words s.
Proof.
  intros Hb Ht. destruct e as [key| |index|index| |index]; simpl; rewrite ?Hb, ?Ht; try done.
  intros [= <-].
  assert (render (effects (failureTimeout index s)) = render s) as Hrender
    by by rewrite render_effects, render_failureTimeout.
  assert (boardShown (effects (failureTimeout index s)) = false) as Hb'
    by (unfold boardShown in *; by rewrite Hrender).
  split; [by exists index|]. split; [done|]. split.
  - apply effects_stops. unfold boardShown in *.
    by rewrite render_failureTimeout.
  - split; [done|].
    rewrite effects_timer, effects_lives, effects_totalGuesses, effects_selectedWordIndex,
      effects_words.
    repeat split; try done. apply failureTimeout_cells.
Qed.

End EndFacts.

(** X18. Nothing moves once the board is gone. When an event ends the
    puzzle, won or lost, the clock is stopped with it, and from then on the
    page takes no key, backspace, guess, selection or tick: only the
    callback of a wrong guess can still run, and it changes neither the
    screen shown, the clock, the lives, the count of guesses, the rating,
    nor any cell of the words. *)
Theorem X18_after_the_end e s0 s events s' :
  Part002.dispatch e s0 = Some s ->
  Part002.boardShown s = false ->
  Part002.run events s = Some s' ->
  Part002.isTimerRunning s = false /\
  Forall (fun e => exists index, e = FailureTimeout index) events /\
  Part002.render s' = Part002.render s /\
  Part002.isTimerRunning s' = false /\
  Part002.timer s' = Part002.timer s /\
  Part002.lives s' = Part002.lives s /\
  Part002.totalGuesses s' = Part002.totalGuesses s /\
  Part002.getStarRating s' = Part002.getStarRating s /\
  Part002.userInput <$> Part002.words s' = Part002.userInput <$> Part002.words s.
Proof.
  intros Hd Hb Hr.
  assert (Part002.isTimerRunning s = false) as Ht.
  { assert (exists x, s = Part002.effects x) as [x ->].
    { destruct e; simpl in Hd; repeat case_match; try done; injection Hd as <-; by eexists. }
    apply effects_stops. unfold Part002.boardShown in *. by rewrite render_effects in Hb. }
  split; [done|]. clear Hd. revert s Hb Ht Hr.
  induction events as [|e' events IH]; intros s Hb Ht; simpl.
  - intros [= <-]. by repeat split.
  - destruct (Part002.dispatch e' s) as [s1|] eqn:Ed; [|done]. simpl. intros Hr.
    destruct (dispatch_ended _ _ _ Hb Ht Ed)
      as (He & Hb1 & Ht1 & Hrender & Htimer & Hlives & Hg & _ & Hcells).
    destruct (IH s1 Hb1 Ht1 Hr) as (Hf & -> & -> & -> & -> & -> & Hstars & ->).
    split; [by constructor|]. repeat split; try done.
    rewrite Hstars. unfold Part002.getStarRating. by rewrite Htimer, Hlives.
Qed.

(** The fifth wrong guess ends the puzzle; a tick is then refused, and
    the callback of the guess leaves the clock where it was. *)
Lemma X18_after_the_end_witness :
  let data_words := ["GOOD"; "TIME"; "OUT"]%string in
  let guess := [KeyPress "X"; SubmitWord 1]%string in
  let events := guess ++ guess ++ guess ++ guess ++ [Tick; KeyPress "X"] in
  exists s0 s s',
    Part002.run events (Part002.initialize data_words) = Some s0 /\
    Part002.dispatch (SubmitWord 1) s0 = Some s /\
    Part002.render s = Part002.GameOverScreen /\
    Part002.dispatch Tick s = None /\
    Part002.run [FailureTimeout 1] s = Some s' /\
    Part002.timer s' = 1%nat /\ Part002.isTimerRunning s' = false.
Proof.
  intros data_words guess events.
  destruct (Part002.run events (Part002.initialize data_words)) as [s0|] eqn:Hr0;
    [|vm_compute in Hr0; discriminate].
  destruct (Part002.dispatch (SubmitWord 1) s0) as [s|] eqn:Hd;
    [|vm_compute in Hr0; injection Hr0 as <-; vm_compute in Hd; discriminate].
  destruct (Part002.run [FailureTimeout 1] s) as [s'|] eqn:Hr; [|discriminate].
  exists s0, s, s'. split; [done|]. split; [done|].
  assert (Part002.boardShown s = false) as Hb.
  { vm_compute in Hr0. injection Hr0 as <-. vm_compute in Hd. by injection Hd as <-. }
  destruct (X18_after_the_end _ _ _ _ _ Hd Hb Hr) as (Ht & _ & _ & Ht' & Htimer & _).
  split; [|split; [|split; [done|split; [|done]]]].
  - vm_compute in Hr0. injection Hr0 as <-. vm_compute in Hd. by injection Hd as <-.
  - simpl. by rewrite Ht.
  - rewrite Htimer. vm_compute in Hr0. injection Hr0 as <-. vm_compute in Hd.
    by injection Hd as <-.
Defined.

Section TypingFacts.
Import Js Part002.
Implicit Types (s : Home) (w : WordWithStatus) (i j index : nat).

Lemma hintInput_S solution n :
  hintInput solution (S n) = arraySet (hintInput solution n) n (charAt solution n).
Proof. unfold hintInput. by rewrite seq_S, foldl_app. Qed.

Lemma upper_key c : isUpper c = true -> str [c] ∈ keyboard.
Proof.
  destruct c as [[] [] [] [] [] [] [] []]; intros Hc;
    try (vm_compute in Hc; discriminate); apply (bool_decide_unpack _); by vm_compute.
Qed.

Lemma charAt_upper solution j :
  Forall (fun c => isUpper c = true) (chars solution) ->
  (j < String.length solution)%nat -> charAt solution j ∈ keyboard.
Proof.
  intros Hu Hj. destruct (lookup_lt_is_Some_2 (chars solution) j) as [c Hc];
    [by rewrite length_chars|].
  rewrite (charAt_chars _ _ _ Hc). apply upper_key.
  exact (proj1 (Forall_lookup _ _) Hu _ _ Hc).
Qed.

Lemma remainingKeys_cons solution from :
  (from < String.length solution)%nat ->
  remainingKeys solution from = charAt solution from :: remainingKeys solution (S from).
Proof.
  intros Hf. unfold remainingKeys.
  by replace (String.length solution - from)%nat
    with (S (String.length solution - S from)) by lia.
Qed.

Lemma remainingKeys_nil solution from :
  (String.length solution <= from)%nat -> remainingKeys solution from = [].
Proof.
  intros Hf. unfold remainingKeys.
  by replace (String.length solution - from)%nat with 0%nat by lia.
Qed.

Lemma boardShown_unsolved s index w :
  words s !! index = Some w -> status w <> solved -> 0 < lives s -> boardShown s = true.
Proof.
  intros Hw Hs Hl. unfold boardShown, render, isGameOver.
  rewrite (isGameComplete_unsolved _ _ _ Hw Hs). simpl.
  by destruct (Z.leb_spec (lives s) 0); [lia|].
Qed.

Lemma effects_board s : boardShown s = true -> effects s = s.
Proof.
  unfold boardShown, render, effects.
  destruct (isGameComplete s && (0 <? length (words s))%nat); [done|].
  by destruct (isGameOver s).
Qed.

(** The keys of the rest of the solution, typed one after the other. *)
Lemma run_keys n : forall s w solution from,
  outside (selectedWordIndex s) s = false ->
  words s !! selectedWordIndex s = Some w ->
  word w = solution -> currentIndex w = from -> status w <> solved ->
  userInput w = hintInput solution from ->
  (from + n = String.length solution)%nat -> (String.length solution <= 9)%nat ->
  Forall (fun c => isUpper c = true) (chars solution) ->
  0 < lives s ->
  let s' := typeKeys (remainingKeys solution from) s in
  run (KeyPress <$> remainingKeys solution from) s = Some s' /\
  selectedWordIndex s' = selectedWordIndex s /\ lives s' = lives s /\
  totalGuesses s' = totalGuesses s /\ length (words s') = length (words s) /\
  (forall j, j <> selectedWordIndex s -> words s' !! j = words s !! j) /\
  exists w', words s' !! selectedWordIndex s = Some w' /\ word w' = solution /\
    status w' <> solved /\
    userInput w' = hintInput solution (String.length solution) /\
    currentIndex w' = String.length solution /\
    hintsRevealed w' = hintsRevealed w.
Proof.
  induction n as [|n IH]; intros s w solution from Ho Hw Hword Hcur Hs Hin Hn H9 Hu Hl.
  - rewrite remainingKeys_nil by lia. simpl. repeat split; try done.
    exists w. replace (String.length solution) with from by lia. by repeat split.
  - rewrite remainingKeys_cons by lia. cbn [fmap list_fmap run typeKeys foldl].
    assert (charAt solution from ∈ keyboard) as Hk by (apply charAt_upper; [done|lia]).
    cbn [dispatch]. rewrite (boardShown_unsolved _ _ _ Hw Hs Hl).
    rewrite bool_decide_eq_true_2 by done. cbn [andb mbind option_bind].
    rewrite (handleKeyPress_selected _ s w Ho Hw Hs) by lia.
    match goal with |- context [setWords (imap ?g) s] => set (s1 := setWords (imap g) s) end.
    set (w1 := {| word := solution; status := solving;
                  userInput := hintInput solution (S from);
                  currentIndex := from + 1; hintsRevealed := hintsRevealed w |}).
    assert (words s1 !! selectedWordIndex s = Some w1) as Hw1.
    { subst s1 w1. simpl. rewrite lookup_update_at, bool_decide_eq_true_2, Hw by done.
      simpl. by rewrite (proj1 (keyboard_keys _ Hk)), Hin, Hcur, Hword, <- hintInput_S. }
    assert (effects s1 = s1) as ->.
    { apply effects_board, (boardShown_unsolved _ _ _ Hw1); done. }
    assert (outside (selectedWordIndex s1) s1 = false) as Ho1
      by (subst s1; by rewrite outside_setWords_imap).
    destruct (IH s1 w1 solution (S from) Ho1 Hw1 eq_refl ltac:(simpl; lia)
                ltac:(done) eq_refl ltac:(lia) H9 Hu Hl)
      as (Hrun & Hsel & Hlives & Hg & Hlen & Hothers & w' & Hw' & Hrest).
    change (foldl (fun s key => handleKeyPress key s) s1 (remainingKeys solution (S from)))
      with (typeKeys (remainingKeys solution (S from)) s1).
    split; [exact Hrun|]. split; [exact Hsel|]. split; [exact Hlives|].
    split; [exact Hg|]. split; [by rewrite Hlen; subst s1; simpl; rewrite length_imap|].
    split; [|by exists w'].
    intros j Hj. rewrite (Hothers j Hj). subst s1. simpl.
    by rewrite lookup_update_at, bool_decide_eq_false_2.
Qed.

End TypingFacts.

(** X19. A word can always be finished from its hints. When the cells of
    the selected middle word hold the first letters of its solution up to
    the cursor and nothing more, as they do after a wrong guess, and the
    solution is made of at most nine upper-case letters, then the keys of
    the remaining letters followed by GO are all accepted and solve the
    word: it costs no life, counts one guess and leaves the other words
    alone. *)
Theorem X19_typing_the_rest_solves s w :
  let sel := Part002.selectedWordIndex s in
  0 < Part002.lives s ->
  Part002.outside sel s = false ->
  Part002.words s !! sel = Some w ->
  Part002.status w <> solved ->
  Part002.userInput w = Part002.hintInput (Part002.word w) (Part002.currentIndex w) ->
  (Part002.currentIndex w <= String.length (Part002.word w) <= 9)%nat ->
  Part002.word w <> ""%string ->
  Forall (fun c => Js.isUpper c = true) (Js.chars (Part002.word w)) ->
  let keys := remainingKeys (Part002.word w) (Part002.currentIndex w) in
  exists s',
    Part002.run ((KeyPress <$> keys) ++ [SubmitWord sel]) s = Some s' /\
    Part002.words s' !! sel =
      Some {| Part002.word := Part002.word w; Part002.status := solved;
              Part002.userInput :=
                Part002.hintInput (Part002.word w) (String.length (Part002.word w));
              Part002.currentIndex := String.length (Part002.word w);
              Part002.hintsRevealed := Part002.hintsRevealed w |} /\
    Js.join (Part002.hintInput (Part002.word w) (String.length (Part002.word w))) =
      Part002.word w /\
    Part002.lives s' = Part002.lives s /\
    Part002.totalGuesses s' = S (Part002.totalGuesses s) /\
    (forall j, j <> sel -> Part002.words s' !! j = Part002.words s !! j).
Proof.
  intros sel Hl Ho Hw Hs Hin [Hc H9] Hne Hu keys. subst keys.
  set (solution := Part002.word w) in *.
  assert (Js.join (Part002.hintInput solution (String.length solution)) = solution) as Hjoin.
  { rewrite hintInput_join by done. rewrite take_ge by (by rewrite length_chars).
    apply str_chars. }
  assert (Js.trim solution = solution) as Htrim.
  { apply trim_letters. eapply Forall_impl; [exact Hu|]. intros c Hc'. simpl in Hc'.
    unfold Js.isLetter. rewrite Hc'. apply orb_true_r. }
  destruct (run_keys (String.length solution - Part002.currentIndex w) s w solution
              (Part002.currentIndex w) Ho Hw eq_refl eq_refl Hs Hin ltac:(lia) H9 Hu Hl)
    as (Hrun & Hsel & Hlives & Hg & Hlen & Hothers & w' & Hw' & Hword & Hs' & Hin' & Hcur & Hh).
  fold sel in Hw', Hothers, Hsel.
  set (s2 := typeKeys (remainingKeys solution (Part002.currentIndex w)) s) in *.
  assert (Part002.outside sel s2 = false) as Ho2.
  { unfold Part002.outside in *. by rewrite Hlen. }
  exists (Part002.effects (Part002.handleSubmitWord sel s2)).
  split.
  { rewrite run_app, Hrun. cbn [mbind option_bind Part002.run Part002.dispatch].
    rewrite (boardShown_unsolved _ _ _ Hw' Hs') by lia.
    unfold Part002.canSubmit.
    rewrite (proj1 (outside_isMiddleWord _ _) Ho2), Hw'.
    rewrite !bool_decide_eq_false_2; [done| |done].
    rewrite Hcur. destruct solution; [done|simpl; lia]. }
  rewrite effects_words, effects_lives, effects_totalGuesses.
  destruct (handleSubmitWord_cases sel s2)
    as [[[Ho'|Hn] _]|(w0 & _ & Hw0 & [[_ (s3 & -> & ->)]|[Hwrong _]])].
  - by rewrite Ho2 in Ho'.
  - by rewrite Hw' in Hn.
  - rewrite Hw' in Hw0. injection Hw0 as <-.
    assert (forall s0 : Part002.Home,
      Part002.words (if Z.of_nat sel <? Z.of_nat (length (Part002.words s2)) - 2
                     then Part002.setSelectedWordIndex (sel + 1) s0 else s0) =
        Part002.words s0 /\
      Part002.lives (if Z.of_nat sel <? Z.of_nat (length (Part002.words s2)) - 2
                     then Part002.setSelectedWordIndex (sel + 1) s0 else s0) =
        Part002.lives s0 /\
      Part002.totalGuesses (if Z.of_nat sel <? Z.of_nat (length (Part002.words s2)) - 2
                     then Part002.setSelectedWordIndex (sel + 1) s0 else s0) =
        Part002.totalGuesses s0) as Hif by (intros s0; by case_match).
    rewrite (proj1 (Hif _)), (proj1 (proj2 (Hif _))), (proj2 (proj2 (Hif _))). simpl.
    split; [|split; [done|split; [done|split; [lia|]]]].
    + rewrite lookup_update_at, bool_decide_eq_true_2, Hw' by done. simpl.
      by rewrite Hword, Hin', Hcur, Hh.
    + intros j Hj. rewrite lookup_update_at, bool_decide_eq_false_2 by done.
      by apply Hothers.
  - rewrite Hw' in Hw0. injection Hw0 as <-.
    by rewrite Hin', Hjoin, Htrim, Hword in Hwrong.
Qed.

(** After a wrong guess for TIME the cells hold T and I: the keys M and E
    and GO solve the word. *)
Lemma X19_typing_the_rest_solves_witness :
  let data_words := ["GOOD"; "TIME"; "OUT"]%string in
  let events := [KeyPress "X"; SubmitWord 1; FailureTimeout 1]%string in
  exists s s',
    Part002.run events (Part002.initialize data_words) = Some s /\
    Part002.run [KeyPress "M"; KeyPress "E"; SubmitWord 1]%string s = Some s' /\
    Part002.status <$> Part002.words s' = [solved; solved; solved] /\
    Part002.lives s' = 4.
Proof.
  intros data_words events.
  destruct (Part002.run events (Part002.initialize data_words)) as [s|] eqn:Hr;
    [|vm_compute in Hr; discriminate].
  exists s. vm_compute in Hr. injection Hr as <-.
  match goal with |- context [Part002.run _ ?st] => set (s0 := st) end.
  assert (exists w, Part002.words s0 !! 1%nat = Some w) as [w Hw] by by eexists.
  pose proof (X19_typing_the_rest_solves s0 w) as Hx.
  vm_compute in Hw. injection Hw as <-.
  destruct Hx as (s' & Hrun & _ & _ & Hlives & _); try done.
  - simpl. lia.
  - by repeat constructor.
  - exists s'. split; [by vm_compute|]. split; [exact Hrun|].
    vm_compute in Hrun. injection Hrun as <-. done.
Defined.

Section LoadFacts.
Import Js Json.

Lemma includes_prefix prefix rest : includes (prefix +:+ rest) prefix = true.
Proof.
  unfold includes. rewrite chars_append.
  assert (forall t s : list ascii, isPrefixOf t (t ++ s) = true) as Hp.
  { induction t as [|c t IH]; intros s; [done|]. simpl.
    by rewrite bool_decide_eq_true_2, IH. }
  destruct (chars prefix) as [|c t] eqn:E; [by destruct (chars rest)|].
  rewrite <- E. destruct (chars prefix ++ chars rest) eqn:E'; simpl;
    rewrite <- ?E', Hp; done.
Qed.

Lemma fetchWordChain_failure :
  fetchWordChain Route.generationFailure = inl "HTTP error! status: 500"%string.
Proof. by vm_compute. Qed.

End LoadFacts.

(** X20. The page and the endpoint together. The request of the page,
    [length=5], is answered 200, 429 or 500 and never 400. On 429 the page
    shows the message of the server with the minutes to wait, as a rate
    limit; on 500 it shows the status alone, as an error: the advice of the
    server to try again is dropped. On 200 the session starts on the board
    with five words, the second of them selected, every word in upper case
    and trimmed. *)
Theorem X20_page_load JSON_parse forwarded real now now' store c :
  let request := {| x_forwarded_for := forwarded; x_real_ip := real;
                    lengthParam := Some "5"%string |} in
  let response := answer (Route.GET JSON_parse request now now' store).1 c in
  status response = 429 /\
  (exists minutes,
     fetchWordChain response =
       inl ("Too many requests. Please try again in "
            +:+ Json.numberToString minutes +:+ " minutes.")%string /\
     isRateLimit ("Too many requests. Please try again in "
                  +:+ Json.numberToString minutes +:+ " minutes.") = true)
  \/
  status response = 500 /\
  fetchWordChain response = inl "HTTP error! status: 500"%string /\
  isRateLimit "HTTP error! status: 500" = false
  \/
  status response = 200 /\
  exists words,
    fetchWordChain response = inr (Part002.initialize words) /\
    length words = 5%nat /\
    Forall (fun w => Js.toUpperCase w = w /\ Js.trim w = w) words /\
    Part002.render (Part002.initialize words) = Part002.Board /\
    Part002.selectedWordIndex (Part002.initialize words) = 1%nat.
Proof.
  intros request response. subst response.
  pose proof (GET_cases JSON_parse request now now' store) as Hg. cbv zeta in Hg.
  destruct (checkRateLimit _ _ _) as [result store']. rewrite Hg. clear Hg.
  cbn [fst]. destruct (allowed result); cbn [negb].
  - right. change (Route.requestedLength request) with (Some 5). cbv beta iota.
    change ((5 <? 3) || (5 >? 8)) with false. cbv iota. cbn [answer].
    match goal with |- context [Route.respondWith _ ?l ?hs c] =>
      destruct (respondWith_cases JSON_parse l hs c)
        as [->|(n & content & words & cleanWords & [= <-] & _ & _ & Hlen & Hm & ->)] end.
    + left. split; [done|]. split; [apply fetchWordChain_failure|by vm_compute].
    + right. split; [done|]. exists cleanWords.
      assert (length cleanWords = 5%nat) as Hl.
      { apply length_mapM in Hm. lia. }
      split; [done|]. split; [done|]. split.
      * apply Forall_forall. intros w Hw. by apply (cleanWords_fixed words cleanWords).
      * apply initialize_board. lia.
  - left. cbn [answer status]. split; [done|].
    exists (Route.ceilMinutes (windowResetTime result - now')). split.
    + unfold fetchWordChain. cbn [ok status body Z.eqb negb andb Z.leb Z.compare
        Pos.compare Pos.compare_cont]. by rewrite truthy_append.
    + unfold isRateLimit.
      assert (forall rest : string,
        ("Too many requests. Please try again in " +:+ rest)%string =
        ("Too many requests" +:+ (". Please try again in " +:+ rest))%string) as ->
        by reflexivity.
      by rewrite includes_prefix.
Qed.

Section FirstCell.
Import Js Part002.
Implicit Types (s : Home) (w : WordWithStatus) (i j index : nat).

(** Induction along the sessions of a chain. *)
Lemma reachable_step (P : Home -> Prop) data_words :
  P (initialize data_words) ->
  (forall e s s', reachable data_words s -> P s -> dispatch e s = Some s' -> P s') ->
  forall s, reachable data_words s -> P s.
Proof.
  intros Hinit Hstep s [events Hr]. revert s Hr.
  induction events as [|e events IH] using rev_ind; intros s.
  - by intros [= <-].
  - rewrite run_app. destruct (run events (initialize data_words)) as [s0|] eqn:Hr0; [|done].
    simpl. destruct (dispatch e s0) as [s1|] eqn:Hd; [|done]. intros [= <-].
    apply (Hstep e s0).
    + by exists events.
    + by apply IH.
    + done.
Qed.

(** With all five lives every middle word has its first hint only, in
    the first cell as the answer wrote it. *)
Lemma first_cell data_words s :
  reachable data_words s -> lives s = 5 ->
  forall index x w, data_words !! index = Some x ->
    isMiddleWord index (length data_words) = true ->
    words s !! index = Some w ->
    hintsRevealed w = 1%nat /\ userInput w !! 0%nat = Some (charAt x 0).
Proof.
  intros Hreach. revert s Hreach.
  apply (reachable_step (fun s => lives s = 5 ->
    forall index x w, data_words !! index = Some x ->
      isMiddleWord index (length data_words) = true ->
      words s !! index = Some w ->
      hintsRevealed w = 1%nat /\ userInput w !! 0%nat = Some (charAt x 0))).
  - intros _ index x w Hx Hm Hw. rewrite (initialize_middle _ _ _ Hx Hm) in Hw.
    by injection Hw as <-.
  - intros e s s' Hreach IH Hd Hl' index x w' Hx Hm Hw'.
    destruct (reachable_sessionInvariant _ _ Hreach) as (Hl & Hcells & _).
    destruct (reachable_invariant _ _ Hreach) as [_ Hi].
    destruct e as [key| |guessed|selected| |failedIndex]; simpl in Hd.
    + destruct (boardShown s && _); [|done]. injection Hd as <-.
      rewrite effects_lives in Hl'. rewrite effects_words in Hw'.
      destruct (handleKeyPress_words key s) as [E|(w & _ & Hsel & _ & Hc & E)];
        rewrite E in Hl', Hw'; [by apply (IH Hl' index x)|].
      simpl in Hl', Hw'. rewrite lookup_update_at in Hw'.
      case_bool_decide as Hindex; [|by apply (IH Hl' index x)].
      subst index. rewrite Hsel in Hw'. injection Hw' as <-. simpl.
      destruct (IH Hl' _ x w Hx Hm Hsel) as [Hh Hcell].
      destruct (Hi _ _ Hsel) as (Hhc & _).
      destruct (proj1 (Forall_lookup _ _) Hcells _ _ Hsel) as (Hlen & _).
      split; [done|]. rewrite arraySet_lookup_ne; [done|lia|lia].
    + destruct (boardShown s); [|done]. injection Hd as <-.
      rewrite effects_lives in Hl'. rewrite effects_words in Hw'.
      destruct (handleBackspace_words s) as [E|(w & _ & Hsel & _ & Hc & E)];
        rewrite E in Hl', Hw'; [by apply (IH Hl' index x)|].
      simpl in Hl', Hw'. rewrite lookup_update_at in Hw'.
      case_bool_decide as Hindex; [|by apply (IH Hl' index x)].
      subst index. rewrite Hsel in Hw'. injection Hw' as <-. simpl.
      destruct (IH Hl' _ x w Hx Hm Hsel) as [Hh Hcell].
      destruct (proj1 (Forall_lookup _ _) Hcells _ _ Hsel) as (Hlen & _).
      split; [done|]. rewrite arraySet_lookup_ne; [done|lia|lia].
    + destruct (boardShown s && _); [|done]. injection Hd as <-.
      rewrite effects_lives in Hl'. rewrite effects_words in Hw'.
      destruct (handleSubmitWord_cases guessed s)
        as [[_ E]|(w & _ & Hg & [[_ (s1 & -> & E)]|[_ E]])]; rewrite E in Hl', Hw'.
      * by apply (IH Hl' index x).
      * assert (forall s0 : Home,
          words (if Z.of_nat guessed <? Z.of_nat (length (words s)) - 2
                 then setSelectedWordIndex (guessed + 1) s0 else s0) = words s0 /\
          lives (if Z.of_nat guessed <? Z.of_nat (length (words s)) - 2
                 then setSelectedWordIndex (guessed + 1) s0 else s0) = lives s0) as Hif
          by (intros s0; by case_match).
        rewrite (proj2 (Hif _)) in Hl'. rewrite (proj1 (Hif _)) in Hw'.
        simpl in Hl', Hw'. pose proof Hl' as Hl5.
        rewrite lookup_update_at in Hw'.
        case_bool_decide as Hindex; [|by apply (IH Hl5 index x)].
        subst index. rewrite Hg in Hw'. injection Hw' as <-. simpl.
        by apply (IH Hl5 guessed x w).
      * simpl in Hl'. lia.
    + destruct (boardShown s && _); [|done]. injection Hd as <-.
      rewrite effects_lives in Hl'. rewrite effects_words in Hw'.
      by apply (IH Hl' index x).
    + destruct (isTimerRunning s); [|done]. injection Hd as <-.
      rewrite effects_lives in Hl'. rewrite effects_words in Hw'.
      by apply (IH Hl' index x).
    + injection Hd as <-.
      rewrite effects_lives in Hl'. rewrite effects_words in Hw'.
      simpl in Hl', Hw'. rewrite list_lookup_imap in Hw'.
      destruct (words s !! index) as [w|] eqn:Hw; [|done]. simpl in Hw'.
      destruct (IH Hl' _ x w Hx Hm Hw) as [Hh Hcell].
      by case_match; injection Hw' as <-.
Qed.

Lemma lower_upperChar c : isLower c = true -> upperChar c <> c /\ isWhiteSpace c = false.
Proof. destruct c as [[] [] [] [] [] [] [] []]; by vm_compute. Qed.

(** Trimming keeps a first character that is not white space. *)
Lemma trim_head c rest :
  isWhiteSpace c = false -> exists rest', trim (String c rest) = String c rest'.
Proof.
  intros Hc. unfold trim. change (chars (String c rest)) with (c :: chars rest).
  simpl. rewrite Hc. unfold trimEndL. simpl.
  destruct (trimStartL_snoc (rev (chars rest)) c Hc) as [l' ->].
  rewrite rev_app_distr. simpl. by eexists.
Qed.

End FirstCell.

(** X21. The first hint of [unnamed/part_002] is the first character of
    the word as the answer wrote it, while the solution is compared in
    upper case and no key or backspace reaches the first cell. A middle
    word that the answer gives with a lower-case first letter is therefore
    never solved while the player has all five lives: whatever is typed,
    the first guess for it is wrong. *)
Theorem X21_hint_as_written data_words events s index c rest :
  Part002.run events (Part002.initialize data_words) = Some s ->
  Part002.isMiddleWord index (length data_words) = true ->
  data_words !! index = Some (String c rest) ->
  Js.isLower c = true ->
  Part002.lives s = 5 ->
  exists w, Part002.words s !! index = Some w /\
    Part002.userInput w !! 0%nat = Some (String c "") /\
    Part002.word w = String (Js.upperChar c) (Js.toUpperCase rest) /\
    Js.trim (Js.join (Part002.userInput w)) <> Part002.word w /\
    Part002.status w <> solved.
Proof.
  intros Hr Hm Hx Hc Hl.
  assert (Part002.reachable data_words s) as Hreach by by exists events.
  destruct (reachable_invariant _ _ Hreach) as [_ Hi].
  pose proof (run_solutions _ _ _ Hr) as Hsol. rewrite initialize_solutions in Hsol.
  assert (length (Part002.words s) = length data_words) as Hlen.
  { apply (f_equal length) in Hsol. by rewrite !length_fmap in Hsol. }
  apply (f_equal (fun l => l !! index)) in Hsol.
  rewrite !list_lookup_fmap, Hx in Hsol. simpl in Hsol.
  destruct (Part002.words s !! index) as [w|] eqn:Hw; [|done]. injection Hsol as Hword.
  change (Js.toUpperCase (String c rest))
    with (String (Js.upperChar c) (Js.toUpperCase rest)) in Hword.
  destruct (first_cell _ _ Hreach Hl _ _ _ Hx Hm Hw) as [_ Hcell].
  change (Js.charAt (String c rest) 0) with (String c "") in Hcell.
  destruct (lower_upperChar c Hc) as [Hup Hws].
  assert (Js.trim (Js.join (Part002.userInput w)) <> Part002.word w) as Hne.
  { destruct (Part002.userInput w) as [|cell cells]; [done|]. injection Hcell as ->.
    change (Js.join (String c "" :: cells)) with (String c (Js.join cells)).
    destruct (trim_head c (Js.join cells) Hws) as [rest' ->].
    rewrite Hword. intros [= E _]. by apply Hup. }
  exists w. repeat split; try done.
  intros Hs. destruct (Hi _ _ Hw) as (_ & Hjoin & _). rewrite Hlen in Hjoin.
  by apply Hne, Hjoin.
Qed.

(** The chain as the model of [unnamed/part_001] may write it: the guess
    tIME for TIME is wrong. *)
Lemma X21_hint_as_written_witness :
  let data_words := ["good"; "time"; "out"]%string in
  let events := (KeyPress <$> ["I"; "M"; "E"]%string) in
  exists s w,
    Part002.run events (Part002.initialize data_words) = Some s /\
    Part002.words s !! 1%nat = Some w /\
    Part002.word w = "TIME"%string /\
    Js.join (Part002.userInput w) = "tIME"%string /\
    Part002.lives (Part002.handleSubmitWord 1 s) = 4.
Proof.
  intros data_words events.
  destruct (Part002.run events (Part002.initialize data_words)) as [s|] eqn:Hr;
    [|vm_compute in Hr; discriminate].
  destruct (X21_hint_as_written data_words events s 1 "t" "ime" Hr eq_refl eq_refl eq_refl)
    as (w & Hw & _ & Hword & _).
  { vm_compute in Hr. by injection Hr as <-. }
  exists s, w. split; [done|]. split; [done|]. split; [done|].
  vm_compute in Hr. injection Hr as <-. vm_compute in Hw. injection Hw as <-.
  by vm_compute.
Defined.

Section PageSessionFacts.
Import Js Page.
Implicit Types (s : Home) (w : WordWithStatus) (i j index : nat).

Lemma pageSolvedCount_app l k :
  pageSolvedCount (l ++ k) = (pageSolvedCount l + pageSolvedCount k)%nat.
Proof. unfold pageSolvedCount. by rewrite List.filter_app, length_app. Qed.

Lemma pageSolvedCount_insert (l : list WordWithStatus) index x y :
  l !! index = Some x ->
  (pageSolvedCount (<[index := y]> l) + (if bool_decide (status x = solved) then 1 else 0) =
   pageSolvedCount l + (if bool_decide (status y = solved) then 1 else 0))%nat.
Proof.
  intros Hx. rewrite insert_take_drop by by apply lookup_lt_Some with x.
  rewrite <- (take_drop_middle l index x Hx) at 3.
  rewrite !pageSolvedCount_app.
  change (y :: drop (S index) l) with ([y] ++ drop (S index) l).
  change (x :: drop (S index) l) with ([x] ++ drop (S index) l).
  rewrite !pageSolvedCount_app. unfold pageSolvedCount at 2 5. simpl.
  do 2 case_bool_decide; simpl; lia.
Qed.

Lemma pageSolvedCount_imap_kept (g : nat -> WordWithStatus -> WordWithStatus) l :
  (forall i x, bool_decide (status (g i x) = solved) = bool_decide (status x = solved)) ->
  pageSolvedCount (imap g l) = pageSolvedCount l.
Proof.
  revert g. induction l as [|x l IH]; intros g Hg; [done|].
  rewrite imap_cons. unfold pageSolvedCount in *. simpl. rewrite Hg.
  specialize (IH (g ∘ S) (fun i y => Hg (S i) y)). by case_bool_decide; simpl; rewrite IH.
Qed.

Lemma page_initialize_session data_words :
  pageSessionInvariant (pageSolvedCount (words (initialize data_words)))
    (initialize data_words).
Proof.
  split; [done|]. split; [|simpl; lia]. simpl. unfold wordsWithStatus.
  apply Forall_lookup. intros i w. rewrite list_lookup_imap.
  destruct (data_words !! i) as [x|]; [|done]. intros [= <-].
  destruct (isMiddleWord i (length data_words)); repeat split; simpl; try done; try lia.
  - apply Forall_cons. split; [apply length_charAt|].
    apply (Forall_replicate _ 11). simpl. lia.
  - intros [|j] Hj Hj12; [lia|]. apply (lookup_replicate_2 11). lia.
  - apply (Forall_replicate _ 12). simpl. lia.
  - intros j Hj Hj12. apply (lookup_replicate_2 12). lia.
Qed.

Lemma page_effects_totalGuesses s : totalGuesses (effects s) = totalGuesses s.
Proof. unfold effects. by repeat case_match. Qed.

Lemma page_effects_session initial s :
  pageSessionInvariant initial s -> pageSessionInvariant initial (effects s).
Proof.
  unfold pageSessionInvariant.
  by rewrite page_effects_words, page_effects_lives, page_effects_totalGuesses.
Qed.

Lemma page_handleKeyPress_session initial key s :
  key ∈ keyboard -> pageSessionInvariant initial s ->
  pageSessionInvariant initial (handleKeyPress key s).
Proof.
  intros Hk (Hl & Hw & Hg).
  destruct (page_handleKeyPress_words key s) as [->|(w & _ & Hsel & Hs & Hc & ->)]; [done|].
  unfold pageSessionInvariant, setWords. simpl. rewrite (update_insert _ _ _ _ Hsel).
  split; [done|]. split.
  - apply Forall_insert; [done|].
    destruct (proj1 (Forall_lookup _ _) Hw _ _ Hsel) as (Hlen & Hcells & Hcur & Hempty).
    rewrite arraySet_inside by lia. repeat split; simpl.
    + by rewrite length_insert.
    + apply Forall_insert; [done|]. destruct (keyboard_keys key Hk) as [-> ->]. lia.
    + lia.
    + intros j Hj Hj12. rewrite list_lookup_insert_ne by lia. apply Hempty; lia.
  - pose proof (pageSolvedCount_insert (words s) (selectedWordIndex s) w
      {| word := word w; status := solving;
         userInput := arraySet (userInput w) (currentIndex w) (toUpperCase key);
         currentIndex := currentIndex w + 1 |} Hsel) as Hcount.
    simpl in Hcount. rewrite bool_decide_eq_false_2 in Hcount by done. lia.
Qed.

Lemma page_handleBackspace_session initial s :
  pageSessionInvariant initial s -> pageSessionInvariant initial (handleBackspace s).
Proof.
  intros (Hl & Hw & Hg).
  destruct (page_handleBackspace_words s) as [->|(w & _ & Hsel & Hs & Hc & ->)]; [done|].
  unfold pageSessionInvariant, setWords. simpl. rewrite (update_insert _ _ _ _ Hsel).
  split; [done|]. split.
  - apply Forall_insert; [done|].
    destruct (proj1 (Forall_lookup _ _) Hw _ _ Hsel) as (Hlen & Hcells & Hcur & Hempty).
    rewrite arraySet_inside by lia. repeat split; simpl.
    + by rewrite length_insert.
    + apply Forall_insert; [done|]. simpl. lia.
    + lia.
    + intros j Hj Hj12.
      destruct (decide (j = currentIndex w - 1)%nat) as [->|Hne].
      * apply list_lookup_insert_eq. lia.
      * rewrite list_lookup_insert_ne by lia. apply Hempty; lia.
  - pose proof (pageSolvedCount_insert (words s) (selectedWordIndex s) w
      {| word := word w; status := status w;
         userInput := arraySet (userInput w) (currentIndex w - 1) "";
         currentIndex := currentIndex w - 1 |} Hsel) as Hcount.
    simpl in Hcount. lia.
Qed.

Lemma page_handleSubmitWord_session initial index s :
  0 < lives s -> canSubmit index s = true ->
  pageSessionInvariant initial s -> pageSessionInvariant initial (handleSubmitWord index s).
Proof.
  intros Hpos Hcan (Hl & Hw & Hg).
  destruct (page_handleSubmitWord_cases index s)
    as [[_ ->]|(w & _ & Hi & [[_ ->]|[_ ->]])]; [done|..];
    (assert (status w <> solved) as Hs
       by (unfold canSubmit in Hcan; rewrite Hi in Hcan;
           case_bool_decide; [by rewrite andb_false_r in Hcan|done]));
    pose proof (proj1 (Forall_lookup _ _) Hw _ _ Hi) as Hcells.
  - unfold pageSessionInvariant, setWords, setSelectedWordIndex, setTotalGuesses.
    simpl. rewrite (update_insert _ _ _ _ Hi). split; [done|]. split.
    + apply Forall_insert; [done|]. destruct Hcells as (? & ? & ? & ?). by repeat split.
    + pose proof (pageSolvedCount_insert (words s) index w
        {| word := word w; status := solved; userInput := userInput w;
           currentIndex := currentIndex w |} Hi) as Hcount.
      simpl in Hcount. rewrite bool_decide_eq_false_2 in Hcount by done. lia.
  - unfold pageSessionInvariant, setWords, setLives, setScreenShake, setDroppingHeart,
      setTotalGuesses. simpl. rewrite (update_insert _ _ _ _ Hi). split; [lia|]. split.
    + apply Forall_insert; [done|]. repeat split; simpl; try lia.
      * apply Forall_cons. split; [apply length_charAt|].
        apply (Forall_replicate _ 11). simpl. lia.
      * intros [|j] Hj Hj12; [lia|]. apply (lookup_replicate_2 11). lia.
    + pose proof (pageSolvedCount_insert (words s) index w
        {| word := word w; status := failed;
           userInput := arraySet (replicate 12 ""%string) 0 (charAt (word w) 0);
           currentIndex := 1 |} Hi) as Hcount.
      simpl in Hcount. rewrite bool_decide_eq_false_2 in Hcount by done. lia.
Qed.

Lemma page_failureTimeout_session initial index s :
  pageSessionInvariant initial s -> pageSessionInvariant initial (failureTimeout index s).
Proof.
  intros (Hl & Hw & Hg). split; [done|]. simpl. split.
  - apply Forall_lookup. intros i w'. rewrite list_lookup_imap.
    destruct (words s !! i) as [w|] eqn:Ew; [|done]. simpl.
    pose proof (proj1 (Forall_lookup _ _) Hw _ _ Ew) as Hc.
    case_match; intros [= <-]; [|done]. destruct Hc as (? & ? & ? & ?). by repeat split.
  - rewrite pageSolvedCount_imap_kept; [done|]. intros i x.
    destruct (bool_decide (i = index) && bool_decide (status x = failed)) eqn:E; [|done].
    simpl. apply andb_prop in E as [_ E%bool_decide_eq_true].
    by rewrite E, !bool_decide_eq_false_2.
Qed.

Lemma page_dispatch_session initial e s s' :
  pageSessionInvariant initial s -> dispatch e s = Some s' -> pageSessionInvariant initial s'.
Proof.
  intros Hi. destruct e as [key| |index|index| |index]; simpl.
  - destruct (boardShown s); [|done]. case_bool_decide as Hk; [|done]. intros [= <-].
    by apply page_effects_session, page_handleKeyPress_session.
  - case_match; [|done]. intros [= <-].
    by apply page_effects_session, page_handleBackspace_session.
  - destruct (boardShown s) eqn:Eb; [|done]. destruct (canSubmit index s) eqn:Ec; [|done].
    intros [= <-]. apply page_effects_session, page_handleSubmitWord_session; try done.
    by apply page_boardShown_lives.
  - case_match; [|done]. intros [= <-]. by apply page_effects_session.
  - case_match; [|done]. intros [= <-]. by apply page_effects_session.
  - intros [= <-]. by apply page_effects_session, page_failureTimeout_session.
Qed.

Lemma page_run_session initial events : forall s s',
  pageSessionInvariant initial s -> run events s = Some s' -> pageSessionInvariant initial s'.
Proof.
  induction events as [|e events IH]; intros s s' Hi; simpl.
  - by intros [= <-].
  - destruct (dispatch e s) as [s1|] eqn:Ed; [|done]. simpl.
    apply IH. by apply (page_dispatch_session initial e s).
Qed.

Lemma page_initialize_solutions data_words :
  word <$> words (initialize data_words) = toUpperCase <$> data_words.
Proof.
  simpl. unfold wordsWithStatus. apply list_eq. intros i.
  rewrite !list_lookup_fmap, list_lookup_imap. by destruct (data_words !! i).
Qed.

Lemma page_run_solutions events : forall s s',
  run events s = Some s' -> word <$> words s' = word <$> words s.
Proof.
  induction events as [|e events IH]; intros s s'; simpl; [by intros [= <-]|].
  destruct (dispatch e s) as [s1|] eqn:Ed; [|done]. simpl. intros Hr.
  by rewrite (IH _ _ Hr), (page_dispatch_solutions _ _ _ Ed).
Qed.

End PageSessionFacts.

(** X22. The sessions of [src/app/page.tsx] keep the same accounts with
    twelve cells a word: the lives stay between 0 and 5, the count of
    guesses is the lives lost plus the words solved since the chain was
    loaded, every word keeps twelve cells of at most one character that are
    empty from the cursor on, and a middle word whose solution has more
    than twelve characters is never solved. *)
Theorem X22_page_session data_words events s :
  Page.run events (Page.initialize data_words) = Some s ->
  0 <= Page.lives s <= 5 /\
  Z.of_nat (Page.totalGuesses s) =
    (5 - Page.lives s) +
    (Z.of_nat (pageSolvedCount (Page.words s)) -
     Z.of_nat (pageSolvedCount (Page.words (Page.initialize data_words)))) /\
  (forall index w, Page.words s !! index = Some w ->
     length (Page.userInput w) = 12%nat /\ (Page.currentIndex w <= 12)%nat /\
     forall j cell, Page.userInput w !! j = Some cell ->
       (String.length cell <= 1)%nat /\
       ((Page.currentIndex w <= j)%nat -> cell = ""%string)) /\
  (forall index solution,
     data_words !! index = Some solution ->
     Page.isMiddleWord index (length data_words) = true ->
     (12 < String.length solution)%nat ->
     exists w, Page.words s !! index = Some w /\
       Page.word w = Js.toUpperCase solution /\ Page.status w <> solved).
Proof.
  intros Hr.
  assert (Page.reachable data_words s) as Hreach by by exists events.
  destruct (page_run_session _ _ _ _ (page_initialize_session data_words) Hr)
    as (Hl & Hw & Hg).
  destruct (page_reachable_invariant _ _ Hreach) as [_ Hi].
  split; [done|]. split; [lia|]. split.
  - intros index w Hlook.
    destruct (proj1 (Forall_lookup _ _) Hw _ _ Hlook) as (Hlen & Hcells & Hcur & Hempty).
    split; [done|]. split; [done|]. intros j cell Hj. split.
    + exact (proj1 (Forall_lookup _ _) Hcells _ _ Hj).
    + intros Hc. apply lookup_lt_Some in Hj as Hj12. rewrite Hlen in Hj12.
      rewrite (Hempty j Hc Hj12) in Hj. by injection Hj.
  - intros index solution Hd Hm Hlong.
    pose proof (page_run_solutions _ _ _ Hr) as Hsol.
    rewrite page_initialize_solutions in Hsol.
    assert (length (Page.words s) = length data_words) as Hlen.
    { apply (f_equal length) in Hsol. by rewrite !length_fmap in Hsol. }
    apply (f_equal (fun l => l !! index)) in Hsol.
    rewrite !list_lookup_fmap, Hd in Hsol. simpl in Hsol.
    destruct (Page.words s !! index) as [w|] eqn:Hlook; [|done].
    injection Hsol as Hword. exists w. split; [done|]. split; [done|].
    intros Hs. destruct (Hi _ _ Hlook) as (_ & Hjoin).
    rewrite Hlen in Hjoin. specialize (Hjoin Hs Hm).
    destruct (proj1 (Forall_lookup _ _) Hw _ _ Hlook) as (Hl12 & Hcells & _).
    pose proof (length_join _ Hcells) as Hj.
    pose proof (length_trim (Js.join (Page.userInput w))) as Ht.
    rewrite Hjoin, Hword, length_toUpperCase in Ht. lia.
Qed.

(** One right guess and one wrong in [src/app/page.tsx]. *)
Lemma X22_page_session_witness :
  let data_words := ["good"; "time"; "out"; "side"; "walk"]%string in
  let events :=
    (KeyPress <$> ["I"; "M"; "E"]%string) ++ [SubmitWord 1] ++
    (KeyPress <$> ["W"; "R"; "O"; "N"; "G"]%string) ++ [SubmitWord 2] in
  exists s,
    Page.run events (Page.initialize data_words) = Some s /\
    Page.totalGuesses s = 2%nat /\ Page.lives s = 4 /\
    pageSolvedCount (Page.words s) = 3%nat.
Proof.
  intros data_words events.
  destruct (Page.run events (Page.initialize data_words)) as [s|] eqn:Hr;
    [|vm_compute in Hr; discriminate].
  exists s. split; [done|].
  pose proof (proj1 (X22_page_session data_words events s Hr)) as Hl.
  vm_compute in Hr. injection Hr as <-. by repeat split.
Defined.
